(** * The Network Firewall resource: collection differ and reconciler

    A shallow embedding of the firewall resource controller
    (package [networkfirewall]): the subnet-mapping differ
    ([subnetMappingsHash], [subnetMappingsDiff] and the expanders), the
    status probe and the three waits, and the create / read / update /
    delete passes with the update token they thread through the remote
    calls. *)

From Stdlib Require Import ZArith String Ascii List Lia.
From stdpp Require Import base option list gmap strings sorting pretty fin_maps.

Local Open Scope string_scope.
Local Open Scope Z_scope.

(** ** Values of the plugin SDK's schema package *)

Module schema.

(** A Go [interface{}] found inside a set element. *)
Inductive tfValue : Type :=
| TfString (s : string)
| TfBool (b : bool)
| TfInt (n : Z).

(** A Go [interface{}] held by a set: a [map[string]interface{}] for a
    nested resource, or any other value. *)
Inductive tfItem : Type :=
| TfMap (m : gmap string tfValue)
| TfOther (v : tfValue).

#[global] Instance tfValue_eq_dec : EqDecision tfValue.
Proof. solve_decision. Defined.

#[global] Instance tfItem_eq_dec : EqDecision tfItem.
Proof. solve_decision. Defined.

(** The comma-ok type assertion [v.(string)] on the result of indexing a
    Go map: a missing key yields the nil interface, which fails it. *)
Definition asString (v : option tfValue) : option string :=
  match v with
  | Some (TfString s) => Some s
  | _ => None
  end.

(** Go's [int] is 64 bits wide on the supported platforms; negation wraps. *)
Definition int_wrap (z : Z) : Z := (z + 2 ^ 63) mod 2 ^ 64 - 2 ^ 63.
Definition int_neg (z : Z) : Z := int_wrap (- z).

(** [strconv.Itoa] *)
Definition Itoa (z : Z) : string := pretty z.

(** [sort.StringSlice]'s order: byte-wise lexicographic. *)
Definition string_le (a b : string) : Prop := String.leb a b = true.

#[global] Instance string_le_dec : RelDecision string_le.
Proof. intros a b. unfold string_le. apply _. Defined.

(** [schema.Set]: the hash function [F] and the map [m] from the decimal
    hash code of an element to the element. *)
Record Set_ : Type := mkSet {
  F : tfItem -> Z;
  m : gmap string tfItem
}.

(** [Set.hash] *)
Definition hash (s : Set_) (item : tfItem) : string :=
  let code := F s item in
  let code := if code <? 0 then int_neg code else code in
  Itoa code.

(** [Set.add]: the first element stored under a code stays. *)
Definition add (s : Set_) (item : tfItem) : Set_ :=
  let code := hash s item in
  match m s !! code with
  | Some _ => s
  | None => {| F := F s; m := <[code := item]> (m s) |}
  end.

(** [schema.NewSet] *)
Definition NewSet (f : tfItem -> Z) (items : list tfItem) : Set_ :=
  fold_left add items {| F := f; m := ∅ |}.

(** [Set.Len] *)
Definition Len (s : Set_) : nat := size (m s).

(** [Set.listCode]: the keys of the map, sorted. *)
Definition listCode (s : Set_) : list string :=
  merge_sort string_le (map_to_list (m s)).*1.

(** [Set.List]: the elements in the order of their sorted codes. *)
Definition List (s : Set_) : list tfItem :=
  omap (fun k => m s !! k) (listCode s).

(** [Set.Difference]: the elements of [s] whose code is not a key of
    [other]; the result keeps the hash function of [s]. *)
Definition Difference (s other : Set_) : Set_ :=
  {| F := F s;
     m := filter (fun kv => m other !! kv.1 = None) (m s) |}.

(** [Set.Equal]: [reflect.DeepEqual] of the two maps. *)
Definition Equal (s other : Set_) : bool := bool_decide (m s = m other).

End schema.

Import schema.

(** [aws.StringValue]: the empty string for a nil pointer. *)
Definition StringValue (p : option string) : string := default "" p.

(** [aws.BoolValue] *)
Definition BoolValue (p : option bool) : bool := default false p.

(** [strings.Contains] *)
Fixpoint strings_Contains (s substr : string) : bool :=
  if String.prefix substr s then true
  else match s with
       | EmptyString => false
       | String _ s' => strings_Contains s' substr
       end.

(** ** Errors and diagnostics *)

(** The Go errors the controller meets. *)
#[warnings="-register-all"]
Inductive error : Type :=
| AwsError (Code Message : string)       (* an [awserr.Error] of the service *)
| NotFoundError (LastError : option error) (* [retry.NotFoundError] *)
| EmptyResultError                       (* [tfresource.EmptyResultError] *)
| UnexpectedStateError (State : string)  (* [retry.UnexpectedStateError] *)
| TimeoutError (LastState : string)      (* [retry.TimeoutError] *)
| OtherError (msg : string).

(** [errors.As] towards [awserr.Error]: the code and the message of the
    service error, found also behind [NotFoundError.Unwrap]. *)
Fixpoint asAwsError (err : error) : option (string * string) :=
  match err with
  | AwsError c msg => Some (c, msg)
  | NotFoundError (Some e) => asAwsError e
  | _ => None
  end.

(** [tfawserr.ErrCodeEquals] with one code; false on a nil error. *)
Definition ErrCodeEquals (err : option error) (code : string) : bool :=
  match err ≫= asAwsError with
  | Some (c, _) => bool_decide (c = code)
  | None => false
  end.

(** [tfawserr.ErrMessageContains] *)
Definition ErrMessageContains (err : option error) (code message : string) : bool :=
  match err ≫= asAwsError with
  | Some (c, msg) => bool_decide (c = code) && strings_Contains msg message
  | None => false
  end.

(** Modelled from the spec: [tfresource.NotFound] (package [tfresource],
    not under src/), the NotFound class of the error classifier: the
    referenced object does not exist remotely. It holds of a
    [retry.NotFoundError] and of the empty-result error, and of no nil
    error. *)
Definition NotFound (err : option error) : bool :=
  match err with
  | Some (NotFoundError _) | Some EmptyResultError => true
  | _ => false
  end.

(** The classes of the error classifier. *)
Inductive ErrorClass : Type := ClassNotFound | ClassConflict | ClassTransient | ClassFatal.

(** An argument of a diagnostic's format. *)
Inductive Arg : Type :=
| ArgString (s : string)
| ArgError (e : error).

(** An error diagnostic: the format of its summary and the arguments. *)
Record Diagnostic : Type := mkDiagnostic {
  Summary : string;
  Args : list Arg
}.

(** [sdkdiag.AppendErrorf] *)
Definition AppendErrorf (diags : list Diagnostic) (format : string) (a : list Arg)
  : list Diagnostic :=
  (diags ++ [{| Summary := format; Args := a |}])%list.

(** ** API shapes of the remote service (package [networkfirewall] of the
    AWS SDK) *)

Definition ErrCodeResourceNotFoundException : string := "ResourceNotFoundException".
Definition ErrCodeInvalidRequestException : string := "InvalidRequestException".
Definition FirewallStatusValueProvisioning : string := "PROVISIONING".
Definition FirewallStatusValueDeleting : string := "DELETING".
Definition FirewallStatusValueReady : string := "READY".

(** [time.Duration] counts nanoseconds. *)
Definition Second : Z := 1000000000.
Definition Minute : Z := 60 * Second.

(** [networkfirewall.SubnetMapping]; both fields are [*string]. *)
Record SubnetMapping : Type := mkSubnetMapping {
  SubnetId : option string;
  IPAddressType : option string
}.

#[global] Instance SubnetMapping_eq_dec : EqDecision SubnetMapping.
Proof. solve_decision. Defined.

Record EncryptionConfiguration : Type := mkEncryptionConfiguration {
  KeyId : option string;
  Type_ : option string
}.

Record Attachment : Type := mkAttachment {
  EndpointId : option string;
  AttachmentSubnetId : option string
}.

Record SyncState : Type := mkSyncState {
  SyncStateAttachment : option Attachment
}.

Record FirewallStatus : Type := mkFirewallStatus {
  Status : option string;
  SyncStates : option (gmap string SyncState)
}.

(** [networkfirewall.Firewall], the fields the controller touches. *)
Record Firewall : Type := mkFirewall {
  FirewallArn : option string;
  DeleteProtection : option bool;
  Description : option string;
  FirewallEncryptionConfiguration : option EncryptionConfiguration;
  FirewallName : option string;
  FirewallPolicyArn : option string;
  FirewallPolicyChangeProtection : option bool;
  SubnetChangeProtection : option bool;
  SubnetMappings : list SubnetMapping;
  VpcId : option string
}.

(** [networkfirewall.DescribeFirewallOutput] *)
Record DescribeFirewallOutput : Type := mkDescribeFirewallOutput {
  OutputFirewall : option Firewall;
  OutputFirewallStatus : option FirewallStatus;
  OutputUpdateToken : option string
}.

(** What a call returns besides its error: the output struct of the
    operation. The eight mutations of the update pass each return a
    struct whose [UpdateToken] is the one field the controller reads. *)
Inductive Output : Type :=
| OutCreateFirewall (fw : option Firewall)
| OutDescribeFirewall (out : DescribeFirewallOutput)
| OutDeleteFirewall
| OutUpdate (UpdateToken : option string).

(** The input struct of each operation the controller calls. Fields the
    source fills through [aws.String] and [aws.Bool] are never nil. *)
Inductive Request : Type :=
| CreateFirewallInput
    (FirewallName FirewallPolicyArn : string)
    (SubnetMappings : list SubnetMapping) (VpcId : string)
    (DeleteProtection : option bool) (Description : option string)
    (EncryptionConfiguration : option EncryptionConfiguration)
    (FirewallPolicyChangeProtection SubnetChangeProtection : option bool)
| DescribeFirewallInput (FirewallArn : string)
| DeleteFirewallInput (FirewallArn : string)
| UpdateFirewallDeleteProtectionInput
    (DeleteProtection : bool) (FirewallArn UpdateToken : string)
| UpdateFirewallDescriptionInput
    (Description FirewallArn UpdateToken : string)
| UpdateFirewallEncryptionConfigurationInput
    (EncryptionConfiguration : option EncryptionConfiguration)
    (FirewallArn UpdateToken : string)
| UpdateFirewallPolicyChangeProtectionInput
    (FirewallArn : string) (FirewallPolicyChangeProtection : bool)
    (UpdateToken : string)
| AssociateFirewallPolicyInput
    (FirewallArn FirewallPolicyArn UpdateToken : string)
| UpdateSubnetChangeProtectionInput
    (FirewallArn : string) (SubnetChangeProtection : bool)
    (UpdateToken : string)
| AssociateSubnetsInput
    (FirewallArn : string) (SubnetMappings : list SubnetMapping)
    (UpdateToken : string)
| DisassociateSubnetsInput
    (FirewallArn : string) (SubnetIds : list string) (UpdateToken : string).

(** What the pass does towards the outside, in the order it does it: a
    call with what came back, or a sleep of the waiter. *)
Inductive Event : Type :=
| Call (req : Request) (output : option Output) (err : option error)
| Sleep (d : Z).

(** ** The resource data of the plugin SDK *)

(** The flattened [firewall_status] attribute. *)
Record SyncStateTf : Type := mkSyncStateTf {
  availability_zone : string;
  attachment : list tfItem
}.

Record FirewallStatusTf : Type := mkFirewallStatusTf {
  sync_states : list SyncStateTf
}.

(** The attributes of the schema of [ResourceFirewall], typed by it. *)
Record FirewallAttrs : Type := mkFirewallAttrs {
  arn : string;
  delete_protection : bool;
  description : string;
  encryption_configuration : list tfItem;
  firewall_policy_arn : string;
  firewall_policy_change_protection : bool;
  firewall_status : list FirewallStatusTf;
  name : string;
  subnet_change_protection : bool;
  subnet_mapping : Set_;
  update_token : string;
  vpc_id : string
}.

(** [schema.ResourceData]: the identifier, whether the resource is being
    created, the prior state, the planned values that [Get] reads and
    [Set] writes, and the timeouts. *)
Record ResourceData : Type := mkResourceData {
  Id : string;
  IsNewResource : bool;
  state : FirewallAttrs;
  plan : FirewallAttrs;
  TimeoutCreate : Z;
  TimeoutUpdate : Z;
  TimeoutDelete : Z
}.

(** [d.Get(key)] *)
Definition Get {A} (key : FirewallAttrs -> A) (d : ResourceData) : A := key (plan d).

(** [d.GetChange(key)] *)
Definition GetChange {A} (key : FirewallAttrs -> A) (d : ResourceData) : A * A :=
  (key (state d), key (plan d)).

(** [d.HasChange(key)] on an attribute compared by [reflect.DeepEqual]. *)
Definition HasChange {A} `{EqDecision A} (key : FirewallAttrs -> A)
    (d : ResourceData) : bool :=
  negb (bool_decide (key (state d) = key (plan d))).

(** [d.HasChange(key)] on a set attribute, compared by [Set.Equal]. *)
Definition HasChangeSet (key : FirewallAttrs -> Set_) (d : ResourceData) : bool :=
  negb (Equal (key (state d)) (key (plan d))).

(** [d.SetId] *)
Definition SetId (id : string) (d : ResourceData) : ResourceData :=
  {| Id := id; IsNewResource := IsNewResource d; state := state d;
     plan := plan d; TimeoutCreate := TimeoutCreate d;
     TimeoutUpdate := TimeoutUpdate d; TimeoutDelete := TimeoutDelete d |}.

(** All the [d.Set] calls of a read at once: the planned values become [a]. *)
Definition SetAll (a : FirewallAttrs) (d : ResourceData) : ResourceData :=
  {| Id := Id d; IsNewResource := IsNewResource d; state := state d;
     plan := a; TimeoutCreate := TimeoutCreate d;
     TimeoutUpdate := TimeoutUpdate d; TimeoutDelete := TimeoutDelete d |}.

(** Modelled from the spec: the attribute-name constant
    [names.AttrSubnetID] (package [names], not under src/) is the key of
    the identity field of a subnet mapping, its subnet ID. *)
Definition AttrSubnetID : string := "subnet_id".

(** ** Elements and hash codes *)

(** A set element with the two string fields of the schema. *)
Definition mapping (p : string * string) : tfItem :=
  TfMap (<[AttrSubnetID := TfString p.1]>
         (<["ip_address_type" := TfString p.2]> ∅)).

(** What [expandSubnetMappings] makes of one such element. *)
Definition expandOne (p : string * string) : SubnetMapping :=
  {| SubnetId := Some p.1;
     IPAddressType := if bool_decide (p.2 ≠ "") then Some p.2 else None |}.

(** The map key a set hashed by [f] gives an element. *)
Definition codeOf (f : tfItem -> Z) (x : tfItem) : string :=
  hash {| F := f; m := ∅ |} x.

(** No two distinct elements of [l] get the same key under [f]. *)
Definition collision_free (f : tfItem -> Z) (l : list tfItem) : Prop :=
  Forall (fun x => Forall (fun y => codeOf f x = codeOf f y -> x = y) l) l.

#[global] Instance collision_free_dec (f : tfItem -> Z) (l : list tfItem) :
  Decision (collision_free f l).
Proof. unfold collision_free. apply _. Defined.

(** ** A hash, a scripted service and sample data for the examples *)

(** CRC-32 (IEEE), bit by bit. *)
Definition crcStep (crc : Z) : Z :=
  if Z.testbit crc 0 then Z.lxor (Z.shiftr crc 1) 3988292384
  else Z.shiftr crc 1.

Definition crcByte (crc : Z) (a : ascii) : Z :=
  Nat.iter 8 crcStep (Z.lxor crc (Z.of_N (N_of_ascii a))).

Fixpoint crcString (crc : Z) (s : string) : Z :=
  match s with
  | EmptyString => crc
  | String a s' => crcString (crcByte crc a) s'
  end.

Definition ChecksumIEEE (s : string) : Z :=
  Z.lxor (crcString 4294967295 s) 4294967295.

(** A string hash for the examples: the CRC-32 checksum. *)
Definition exampleHashcode (s : string) : Z := ChecksumIEEE s.

(** A hash of set elements for the examples: the checksum of the fields
    written out in the order of their names. *)
Definition exampleHashResource (v : tfItem) : Z :=
  match v with
  | TfMap tfMap =>
    exampleHashcode
      ("ip_address_type:"
       +:+ default "" (asString (tfMap !! "ip_address_type"))
       +:+ ";subnet_id:"
       +:+ default "" (asString (tfMap !! AttrSubnetID)) +:+ ";")
  | _ => 0
  end.

(** A scripted service: its state is the list of the answers left, which
    it gives in turn whatever the request. *)
Definition scripted (req : Request) (w : list (option Output * option error))
  : (option Output * option error) * list (option Output * option error) :=
  match w with
  | a :: w' => (a, w')
  | [] => ((None, Some (OtherError "no answer left")), [])
  end.

(** Answers: a mutation that succeeds with a new token, a creation, a
    describe that finds the firewall, and errors of the service. *)
Definition updated (tok : string) : option Output * option error :=
  (Some (OutUpdate (Some tok)), None).

Definition sampleFirewall : Firewall :=
  {| FirewallArn := Some "arn:fw"; DeleteProtection := None;
     Description := None; FirewallEncryptionConfiguration := None;
     FirewallName := Some "fw"; FirewallPolicyArn := None;
     FirewallPolicyChangeProtection := None;
     SubnetChangeProtection := None; SubnetMappings := []; VpcId := None |}.

Definition created : option Output * option error :=
  (Some (OutCreateFirewall (Some sampleFirewall)), None).

Definition described (status tok : string) : option Output * option error :=
  (Some (OutDescribeFirewall
           {| OutputFirewall := Some sampleFirewall;
              OutputFirewallStatus :=
                Some {| Status := Some status; SyncStates := None |};
              OutputUpdateToken := Some tok |}),
   None).

(** A describe that finds the firewall with the subnet mappings [sm]. *)
Definition sampleFirewallWith (sm : list SubnetMapping) : Firewall :=
  {| FirewallArn := Some "arn:fw"; DeleteProtection := None;
     Description := None; FirewallEncryptionConfiguration := None;
     FirewallName := Some "fw"; FirewallPolicyArn := None;
     FirewallPolicyChangeProtection := None;
     SubnetChangeProtection := None; SubnetMappings := sm; VpcId := None |}.

Definition describedWith (sm : list SubnetMapping) (status tok : string)
  : option Output * option error :=
  (Some (OutDescribeFirewall
           {| OutputFirewall := Some (sampleFirewallWith sm);
              OutputFirewallStatus :=
                Some {| Status := Some status; SyncStates := None |};
              OutputUpdateToken := Some tok |}),
   None).

Definition failed (code message : string) : option Output * option error :=
  (None, Some (AwsError code message)).

(** Sample attributes: a firewall with the given description, policy and
    subnets, on which the protections of the policy and of the subnets
    are both on or both off. *)
Definition sampleAttrs (desc policy : string) (protect : bool)
    (subnets : list (string * string)) : FirewallAttrs :=
  {| arn := "arn:fw"; delete_protection := false; description := desc;
     encryption_configuration := []; firewall_policy_arn := policy;
     firewall_policy_change_protection := protect; firewall_status := [];
     name := "fw"; subnet_change_protection := protect;
     subnet_mapping := NewSet exampleHashResource (mapping <$> subnets);
     update_token := "t0"; vpc_id := "vpc-1" |}.

(** Sample data: the state read last, with the subnets a and c and both
    protections on, and a plan with the subnets a and b, the protections
    off, another description and another policy. *)
Definition sampleState : FirewallAttrs :=
  sampleAttrs "" "arn:policy" true
    [("subnet-a", "IPV4"); ("subnet-c", "IPV4")].

Definition samplePlan : FirewallAttrs :=
  sampleAttrs "new" "arn:policy2" false
    [("subnet-a", "IPV4"); ("subnet-b", "IPV4")].

Definition sampleData (old new : FirewallAttrs) (isNew : bool) : ResourceData :=
  {| Id := "arn:fw"; IsNewResource := isNew; state := old; plan := new;
     TimeoutCreate := 30 * Minute; TimeoutUpdate := 30 * Minute;
     TimeoutDelete := 30 * Minute |}.

Section resource.

(** ** The differ *)

(** [create.StringHashcode] (package [create], not under src/): the
    hash of a string as a Go [int]. *)
Variable StringHashcode : string -> Z.

(** [expandSubnetMappings]. The single-value assertion
    [tfMap[names.AttrSubnetID].(string)] panics when it fails: [None]. *)
Fixpoint expandSubnetMappings (l : list tfItem) : option (list SubnetMapping) :=
  match l with
  | [] => Some []
  | tfMapRaw :: l' =>
    match tfMapRaw with
    | TfMap tfMap =>
      match asString (tfMap !! AttrSubnetID) with
      | None => None
      | Some id =>
        let mapping := {| SubnetId := Some id; IPAddressType := None |} in
        let mapping :=
          match asString (tfMap !! "ip_address_type") with
          | Some v =>
            if bool_decide (v ≠ "")
            then {| SubnetId := SubnetId mapping; IPAddressType := Some v |}
            else mapping
          | None => mapping
          end in
        mappings ← expandSubnetMappings l';
        Some (mapping :: mappings)
      end
    | _ => expandSubnetMappings l'
    end
  end.

(** [expandSubnetMappingIDs] *)
Fixpoint expandSubnetMappingIDs (l : list tfItem) : list string :=
  match l with
  | [] => []
  | tfMapRaw :: l' =>
    match tfMapRaw with
    | TfMap tfMap =>
      match asString (tfMap !! AttrSubnetID) with
      | Some id =>
        if bool_decide (id ≠ "")
        then id :: expandSubnetMappingIDs l'
        else expandSubnetMappingIDs l'
      | None => expandSubnetMappingIDs l'
      end
    | _ => expandSubnetMappingIDs l'
    end
  end.

(** [subnetMappingsHash]: the subnet ID and the IP address type, each
    followed by a dash, hashed. *)
Definition subnetMappingsHash (v : tfItem) : Z :=
  match v with
  | TfMap tfMap =>
    let buf := "" in
    let buf :=
      match asString (tfMap !! AttrSubnetID) with
      | Some id => buf +:+ (id +:+ "-")
      | None => buf
      end in
    let buf :=
      match asString (tfMap !! "ip_address_type") with
      | Some id => buf +:+ (id +:+ "-")
      | None => buf
      end in
    StringHashcode buf
  | _ => 0
  end.

(** [subnetMappingsDiff]: the subnet IDs to remove and the mappings to
    add; [None] when an expander panics. *)
Definition subnetMappingsDiff (old new : Set_)
  : option (list string * list SubnetMapping) :=
  if bool_decide (Len old = 0%nat) then
    toAdd ← expandSubnetMappings (List new);
    Some ([], toAdd)
  else if bool_decide (Len new = 0%nat) then
    Some (expandSubnetMappingIDs (List old), [])
  else
    let oldHashedSet := NewSet subnetMappingsHash (List old) in
    let newHashedSet := NewSet subnetMappingsHash (List new) in
    let toRemove := Difference oldHashedSet newHashedSet in
    let toAdd := Difference new old in
    let subnetsToRemove := expandSubnetMappingIDs (List toRemove) in
    subnetsToAdd ← expandSubnetMappings (List toAdd);
    Some (subnetsToRemove, subnetsToAdd).

(** ** The remote service and the pass *)

(** The state of the remote service, and the service itself: what it
    answers to a request, and the state it moves to. *)
Variable W : Type.
Variable invoke : Request -> W -> (option Output * option error) * W.

(** The error classifier consulted by the waiter. *)
Variable classify : error -> ErrorClass.

(** The interval between two polls of the waiter. *)
Variable pollInterval : Z.

(** [expandEncryptionConfiguration] and [flattenEncryptionConfiguration]
    (another file of the package, not under src/). *)
Variable expandEncryptionConfiguration : list tfItem -> option EncryptionConfiguration.
Variable flattenEncryptionConfiguration : option EncryptionConfiguration -> list tfItem.

(** What a pass has reached: the remote state and the events so far. *)
Record St : Type := mkSt {
  remote : W;
  trace : list Event
}.

(** A computation of the controller: it moves the state and yields a value. *)
Definition M (A : Type) : Type := St -> A * St.

#[local] Instance M_ret : MRet M := fun A a st => (a, st).

#[local] Instance M_bind : MBind M := fun A B k c st =>
  let '(a, st') := c st in k a st'.

(** How a block of a Go function ends: it falls through with a value, it
    returns diagnostics from the function, or it panics. *)
Inductive Flow (A : Type) : Type :=
| Next (a : A)
| Return (diags : list Diagnostic)
| Panic.
Arguments Next {A} a.
Arguments Return {A} diags.
Arguments Panic {A}.

(** A block followed by the rest of the function. *)
Definition andThen {A B} (c : M (Flow A)) (k : A -> M (Flow B)) : M (Flow B) :=
  r ← c;
  match r with
  | Next a => k a
  | Return diags => mret (Return diags)
  | Panic => mret Panic
  end.

(** A call of the service client: the request and its answer are
    recorded, the remote state moves. *)
Definition call (req : Request) : M (option Output * option error) :=
  fun st =>
    let '(r, w) := invoke req (remote st) in
    (r, {| remote := w; trace := (trace st ++ [Call req r.1 r.2])%list |}).

(** [time.Sleep] *)
Definition sleep (d : Z) : M unit :=
  fun st => (tt, {| remote := remote st; trace := (trace st ++ [Sleep d])%list |}).

(** ** Finding the firewall and probing its status *)

(** What [FindFirewallByARN] returns with a nil error: the output, whose
    firewall and firewall status it found non-nil. *)
Record FoundFirewall : Type := mkFoundFirewall {
  FoundFirewall_Firewall : Firewall;
  FoundFirewall_FirewallStatus : FirewallStatus;
  FoundFirewall_UpdateToken : option string
}.

(** [FindFirewallByARN] *)
Definition FindFirewallByARN (arn : string) : M (error + FoundFirewall) :=
  let input := DescribeFirewallInput arn in
  '(output, err) ← call input;
  if ErrCodeEquals err ErrCodeResourceNotFoundException then
    mret (inl (NotFoundError err))
  else
    match err with
    | Some e => mret (inl e)
    | None =>
      match output with
      | Some (OutDescribeFirewall
                {| OutputFirewall := Some fw; OutputFirewallStatus := Some fs;
                   OutputUpdateToken := tok |}) =>
        mret (inr {| FoundFirewall_Firewall := fw;
                     FoundFirewall_FirewallStatus := fs;
                     FoundFirewall_UpdateToken := tok |})
      | _ => mret (inl EmptyResultError)
      end
    end.

(** The error of a result, nil on success. *)
Definition errOf {A} (r : error + A) : option error :=
  match r with inl e => Some e | inr _ => None end.

(** [statusFirewall]: the refresh function of the waits. A firewall that
    is not found is reported as absent, without error. *)
Definition statusFirewall (arn : string)
  : M (option FoundFirewall * string * option error) :=
  r ← FindFirewallByARN arn;
  if NotFound (errOf r) then mret (None, "", None)
  else match r with
       | inl err => mret (None, "", Some err)
       | inr output =>
         mret (Some output,
               StringValue (Status (FoundFirewall_FirewallStatus output)), None)
       end.

(** ** The waiter *)

(** [retry.StateChangeConf], the fields the controller sets. *)
Record StateChangeConf : Type := mkStateChangeConf {
  Delay : Z;
  Pending : list string;
  Refresh : M (option FoundFirewall * string * option error);
  Target : list string;
  Timeout : Z
}.

(** Modelled from the spec: the poll loop of the waiter
    ([retry.StateChangeConf.WaitForStateContext] of the plugin SDK, not
    under src/). [elapsed] is the time since the wait started and [last]
    the last status seen. An absent object ends the wait when no target
    status is asked for; a target status ends it with the snapshot; a
    pending status, an absent object awaited in a target status and an
    error that is not fatal keep it polling; any other status and a fatal
    error fail it; past the timeout it times out. *)
Fixpoint pollLoop (fuel : nat) (conf : StateChangeConf) (elapsed : Z)
    (last : string) : M (option FoundFirewall * option error) :=
  match fuel with
  | O => mret (None, Some (TimeoutError last))
  | S fuel' =>
    if Timeout conf <? elapsed then mret (None, Some (TimeoutError last))
    else
      '(res, status, err) ← Refresh conf;
      match err with
      | Some e =>
        match classify e with
        | ClassFatal => mret (None, Some e)
        | _ =>
          sleep pollInterval;;
          pollLoop fuel' conf (elapsed + pollInterval) last
        end
      | None =>
        match res with
        | None =>
          if bool_decide (Target conf = []) then mret (None, None)
          else
            sleep pollInterval;;
            pollLoop fuel' conf (elapsed + pollInterval) last
        | Some snapshot =>
          if bool_decide (status ∈ Target conf) then mret (Some snapshot, None)
          else if bool_decide (status ∈ Pending conf) then
            sleep pollInterval;;
            pollLoop fuel' conf (elapsed + pollInterval) status
          else mret (None, Some (UnexpectedStateError status))
        end
      end
  end.

(** Modelled from the spec: [WaitForStateContext] (plugin SDK, not under
    src/): the initial delay, when there is one, then the poll loop, which
    the timeout bounds. *)
Definition WaitForStateContext (conf : StateChangeConf)
  : M (option FoundFirewall * option error) :=
  (if 0 <? Delay conf then sleep (Delay conf) else mret tt);;
  pollLoop (Z.to_nat (Timeout conf / Z.max 1 pollInterval) + 1) conf (Delay conf) "".

(** The configuration of [waitFirewallCreated]. *)
Definition createdConf (timeout : Z) (arn : string) : StateChangeConf :=
  {| Delay := 0;
     Pending := [FirewallStatusValueProvisioning];
     Target := [FirewallStatusValueReady];
     Refresh := statusFirewall arn;
     Timeout := timeout |}.

(** [waitFirewallCreated] *)
Definition waitFirewallCreated (timeout : Z) (arn : string)
  : M (option Firewall * option error) :=
  '(outputRaw, err) ← WaitForStateContext (createdConf timeout arn);
  match outputRaw with
  | Some output => mret (Some (FoundFirewall_Firewall output), err)
  | None => mret (None, err)
  end.

(** The configuration of [waitFirewallUpdated]: the delay accounts for
    Associate/DisassociateSubnet calls after which the status reads READY
    at once instead of PROVISIONING. *)
Definition updatedConf (timeout : Z) (arn : string) : StateChangeConf :=
  {| Delay := 30 * Second;
     Pending := [FirewallStatusValueProvisioning];
     Target := [FirewallStatusValueReady];
     Refresh := statusFirewall arn;
     Timeout := timeout |}.

(** [waitFirewallUpdated]: the update token of the firewall as the wait
    read it last. *)
Definition waitFirewallUpdated (timeout : Z) (arn : string)
  : M (string * option error) :=
  '(outputRaw, err) ← WaitForStateContext (updatedConf timeout arn);
  match outputRaw with
  | Some output => mret (StringValue (FoundFirewall_UpdateToken output), err)
  | None => mret ("", err)
  end.

(** The configuration of [waitFirewallDeleted]. *)
Definition deletedConf (timeout : Z) (arn : string) : StateChangeConf :=
  {| Delay := 0;
     Pending := [FirewallStatusValueDeleting];
     Target := [];
     Refresh := statusFirewall arn;
     Timeout := timeout |}.

(** [waitFirewallDeleted] *)
Definition waitFirewallDeleted (timeout : Z) (arn : string)
  : M (option Firewall * option error) :=
  '(outputRaw, err) ← WaitForStateContext (deletedConf timeout arn);
  match outputRaw with
  | Some output => mret (Some (FoundFirewall_Firewall output), err)
  | None => mret (None, err)
  end.

(** ** Flatteners *)

(** [flattenSyncStateAttachment] *)
Definition flattenSyncStateAttachment (a : option Attachment) : list tfItem :=
  match a with
  | None => []
  | Some a =>
    let m := <["endpoint_id" := TfString (StringValue (EndpointId a))]>
             (<[AttrSubnetID := TfString (StringValue (AttachmentSubnetId a))]> ∅) in
    [TfMap m]
  end.

(** [flattenSyncStates]; the attribute is a set, so the order in which the
    Go map is ranged over does not show. *)
Definition flattenSyncStates (s : option (gmap string SyncState)) : list SyncStateTf :=
  match s with
  | None => []
  | Some s =>
    (fun kv : string * SyncState =>
       {| availability_zone := kv.1;
          attachment := flattenSyncStateAttachment (SyncStateAttachment kv.2) |})
    <$> map_to_list s
  end.

(** [flattenFirewallStatus] *)
Definition flattenFirewallStatus (status : option FirewallStatus) : list FirewallStatusTf :=
  match status with
  | None => []
  | Some status => [{| sync_states := flattenSyncStates (SyncStates status) |}]
  end.

(** [flattenSubnetMappings] *)
Definition flattenSubnetMappings (sm : list SubnetMapping) : list tfItem :=
  (fun s : SubnetMapping =>
     TfMap (<[AttrSubnetID := TfString (StringValue (SubnetId s))]>
            (<["ip_address_type" := TfString (StringValue (IPAddressType s))]> ∅)))
  <$> sm.

(** ** Read *)

(** [resourceFirewallRead]: the diagnostics and the resource data as the
    read leaves it. [d.Set] fails only on a value that does not fit the
    schema; the typed attributes leave none, so its three error returns
    have no counterpart. Tags travel in the context and are left out. *)
Definition resourceFirewallRead (d : ResourceData)
  : M (list Diagnostic * ResourceData) :=
  let diags := [] in
  r ← FindFirewallByARN (Id d);
  if negb (IsNewResource d) && NotFound (errOf r) then
    mret (diags, SetId "" d)
  else
    match r with
    | inl err =>
      mret (AppendErrorf diags "reading NetworkFirewall Firewall (%s): %s"
              [ArgString (Id d); ArgError err], d)
    | inr output =>
      let firewall := FoundFirewall_Firewall output in
      mret (diags,
            SetAll
              {| arn := StringValue (FirewallArn firewall);
                 delete_protection := BoolValue (DeleteProtection firewall);
                 description := StringValue (Description firewall);
                 encryption_configuration :=
                   flattenEncryptionConfiguration
                     (FirewallEncryptionConfiguration firewall);
                 firewall_policy_arn := StringValue (FirewallPolicyArn firewall);
                 firewall_policy_change_protection :=
                   BoolValue (FirewallPolicyChangeProtection firewall);
                 firewall_status :=
                   flattenFirewallStatus (Some (FoundFirewall_FirewallStatus output));
                 name := StringValue (FirewallName firewall);
                 subnet_change_protection :=
                   BoolValue (SubnetChangeProtection firewall);
                 subnet_mapping :=
                   NewSet (F (subnet_mapping (plan d)))
                          (flattenSubnetMappings (SubnetMappings firewall));
                 update_token := StringValue (FoundFirewall_UpdateToken output);
                 vpc_id := StringValue (VpcId firewall) |}
              d)
    end.

(** ** Update *)

(** The end shared by the six scalar blocks of the update: the error of
    the call is surfaced, or the token of the response is carried on. *)
Definition carryToken (r : option Output * option error) (format : string)
    (d : ResourceData) : M (Flow string) :=
  match r.2 with
  | Some err =>
    mret (Return (AppendErrorf [] format [ArgString (Id d); ArgError err]))
  | None =>
    match r.1 with
    | Some (OutUpdate UpdateToken) => mret (Next (StringValue UpdateToken))
    | _ => mret Panic
    end
  end.

Definition updateDeleteProtection (d : ResourceData) (updateToken : string)
  : M (Flow string) :=
  if HasChange delete_protection d then
    let input :=
      UpdateFirewallDeleteProtectionInput
        (Get delete_protection d) (Id d) updateToken in
    r ← call input;
    carryToken r
      "updating NetworkFirewall Firewall (%s) delete protection: %s" d
  else mret (Next updateToken).

Definition updateDescription (d : ResourceData) (updateToken : string)
  : M (Flow string) :=
  if HasChange description d then
    let input :=
      UpdateFirewallDescriptionInput (Get description d) (Id d) updateToken in
    r ← call input;
    carryToken r "updating NetworkFirewall Firewall (%s) description: %s" d
  else mret (Next updateToken).

Definition updateEncryptionConfiguration (d : ResourceData) (updateToken : string)
  : M (Flow string) :=
  if HasChange encryption_configuration d then
    let input :=
      UpdateFirewallEncryptionConfigurationInput
        (expandEncryptionConfiguration (Get encryption_configuration d))
        (Id d) updateToken in
    r ← call input;
    carryToken r
      "updating NetworkFirewall Firewall (%s) encryption configuration: %s" d
  else mret (Next updateToken).

Definition updateFirewallPolicyChangeProtection (d : ResourceData)
    (updateToken : string) : M (Flow string) :=
  if HasChange firewall_policy_change_protection d then
    let input :=
      UpdateFirewallPolicyChangeProtectionInput
        (Id d) (Get firewall_policy_change_protection d) updateToken in
    r ← call input;
    carryToken r
      "updating NetworkFirewall Firewall (%s) firewall policy change protection: %s" d
  else mret (Next updateToken).

Definition updateFirewallPolicyArn (d : ResourceData) (updateToken : string)
  : M (Flow string) :=
  if HasChange firewall_policy_arn d then
    let input :=
      AssociateFirewallPolicyInput
        (Id d) (Get firewall_policy_arn d) updateToken in
    r ← call input;
    carryToken r
      "updating NetworkFirewall Firewall (%s) firewall policy ARN: %s" d
  else mret (Next updateToken).

Definition updateSubnetChangeProtection (d : ResourceData) (updateToken : string)
  : M (Flow string) :=
  if HasChange subnet_change_protection d then
    let input :=
      UpdateSubnetChangeProtectionInput
        (Id d) (Get subnet_change_protection d) updateToken in
    r ← call input;
    carryToken r
      "updating NetworkFirewall Firewall (%s) subnet change protection: %s" d
  else mret (Next updateToken).

(** The association of the subnets to add, and the wait that follows. *)
Definition associateSubnets (d : ResourceData)
    (subnetsToAdd : list SubnetMapping) (updateToken : string)
  : M (Flow string) :=
  if bool_decide (0 < length subnetsToAdd)%nat then
    let input := AssociateSubnetsInput (Id d) subnetsToAdd updateToken in
    '(_, err) ← call input;
    match err with
    | Some err =>
      mret (Return (AppendErrorf []
              "associating NetworkFirewall Firewall (%s) subnets: %s"
              [ArgString (Id d); ArgError err]))
    | None =>
      '(updateToken, err) ← waitFirewallUpdated (TimeoutUpdate d) (Id d);
      match err with
      | Some err =>
        mret (Return (AppendErrorf []
                "waiting for NetworkFirewall Firewall (%s) update: %s"
                [ArgString (Id d); ArgError err]))
      | None => mret (Next updateToken)
      end
    end
  else mret (Next updateToken).

(** The disassociation of the subnets to remove: on success the wait; an
    error whose message says "inaccessible" is let pass. *)
Definition disassociateSubnets (d : ResourceData)
    (subnetsToRemove : list string) (updateToken : string)
  : M (Flow unit) :=
  if bool_decide (0 < length subnetsToRemove)%nat then
    let input := DisassociateSubnetsInput (Id d) subnetsToRemove updateToken in
    '(_, err) ← call input;
    match err with
    | None =>
      '(_, err) ← waitFirewallUpdated (TimeoutUpdate d) (Id d);
      match err with
      | Some err =>
        mret (Return (AppendErrorf []
                "waiting for NetworkFirewall Firewall (%s) update: %s"
                [ArgString (Id d); ArgError err]))
      | None => mret (Next tt)
      end
    | Some err' =>
      if negb (ErrMessageContains err ErrCodeInvalidRequestException "inaccessible")
      then
        mret (Return (AppendErrorf []
                "disassociating NetworkFirewall Firewall (%s) subnets: %s"
                [ArgString (Id d); ArgError err']))
      else mret (Next tt)
    end
  else mret (Next tt).

Definition updateSubnetMapping (d : ResourceData) (updateToken : string)
  : M (Flow unit) :=
  if HasChangeSet subnet_mapping d then
    let '(o, n) := GetChange subnet_mapping d in
    match subnetMappingsDiff o n with
    | None => mret Panic
    | Some (subnetsToRemove, subnetsToAdd) =>
      andThen (associateSubnets d subnetsToAdd updateToken) (fun updateToken =>
      disassociateSubnets d subnetsToRemove updateToken)
    end
  else mret (Next tt).

(** The mutations of [resourceFirewallUpdate], in the order of the source. *)
Definition updateMutations (d : ResourceData) : M (Flow unit) :=
  let updateToken := Get update_token d in
  andThen (updateDeleteProtection d updateToken) (fun updateToken =>
  andThen (updateDescription d updateToken) (fun updateToken =>
  andThen (updateEncryptionConfiguration d updateToken) (fun updateToken =>
  andThen (updateFirewallPolicyChangeProtection d updateToken) (fun updateToken =>
  andThen (updateFirewallPolicyArn d updateToken) (fun updateToken =>
  andThen (updateSubnetChangeProtection d updateToken) (fun updateToken =>
  updateSubnetMapping d updateToken)))))).

(** [resourceFirewallUpdate]: the mutations, then the read; [None] when
    the function panics. *)
Definition resourceFirewallUpdate (d : ResourceData)
  : M (option (list Diagnostic * ResourceData)) :=
  r ← updateMutations d;
  match r with
  | Next _ => r ← resourceFirewallRead d; mret (Some r)
  | Return diags => mret (Some (diags, d))
  | Panic => mret None
  end.

(** ** Delete *)


(** ** Create *)

(** [d.GetOk(key)] on a boolean and on a string attribute: the value and
    whether it is set to a non-zero value. *)
Definition GetOk_bool (key : FirewallAttrs -> bool) (d : ResourceData) : option bool :=
  if Get key d then Some true else None.

Definition GetOk_string (key : FirewallAttrs -> string) (d : ResourceData)
  : option string :=
  if bool_decide (Get key d ≠ "") then Some (Get key d) else None.

(** The input of the creation, given the expanded subnet mappings. The
    tags of the input travel in the context and are left out. *)
Definition createFirewallInput (d : ResourceData) (mappings : list SubnetMapping)
  : Request :=
  CreateFirewallInput (Get name d) (Get firewall_policy_arn d) mappings
    (Get vpc_id d)
    (GetOk_bool delete_protection d)
    (GetOk_string description d)
    (match Get encryption_configuration d with
     | [] => None
     | v => expandEncryptionConfiguration v
     end)
    (GetOk_bool firewall_policy_change_protection d)
    (GetOk_bool subnet_change_protection d).

(** [resourceFirewallCreate]; [None] when the function panics. *)
Definition resourceFirewallCreate (d : ResourceData)
  : M (option (list Diagnostic * ResourceData)) :=
  let diags := [] in
  let name_ := Get name d in
  match expandSubnetMappings (List (Get subnet_mapping d)) with
  | None => mret None
  | Some mappings =>
    let input := createFirewallInput d mappings in
    '(output, err) ← call input;
    match err with
    | Some err =>
      mret (Some (AppendErrorf diags "creating NetworkFirewall Firewall (%s): %s"
                    [ArgString name_; ArgError err], d))
    | None =>
      match output with
      | Some (OutCreateFirewall (Some fw)) =>
        let d := SetId (StringValue (FirewallArn fw)) d in
        '(_, err) ← waitFirewallCreated (TimeoutCreate d) (Id d);
        match err with
        | Some err =>
          mret (Some (AppendErrorf diags
                        "waiting for NetworkFirewall Firewall (%s) create: %s"
                        [ArgString (Id d); ArgError err], d))
        | None => r ← resourceFirewallRead d; mret (Some r)
        end
      | _ => mret None
      end
    end
  end.

(** ** Traces of a pass *)

(** A pass starts on a remote state with no event behind it. *)
Definition start (w : W) : St := {| remote := w; trace := [] |}.

(** The place of a mutation of the update pass in the order of the source;
    0 for the calls that are no such mutation. *)
Definition rank (req : Request) : nat :=
  match req with
  | UpdateFirewallDeleteProtectionInput _ _ _ => 1
  | UpdateFirewallDescriptionInput _ _ _ => 2
  | UpdateFirewallEncryptionConfigurationInput _ _ _ => 3
  | UpdateFirewallPolicyChangeProtectionInput _ _ _ => 4
  | AssociateFirewallPolicyInput _ _ _ => 5
  | UpdateSubnetChangeProtectionInput _ _ _ => 6
  | AssociateSubnetsInput _ _ _ => 7
  | DisassociateSubnetsInput _ _ _ => 8
  | _ => 0
  end.

Definition isMutation (req : Request) : bool := bool_decide (0 < rank req)%nat.

(** The six mutations of one scalar field each. *)
Definition isScalar (req : Request) : bool :=
  bool_decide (0 < rank req < 7)%nat.

(** The update token a mutation carries. *)
Definition tokenOf (req : Request) : option string :=
  match req with
  | UpdateFirewallDeleteProtectionInput _ _ tok
  | UpdateFirewallDescriptionInput _ _ tok
  | UpdateFirewallEncryptionConfigurationInput _ _ tok
  | UpdateFirewallPolicyChangeProtectionInput _ _ tok
  | AssociateFirewallPolicyInput _ _ tok
  | UpdateSubnetChangeProtectionInput _ _ tok
  | AssociateSubnetsInput _ _ tok
  | DisassociateSubnetsInput _ _ tok => Some tok
  | _ => None
  end.

(** The mutation an event is, if it is one. *)
Definition mutationOf (ev : Event) : option Request :=
  match ev with
  | Call req _ _ => if isMutation req then Some req else None
  | Sleep _ => None
  end.

(** The mutations of a trace, in the order they were issued. *)
Definition mutationsOf (evs : list Event) : list Request := omap mutationOf evs.

(** The update tokens the mutations of a trace carried. *)
Definition tokensOf (evs : list Event) : list string :=
  omap tokenOf (mutationsOf evs).

(** A mutation call that failed. *)
Definition failedMutation (ev : Event) : Prop :=
  match ev with
  | Call req _ (Some _) => isMutation req = true
  | _ => False
  end.

(** The token an event hands to the pass: the one in the response of a
    successful scalar mutation, and the one a successful describe reads. *)
Definition returnedToken (ev : Event) : option string :=
  match ev with
  | Call req (Some (OutUpdate tok)) None =>
    if isScalar req then Some (StringValue tok) else None
  | Call (DescribeFirewallInput _) (Some (OutDescribeFirewall out)) None =>
    Some (StringValue (OutputUpdateToken out))
  | _ => None
  end.

(** The token the pass holds after the events [evs], having held [tok]
    before them. *)
Fixpoint heldAfter (tok : string) (evs : list Event) : string :=
  match evs with
  | [] => tok
  | ev :: evs' => heldAfter (default tok (returnedToken ev)) evs'
  end.

(** The service hands out fresh tokens: no token it returns was carried
    by a mutation issued until then. [seen] are the tokens carried before
    [evs]. *)
Fixpoint freshFrom (seen : list string) (evs : list Event) : bool :=
  match evs with
  | [] => true
  | ev :: evs' =>
    let seen' := (seen ++ tokensOf [ev])%list in
    match returnedToken ev with
    | Some tok => bool_decide (tok ∉ seen')
    | None => true
    end && freshFrom seen' evs'
  end.

(** An event of a wait: a sleep, or a describe of the firewall. *)
Definition waitEvent (arn : string) (ev : Event) : Prop :=
  match ev with
  | Sleep _ => True
  | Call (DescribeFirewallInput a) _ _ => a = arn
  | _ => False
  end.

(** A describe that found the firewall [arn] in the status READY, holding
    the update token [tok]. *)
Definition readyRead (arn tok : string) (ev : Event) : Prop :=
  ∃ fw fs t,
    ev = Call (DescribeFirewallInput arn)
              (Some (OutDescribeFirewall
                       {| OutputFirewall := Some fw;
                          OutputFirewallStatus := Some fs;
                          OutputUpdateToken := t |}))
              None
    ∧ StringValue (Status fs) = FirewallStatusValueReady
    ∧ StringValue t = tok.

(** No field of the resource reports a change. *)
Definition noChange (d : ResourceData) : Prop :=
  HasChange delete_protection d = false
  ∧ HasChange description d = false
  ∧ HasChange encryption_configuration d = false
  ∧ HasChange firewall_policy_change_protection d = false
  ∧ HasChange firewall_policy_arn d = false
  ∧ HasChange subnet_change_protection d = false
  ∧ HasChangeSet subnet_mapping d = false.

(** The removal error the update pass lets pass. *)
Definition inaccessible (err : error) : bool :=
  ErrMessageContains (Some err) ErrCodeInvalidRequestException "inaccessible".

(** ** Runs *)

(** The computation [c], started in [st], yields [a], ends in [st'] and
    adds the events [evs] to the trace. *)
Definition runs {A} (c : M A) (st : St) (evs : list Event) (a : A) (st' : St) : Prop :=
  c st = (a, st') ∧ trace st' = (trace st ++ evs)%list.

(** A scalar block of the update: whether its field changed, the input it
    sends with the token it is given, and the format of its error. *)
Record Stage : Type := mkStage {
  changed : bool;
  input : string -> Request;
  format : string
}.

(** The shape the six scalar blocks share. *)
Definition block (d : ResourceData) (s : Stage) (updateToken : string)
  : M (Flow string) :=
  if changed s then
    r ← call (input s updateToken);
    carryToken r (format s) d
  else mret (Next updateToken).

(** Blocks in a row, then the rest [k] of the function. *)
Fixpoint runStages {B} (d : ResourceData) (ss : list Stage) (updateToken : string)
    (k : string -> M (Flow B)) : M (Flow B) :=
  match ss with
  | [] => k updateToken
  | s :: ss' => andThen (block d s updateToken) (fun tok => runStages d ss' tok k)
  end.

(** The six scalar blocks of [resourceFirewallUpdate]. *)
Definition scalarStages (d : ResourceData) : list Stage :=
  [ {| changed := HasChange delete_protection d;
       input := UpdateFirewallDeleteProtectionInput (Get delete_protection d) (Id d);
       format := "updating NetworkFirewall Firewall (%s) delete protection: %s" |};
    {| changed := HasChange description d;
       input := UpdateFirewallDescriptionInput (Get description d) (Id d);
       format := "updating NetworkFirewall Firewall (%s) description: %s" |};
    {| changed := HasChange encryption_configuration d;
       input := UpdateFirewallEncryptionConfigurationInput
                  (expandEncryptionConfiguration (Get encryption_configuration d))
                  (Id d);
       format := "updating NetworkFirewall Firewall (%s) encryption configuration: %s" |};
    {| changed := HasChange firewall_policy_change_protection d;
       input := UpdateFirewallPolicyChangeProtectionInput
                  (Id d) (Get firewall_policy_change_protection d);
       format := "updating NetworkFirewall Firewall (%s) firewall policy change protection: %s" |};
    {| changed := HasChange firewall_policy_arn d;
       input := AssociateFirewallPolicyInput (Id d) (Get firewall_policy_arn d);
       format := "updating NetworkFirewall Firewall (%s) firewall policy ARN: %s" |};
    {| changed := HasChange subnet_change_protection d;
       input := UpdateSubnetChangeProtectionInput
                  (Id d) (Get subnet_change_protection d);
       format := "updating NetworkFirewall Firewall (%s) subnet change protection: %s" |} ].

(** The diagnostics of a failed call. *)
Definition failure (fmt : string) (d : ResourceData) (err : error) : list Diagnostic :=
  AppendErrorf [] fmt [ArgString (Id d); ArgError err].

(** What the scalar blocks [ss], entered with the token [tok], can do: the
    events, and how the row of blocks ends. *)
Inductive scalarRun (d : ResourceData)
  : list Stage -> string -> list Event -> Flow string -> Prop :=
| scalarRun_nil tok :
    scalarRun d [] tok [] (Next tok)
| scalarRun_skip s ss tok evs r :
    changed s = false ->
    scalarRun d ss tok evs r ->
    scalarRun d (s :: ss) tok evs r
| scalarRun_ok s ss tok t evs r :
    changed s = true ->
    scalarRun d ss (StringValue t) evs r ->
    scalarRun d (s :: ss) tok
      (Call (input s tok) (Some (OutUpdate t)) None :: evs) r
| scalarRun_fail s ss tok o err :
    changed s = true ->
    scalarRun d (s :: ss) tok
      [Call (input s tok) o (Some err)] (Return (failure (format s) d err))
| scalarRun_panic s ss tok o :
    changed s = true ->
    (∀ t, o ≠ Some (OutUpdate t)) ->
    scalarRun d (s :: ss) tok [Call (input s tok) o None] Panic.

(** What a wait for the update can do: its events and what it returns. *)
Definition waitRun (d : ResourceData) (evs : list Event)
    (r : string * option error) : Prop :=
  ∃ st st', runs (waitFirewallUpdated (TimeoutUpdate d) (Id d)) st evs r st'.

(** What the association of [add] can do. *)
Inductive associateRun (d : ResourceData) (add : list SubnetMapping) (tok : string)
  : list Event -> Flow string -> Prop :=
| associateRun_none :
    add = [] ->
    associateRun d add tok [] (Next tok)
| associateRun_fail o err :
    add ≠ [] ->
    associateRun d add tok
      [Call (AssociateSubnetsInput (Id d) add tok) o (Some err)]
      (Return (failure "associating NetworkFirewall Firewall (%s) subnets: %s" d err))
| associateRun_wait_fail o wevs t err :
    add ≠ [] ->
    waitRun d wevs (t, Some err) ->
    associateRun d add tok
      (Call (AssociateSubnetsInput (Id d) add tok) o None :: wevs)
      (Return (failure "waiting for NetworkFirewall Firewall (%s) update: %s" d err))
| associateRun_ok o wevs t :
    add ≠ [] ->
    waitRun d wevs (t, None) ->
    associateRun d add tok
      (Call (AssociateSubnetsInput (Id d) add tok) o None :: wevs)
      (Next t).

(** What the disassociation of [rem] can do. *)
Inductive disassociateRun (d : ResourceData) (rem : list string) (tok : string)
  : list Event -> Flow unit -> Prop :=
| disassociateRun_none :
    rem = [] ->
    disassociateRun d rem tok [] (Next tt)
| disassociateRun_fail o err :
    rem ≠ [] ->
    inaccessible err = false ->
    disassociateRun d rem tok
      [Call (DisassociateSubnetsInput (Id d) rem tok) o (Some err)]
      (Return (failure "disassociating NetworkFirewall Firewall (%s) subnets: %s" d err))
| disassociateRun_inaccessible o err :
    rem ≠ [] ->
    inaccessible err = true ->
    disassociateRun d rem tok
      [Call (DisassociateSubnetsInput (Id d) rem tok) o (Some err)]
      (Next tt)
| disassociateRun_wait_fail o wevs t err :
    rem ≠ [] ->
    waitRun d wevs (t, Some err) ->
    disassociateRun d rem tok
      (Call (DisassociateSubnetsInput (Id d) rem tok) o None :: wevs)
      (Return (failure "waiting for NetworkFirewall Firewall (%s) update: %s" d err))
| disassociateRun_ok o wevs t :
    rem ≠ [] ->
    waitRun d wevs (t, None) ->
    disassociateRun d rem tok
      (Call (DisassociateSubnetsInput (Id d) rem tok) o None :: wevs)
      (Next tt).

(** What the block of the subnet mappings can do. *)
Inductive subnetRun (d : ResourceData) (tok : string)
  : list Event -> Flow unit -> Prop :=
| subnetRun_unchanged :
    HasChangeSet subnet_mapping d = false ->
    subnetRun d tok [] (Next tt)
| subnetRun_panic :
    HasChangeSet subnet_mapping d = true ->
    subnetMappingsDiff (subnet_mapping (state d)) (subnet_mapping (plan d)) = None ->
    subnetRun d tok [] Panic
| subnetRun_stop rem add evs diags :
    HasChangeSet subnet_mapping d = true ->
    subnetMappingsDiff (subnet_mapping (state d)) (subnet_mapping (plan d))
      = Some (rem, add) ->
    associateRun d add tok evs (Return diags) ->
    subnetRun d tok evs (Return diags)
| subnetRun_both rem add evs1 tok' evs2 r :
    HasChangeSet subnet_mapping d = true ->
    subnetMappingsDiff (subnet_mapping (state d)) (subnet_mapping (plan d))
      = Some (rem, add) ->
    associateRun d add tok evs1 (Next tok') ->
    disassociateRun d rem tok' evs2 r ->
    subnetRun d tok (evs1 ++ evs2)%list r.

(** What the final read can do. *)
Definition readRun (d : ResourceData) (evs : list Event)
    (r : list Diagnostic * ResourceData) : Prop :=
  ∃ st st', runs (resourceFirewallRead d) st evs r st'.

(** What an update pass can do: the events, and what the function
    returns. *)
Inductive updateRun (d : ResourceData)
  : list Event -> option (list Diagnostic * ResourceData) -> Prop :=
| updateRun_scalar_stop evs diags :
    scalarRun d (scalarStages d) (Get update_token d) evs (Return diags) ->
    updateRun d evs (Some (diags, d))
| updateRun_scalar_panic evs :
    scalarRun d (scalarStages d) (Get update_token d) evs Panic ->
    updateRun d evs None
| updateRun_subnet_stop evs1 tok evs2 diags :
    scalarRun d (scalarStages d) (Get update_token d) evs1 (Next tok) ->
    subnetRun d tok evs2 (Return diags) ->
    updateRun d (evs1 ++ evs2)%list (Some (diags, d))
| updateRun_subnet_panic evs1 tok evs2 :
    scalarRun d (scalarStages d) (Get update_token d) evs1 (Next tok) ->
    subnetRun d tok evs2 Panic ->
    updateRun d (evs1 ++ evs2)%list None
| updateRun_read evs1 tok evs2 evs3 r :
    scalarRun d (scalarStages d) (Get update_token d) evs1 (Next tok) ->
    subnetRun d tok evs2 (Next tt) ->
    readRun d evs3 r ->
    updateRun d (evs1 ++ evs2 ++ evs3)%list (Some r).

(** One mutation comes before another in the order of the update pass. *)
Definition rankLt (a b : Request) : Prop := (rank a < rank b)%nat.

(** The stages [ss] take the places after [n] among the scalar mutations,
    and each sends the token it is given. *)
Fixpoint rankedFrom (n : nat) (ss : list Stage) : Prop :=
  match ss with
  | [] => True
  | s :: ss' =>
    (∀ tok, rank (input s tok) = S n ∧ tokenOf (input s tok) = Some tok)
    ∧ (S n < 7)%nat
    ∧ rankedFrom (S n) ss'
  end.

(** What the differ makes of the change of the subnet mappings. *)
Definition subnetChanges (d : ResourceData)
  : option (list string * list SubnetMapping) :=
  subnetMappingsDiff (subnet_mapping (state d)) (subnet_mapping (plan d)).

(** Every mutation of [evs] carries the token held when it is issued,
    [tok] being held before [evs]. *)
Definition carriesHeld (tok : string) (evs : list Event) : Prop :=
  ∀ pre ev post req,
    evs = (pre ++ ev :: post)%list → mutationOf ev = Some req →
    tokenOf req = Some (heldAfter tok pre).

(** ** Predicates on the events of the waits and on the tokens *)

(** The describe by which a wait read the firewall [out]. *)
Definition describeOf (arn : string) (out : FoundFirewall) : Event :=
  Call (DescribeFirewallInput arn)
       (Some (OutDescribeFirewall
                {| OutputFirewall := Some (FoundFirewall_Firewall out);
                   OutputFirewallStatus := Some (FoundFirewall_FirewallStatus out);
                   OutputUpdateToken := FoundFirewall_UpdateToken out |}))
       None.

(** What the result of a wait says of its events: a snapshot comes
    without error, in a target status, from the last event; absence
    without error comes only when no target status is asked for. *)
Definition pollResult (arn : string) (conf : StateChangeConf)
    (evs : list Event) (r : option FoundFirewall * option error) : Prop :=
  match r with
  | (Some out, err) =>
    err = None
    ∧ StringValue (Status (FoundFirewall_FirewallStatus out)) ∈ Target conf
    ∧ ∃ evs0, evs = (evs0 ++ [describeOf arn out])%list
  | (None, None) => Target conf = []
  | (None, Some _) => True
  end.

(** A wait that did not sleep first: its first event, if any, is a poll. *)
Definition startsWithPoll (evs : list Event) : Prop :=
  match evs with
  | Sleep _ :: _ => False
  | _ => True
  end.

(** With no target status asked for, a describe answered with
    ResourceNotFoundException is the last event of the wait, which ends
    without a snapshot and without error. *)
Definition absentEnds (arn : string) (conf : StateChangeConf)
    (evs : list Event) (r : option FoundFirewall * option error) : Prop :=
  Target conf = [] →
  ∀ pre o e post,
    evs = (pre ++ Call (DescribeFirewallInput arn) o e :: post)%list →
    ErrCodeEquals e ErrCodeResourceNotFoundException = true →
    post = [] ∧ r = (None, None).

(** What the part of a pass that held [tok] on entry keeps: no token is
    carried twice, and the token held on leaving was not carried yet. *)
Definition keepsFresh (tok : string) (evs : list Event) (held : option string) : Prop :=
  ∀ seen, NoDup seen → tok ∉ seen → freshFrom seen evs = true →
    NoDup (seen ++ tokensOf evs)
    ∧ (∀ tok', held = Some tok' → tok' ∉ (seen ++ tokensOf evs)%list).


(** ** What the calls of an update pass are *)

(** The mutation [req] is one that the change of a field of [d] asks for:
    the field reports a change, and the mutation carries the identifier
    of the resource and the planned value of the field; for the subnet
    mappings, what the differ makes of the change. *)
Definition justified (d : ResourceData) (req : Request) : Prop :=
  match req with
  | UpdateFirewallDeleteProtectionInput b a _ =>
    HasChange delete_protection d = true
    ∧ b = Get delete_protection d ∧ a = Id d
  | UpdateFirewallDescriptionInput desc a _ =>
    HasChange description d = true
    ∧ desc = Get description d ∧ a = Id d
  | UpdateFirewallEncryptionConfigurationInput cfg a _ =>
    HasChange encryption_configuration d = true
    ∧ cfg = expandEncryptionConfiguration (Get encryption_configuration d)
    ∧ a = Id d
  | UpdateFirewallPolicyChangeProtectionInput a b _ =>
    HasChange firewall_policy_change_protection d = true
    ∧ b = Get firewall_policy_change_protection d ∧ a = Id d
  | AssociateFirewallPolicyInput a p _ =>
    HasChange firewall_policy_arn d = true
    ∧ p = Get firewall_policy_arn d ∧ a = Id d
  | UpdateSubnetChangeProtectionInput a b _ =>
    HasChange subnet_change_protection d = true
    ∧ b = Get subnet_change_protection d ∧ a = Id d
  | AssociateSubnetsInput a add _ =>
    HasChangeSet subnet_mapping d = true ∧ a = Id d ∧ add ≠ []
    ∧ ∃ rem, subnetChanges d = Some (rem, add)
  | DisassociateSubnetsInput a rem _ =>
    HasChangeSet subnet_mapping d = true ∧ a = Id d ∧ rem ≠ []
    ∧ ∃ add, subnetChanges d = Some (rem, add)
  | _ => False
  end.

(** An event of an update pass of [d]: a sleep, a describe of the
    firewall of the resource, or a mutation that a change asks for. *)
Definition ownEvent (d : ResourceData) (ev : Event) : Prop :=
  match ev with
  | Sleep _ => True
  | Call req _ _ => req = DescribeFirewallInput (Id d) ∨ justified d req
  end.

(** * Theorems *)


(** ** Facts about [schema.Set] *)

Lemma hash_codeOf s x : hash s x = codeOf (F s) x.
Proof. reflexivity. Qed.

Lemma F_add s x : F (add s x) = F s.
Proof. unfold add. by destruct (m s !! hash s x). Qed.

Lemma F_fold_add l s : F (fold_left add l s) = F s.
Proof.
  revert s. induction l as [|x l IH]; intros s; simpl; [done|].
  by rewrite IH, F_add.
Qed.

Lemma m_add s x :
  m (add s x) = m s ∪ {[ codeOf (F s) x := x ]}.
Proof.
  unfold add. rewrite hash_codeOf.
  destruct (m s !! codeOf (F s) x) as [y|] eqn:E; simpl.
  - apply map_eq. intros k. rewrite lookup_union.
    destruct (decide (k = codeOf (F s) x)) as [->|Hne].
    + rewrite E, lookup_singleton_eq. done.
    + rewrite lookup_singleton_ne by done. by destruct (m s !! k).
  - rewrite insert_union_singleton_r by done. done.
Qed.

Lemma m_fold_add l s :
  m (fold_left add l s)
  = m s ∪ list_to_map ((fun x => (codeOf (F s) x, x)) <$> l).
Proof.
  revert s. induction l as [|x l IH]; intros s; simpl.
  - by rewrite (right_id_L ∅ (∪)).
  - rewrite IH, F_add, m_add, <- (assoc_L (∪)).
    f_equal. by rewrite insert_union_singleton_l.
Qed.

Lemma m_NewSet f l :
  m (NewSet f l) = list_to_map ((fun x => (codeOf f x, x)) <$> l).
Proof. unfold NewSet. rewrite m_fold_add. simpl. by rewrite (left_id_L ∅ (∪)). Qed.

Lemma F_NewSet f l : F (NewSet f l) = f.
Proof. unfold NewSet. by rewrite F_fold_add. Qed.

Lemma List_Permutation s : List s ≡ₚ (map_to_list (m s)).*2.
Proof.
  unfold List, listCode. rewrite merge_sort_Permutation.
  assert (H : ∀ l : list (string * tfItem),
    (∀ kv, kv ∈ l → m s !! kv.1 = Some kv.2) →
    omap (fun k => m s !! k) l.*1 = l.*2).
  { induction l as [|kv l IH]; intros Hl; simpl; [done|].
    rewrite (Hl kv) by left. f_equal. apply IH. intros ??. apply Hl. by right. }
  rewrite H; [done|]. intros [k v] Hkv. by apply elem_of_map_to_list.
Qed.


Lemma collision_free_inj f l x y :
  collision_free f l → x ∈ l → y ∈ l → codeOf f x = codeOf f y → x = y.
Proof.
  unfold collision_free. rewrite Forall_forall. intros H Hx Hy.
  specialize (H x Hx). rewrite Forall_forall in H. by apply H.
Qed.

Lemma collision_free_subseteq f l k :
  k ⊆ l → collision_free f l → collision_free f k.
Proof.
  intros Hk H. unfold collision_free. rewrite Forall_forall. intros x Hx.
  rewrite Forall_forall. intros y Hy.
  apply (collision_free_inj f l); auto.
Qed.

Lemma lookup_NewSet f l k v :
  m (NewSet f l) !! k = Some v → v ∈ l ∧ codeOf f v = k.
Proof.
  rewrite m_NewSet. intros H%elem_of_list_to_map_2.
  apply list_elem_of_fmap in H as (x & [= -> ->] & Hx). done.
Qed.

Lemma lookup_NewSet_elem f l x :
  x ∈ l → is_Some (m (NewSet f l) !! codeOf f x).
Proof.
  intros Hx. rewrite m_NewSet.
  destruct (list_to_map _ !! codeOf f x) eqn:E; [done|].
  apply not_elem_of_list_to_map_2 in E. exfalso. apply E.
  rewrite <- list_fmap_compose. apply list_elem_of_fmap. by exists x.
Qed.

Lemma List_NewSet f l :
  NoDup l → collision_free f l → List (NewSet f l) ≡ₚ l.
Proof.
  intros Hnd Hcf. rewrite List_Permutation, m_NewSet.
  rewrite map_to_list_to_map.
  - rewrite <- list_fmap_compose. simpl. by rewrite list_fmap_id.
  - rewrite <- list_fmap_compose. simpl.
    apply NoDup_fmap_2_strong; [|done].
    intros x y Hx Hy. by apply (collision_free_inj f l).
Qed.

Lemma List_empty s : Len s = 0%nat → List s = [].
Proof.
  unfold Len. intros H%map_size_empty_inv.
  apply Permutation_nil_r. rewrite List_Permutation, H.
  by rewrite map_to_list_empty.
Qed.



(** ** Facts about the expanders *)

Lemma mapping_inj : Inj (=) (=) mapping.
Proof.
  intros [i1 t1] [i2 t2] H. unfold mapping in H. cbn [fst snd] in H.
  assert (∀ m1 m2, TfMap m1 = TfMap m2 → m1 = m2) as Hinj by congruence.
  apply Hinj in H. clear Hinj.
  assert (H1 := f_equal (fun m : gmap string tfValue => m !! AttrSubnetID) H).
  assert (H2 := f_equal (fun m : gmap string tfValue => m !! "ip_address_type") H).
  simpl in H1, H2.
  rewrite !lookup_insert_eq in H1.
  rewrite !(lookup_insert_ne _ AttrSubnetID) in H2 by done.
  rewrite !lookup_insert_eq in H2.
  congruence.
Qed.

Lemma mapping_subnet_id p :
  match mapping p with
  | TfMap tfMap => asString (tfMap !! AttrSubnetID) = Some p.1
  | _ => False
  end.
Proof. unfold mapping. by rewrite lookup_insert_eq. Qed.

Lemma mapping_ip_address_type p :
  match mapping p with
  | TfMap tfMap => asString (tfMap !! "ip_address_type") = Some p.2
  | _ => False
  end.
Proof.
  unfold mapping. rewrite lookup_insert_ne by done. by rewrite lookup_insert_eq.
Qed.

Lemma expandSubnetMappings_mapping ps :
  expandSubnetMappings (mapping <$> ps) = Some (expandOne <$> ps).
Proof.
  induction ps as [|p ps IH]; [done|].
  rewrite !fmap_cons.
  pose proof (mapping_subnet_id p) as H1.
  pose proof (mapping_ip_address_type p) as H2.
  cbn [expandSubnetMappings].
  destruct (mapping p) as [tfMap|]; [|done].
  rewrite H1, H2, IH. simpl. unfold expandOne.
  by destruct (bool_decide (p.2 ≠ "")).
Qed.

Lemma expandSubnetMappingIDs_mapping ps :
  Forall (fun p => p.1 ≠ "") ps →
  expandSubnetMappingIDs (mapping <$> ps) = ps.*1.
Proof.
  induction 1 as [|p ps Hp _ IH]; [done|].
  rewrite !fmap_cons.
  pose proof (mapping_subnet_id p) as H1.
  cbn [expandSubnetMappingIDs].
  destruct (mapping p) as [tfMap|]; [|done].
  rewrite H1, IH. by rewrite bool_decide_eq_true_2.
Qed.


(** ** The differ on collections with disjoint identity keys *)

Lemma Permutation_mapping l ps :
  l ≡ₚ mapping <$> ps → ∃ ps', l = mapping <$> ps' ∧ ps' ≡ₚ ps.
Proof.
  intros H. destruct (Permutation_map_inv _ _ H) as (ps' & -> & Hp).
  exists ps'. split; [done|]. by symmetry.
Qed.


Lemma List_NewSet_mapping f (qs ps : list (string * string)) :
  NoDup ps → ps ⊆ qs → collision_free f (mapping <$> qs) →
  ∃ ps', List (NewSet f (mapping <$> ps)) = mapping <$> ps' ∧ ps' ≡ₚ ps.
Proof.
  intros Hnd Hsub Hcf. apply Permutation_mapping, List_NewSet.
  - by apply (@NoDup_fmap_2 _ _ mapping mapping_inj).
  - apply (collision_free_subseteq f (mapping <$> qs)); [|done].
    intros x (p & -> & Hp)%list_elem_of_fmap. by apply list_elem_of_fmap_2, Hsub.
Qed.


(** ** The differ on a single element whose mutable field changed *)






(** ** Runs of the computations *)

Lemma runs_ret {A} (a : A) st : runs (mret a) st [] a st.
Proof. split; [done|]. by rewrite app_nil_r. Qed.

Lemma runs_bind {A B} (c : M A) (k : A → M B) st evs1 a st1 evs2 b st2 :
  runs c st evs1 a st1 → runs (k a) st1 evs2 b st2 →
  runs (c ≫= k) st (evs1 ++ evs2) b st2.
Proof.
  intros [Hc Ht1] [Hk Ht2]. split.
  - unfold mbind, M_bind. by rewrite Hc.
  - by rewrite Ht2, Ht1, <- app_assoc.
Qed.

Lemma runs_call req st :
  ∃ o e st', runs (call req) st [Call req o e] (o, e) st'.
Proof.
  unfold runs, call. destruct (invoke req (remote st)) as [[o e] w].
  by eexists o, e, _.
Qed.

Lemma runs_sleep t st : ∃ st', runs (sleep t) st [Sleep t] tt st'.
Proof. by eexists. Qed.

Lemma runs_det {A} (c : M A) st evs1 a1 st1 evs2 a2 st2 :
  runs c st evs1 a1 st1 → runs c st evs2 a2 st2 →
  evs1 = evs2 ∧ a1 = a2 ∧ st1 = st2.
Proof.
  intros [H1 T1] [H2 T2]. rewrite H1 in H2. injection H2 as -> ->.
  rewrite T1 in T2. by apply app_inv_head in T2.
Qed.

(** ** Finding and probing *)

Lemma FindFirewallByARN_runs arn st :
  ∃ o e r st',
    runs (FindFirewallByARN arn) st [Call (DescribeFirewallInput arn) o e] r st'
    ∧ (ErrCodeEquals e ErrCodeResourceNotFoundException = true →
       r = inl (NotFoundError e))
    ∧ (∀ out, r = inr out →
       e = None ∧
       o = Some (OutDescribeFirewall
                   {| OutputFirewall := Some (FoundFirewall_Firewall out);
                      OutputFirewallStatus := Some (FoundFirewall_FirewallStatus out);
                      OutputUpdateToken := FoundFirewall_UpdateToken out |})).
Proof.
  destruct (runs_call (DescribeFirewallInput arn) st) as (o & e & st' & Hc).
  exists o, e.
  unfold FindFirewallByARN.
  destruct (ErrCodeEquals e ErrCodeResourceNotFoundException) eqn:Ec.
  { eexists _, st'. split_and!.
    - rewrite <- (app_nil_r [_]). eapply runs_bind; [exact Hc|].
      simpl. rewrite Ec. apply runs_ret.
    - done.
    - done. }
  destruct e as [err|].
  { eexists _, st'. split_and!.
    - rewrite <- (app_nil_r [_]). eapply runs_bind; [exact Hc|].
      simpl. rewrite Ec. apply runs_ret.
    - done.
    - done. }
  destruct o as [[| [[fw|] [fs|] t] | |]|];
    (eexists _, st'; split_and!;
     [ rewrite <- (app_nil_r [_]); eapply runs_bind; [exact Hc|];
       simpl; try rewrite Ec; apply runs_ret
     | done
     | intros out [= <-] || (intros out [=]); done ]).
Qed.

Lemma statusFirewall_runs arn st :
  ∃ o e r st',
    runs (statusFirewall arn) st [Call (DescribeFirewallInput arn) o e] r st'
    ∧ (ErrCodeEquals e ErrCodeResourceNotFoundException = true →
       r = (None, "", None))
    ∧ (∀ out status err, r = (Some out, status, err) →
       err = None ∧ e = None ∧
       status = StringValue (Status (FoundFirewall_FirewallStatus out)) ∧
       o = Some (OutDescribeFirewall
                   {| OutputFirewall := Some (FoundFirewall_Firewall out);
                      OutputFirewallStatus := Some (FoundFirewall_FirewallStatus out);
                      OutputUpdateToken := FoundFirewall_UpdateToken out |})).
Proof.
  destruct (FindFirewallByARN_runs arn st) as (o & e & r & st' & Hf & Hnf & Hok).
  exists o, e. unfold statusFirewall.
  exists (if NotFound (errOf r) then (None, "", None)
          else match r with
               | inl err => (None, "", Some err)
               | inr output =>
                 (Some output,
                  StringValue (Status (FoundFirewall_FirewallStatus output)), None)
               end), st'.
  split_and!.
  - rewrite <- (app_nil_r [_]). eapply runs_bind; [exact Hf|].
    destruct (NotFound (errOf r)); [apply runs_ret|].
    destruct r; apply runs_ret.
  - intros Ec. rewrite (Hnf Ec). done.
  - intros out status err.
    destruct (NotFound (errOf r)); [done|].
    destruct r as [e'|out']; [done|].
    intros [= <- <- <-]. destruct (Hok out' eq_refl) as [-> ->]. done.
Qed.

(** ** The waits *)

Lemma pollResult_app arn conf pre evs r :
  pollResult arn conf evs r → pollResult arn conf (pre ++ evs) r.
Proof.
  destruct r as [[out|] [err|]]; simpl; try done.
  - intros (? & ? & evs0 & ->). split_and!; [done..|].
    exists (pre ++ evs0)%list. by rewrite app_assoc.
  - intros (? & ? & evs0 & ->). split_and!; [done..|].
    exists (pre ++ evs0)%list. by rewrite app_assoc.
Qed.

Lemma absentEnds_nil arn conf r : absentEnds arn conf [] r.
Proof. intros _ pre o e post Heq. by destruct pre. Qed.

Lemma absentEnds_sleep arn conf t evs r :
  absentEnds arn conf evs r → absentEnds arn conf (Sleep t :: evs) r.
Proof.
  intros H Ht pre o e post Heq Hnf.
  destruct pre as [|ev pre]; [done|]. injection Heq as _ Heq. by eapply H.
Qed.

Lemma absentEnds_found arn conf o e evs r :
  (Target conf = [] → ErrCodeEquals e ErrCodeResourceNotFoundException = true → False) →
  absentEnds arn conf evs r →
  absentEnds arn conf (Call (DescribeFirewallInput arn) o e :: evs) r.
Proof.
  intros Hno H Ht pre o' e' post Heq Hnf.
  destruct pre as [|ev pre].
  - injection Heq as <- <- _. by destruct (Hno Ht Hnf).
  - injection Heq as _ Heq. by eapply H.
Qed.

Lemma absentEnds_last arn conf o e r :
  (Target conf = [] → ErrCodeEquals e ErrCodeResourceNotFoundException = true →
   r = (None, None)) →
  absentEnds arn conf [Call (DescribeFirewallInput arn) o e] r.
Proof.
  intros Hr Ht pre o' e' post Heq Hnf.
  destruct pre as [|ev pre]; [|by destruct pre].
  injection Heq as <- <- <-. split; [done|]. by apply Hr.
Qed.

Lemma pollLoop_runs arn fuel conf elapsed last st :
  Refresh conf = statusFirewall arn →
  ∃ evs r st',
    runs (pollLoop fuel conf elapsed last) st evs r st'
    ∧ Forall (waitEvent arn) evs
    ∧ pollResult arn conf evs r
    ∧ startsWithPoll evs
    ∧ absentEnds arn conf evs r.
Proof.
  intros HR. revert elapsed last st.
  induction fuel as [|fuel IH]; intros elapsed last st.
  { eexists [], _, st.
    split_and!; [apply runs_ret|constructor|done|done|apply absentEnds_nil]. }
  cbn [pollLoop].
  destruct (Timeout conf <? elapsed).
  { eexists [], _, st.
    split_and!; [apply runs_ret|constructor|done|done|apply absentEnds_nil]. }
  rewrite HR.
  destruct (statusFirewall_runs arn st) as (o & e & r & st1 & Hs & Hnf & Hok).
  assert (waitEvent arn (Call (DescribeFirewallInput arn) o e)) as Hw by done.
  assert (∀ last',
            ∃ evs r' st',
              runs (sleep pollInterval ≫= λ _ : (),
                    pollLoop fuel conf (elapsed + pollInterval) last') st1 evs r' st'
              ∧ Forall (waitEvent arn) evs
              ∧ pollResult arn conf evs r'
              ∧ absentEnds arn conf evs r') as Hsleep.
  { intros last'.
    destruct (runs_sleep pollInterval st1) as (st2 & Hsl).
    destruct (IH (elapsed + pollInterval) last' st2)
      as (evs & r' & st' & Hr & Hall & Hres & _ & Habs).
    exists ([Sleep pollInterval] ++ evs)%list, r', st'. split_and!.
    - eapply runs_bind; [exact Hsl|exact Hr].
    - by constructor.
    - by apply pollResult_app.
    - by apply absentEnds_sleep. }
  assert (∀ (c : option FoundFirewall * string * option error
                 → M (option FoundFirewall * option error)) last',
            c r = (sleep pollInterval ≫= λ _ : (),
                   pollLoop fuel conf (elapsed + pollInterval) last') →
            (Target conf = [] →
             ErrCodeEquals e ErrCodeResourceNotFoundException = true → False) →
            ∃ evs r' st',
              runs (statusFirewall arn ≫= c) st evs r' st'
              ∧ Forall (waitEvent arn) evs
              ∧ pollResult arn conf evs r'
              ∧ startsWithPoll evs
              ∧ absentEnds arn conf evs r') as Hgo.
  { intros c last' Hc Hno.
    destruct (Hsleep last') as (evs & r' & st' & Hr & Hall & Hres & Habs).
    exists ([Call (DescribeFirewallInput arn) o e] ++ evs)%list, r', st'.
    split_and!.
    - eapply runs_bind; [exact Hs|]. by rewrite Hc.
    - by constructor.
    - by apply pollResult_app.
    - done.
    - by apply absentEnds_found. }
  assert (∀ (c : option FoundFirewall * string * option error
                 → M (option FoundFirewall * option error)) r',
            c r = mret r' →
            pollResult arn conf [Call (DescribeFirewallInput arn) o e] r' →
            (Target conf = [] →
             ErrCodeEquals e ErrCodeResourceNotFoundException = true →
             r' = (None, None)) →
            ∃ evs r' st',
              runs (statusFirewall arn ≫= c) st evs r' st'
              ∧ Forall (waitEvent arn) evs
              ∧ pollResult arn conf evs r'
              ∧ startsWithPoll evs
              ∧ absentEnds arn conf evs r') as Hend.
  { intros c r' Hc Hres Habs.
    exists [Call (DescribeFirewallInput arn) o e], r', st1. split_and!.
    - rewrite <- (app_nil_r [_]). eapply runs_bind; [exact Hs|].
      rewrite Hc. apply runs_ret.
    - by repeat constructor.
    - done.
    - done.
    - by apply absentEnds_last. }
  destruct r as [[res status] err].
  destruct err as [err|].
  { destruct (classify err) eqn:Ecl;
      [eapply Hgo; [simpl; by rewrite Ecl|by intros _ ?%Hnf]..|].
    eapply Hend; [simpl; by rewrite Ecl|done|by intros _ ?%Hnf]. }
  destruct res as [out|].
  - destruct (Hok out status None eq_refl) as (_ & -> & -> & ->).
    destruct (bool_decide (StringValue (Status (FoundFirewall_FirewallStatus out))
                           ∈ Target conf)) eqn:Et.
    { eapply Hend; [simpl; by rewrite Et| |by intros _ ?%Hnf].
      apply bool_decide_eq_true_1 in Et. split_and!; [done..|]. by exists []. }
    destruct (bool_decide (StringValue (Status (FoundFirewall_FirewallStatus out))
                           ∈ Pending conf)) eqn:Ep.
    + eapply Hgo; [simpl; by rewrite Et, Ep|by intros _ ?%Hnf].
    + eapply Hend; [simpl; by rewrite Et, Ep|done|by intros _ ?%Hnf].
  - destruct (decide (Target conf = [])) as [Et|Et].
    + eapply Hend; [cbv beta iota; by rewrite bool_decide_eq_true_2|done|done].
    + eapply Hgo; [cbv beta iota; by rewrite bool_decide_eq_false_2|done].
Qed.

Lemma WaitForStateContext_runs arn conf st :
  Refresh conf = statusFirewall arn →
  ∃ evs r st',
    runs (WaitForStateContext conf) st evs r st'
    ∧ Forall (waitEvent arn) evs
    ∧ pollResult arn conf evs r
    ∧ (0 < Delay conf → ∃ evs', evs = Sleep (Delay conf) :: evs')
    ∧ (Delay conf = 0 → startsWithPoll evs)
    ∧ absentEnds arn conf evs r.
Proof.
  intros HR. unfold WaitForStateContext.
  destruct (0 <? Delay conf) eqn:Ed.
  - destruct (runs_sleep (Delay conf) st) as (st1 & Hsl).
    destruct (pollLoop_runs arn
                (Z.to_nat (Timeout conf / Z.max 1 pollInterval) + 1)
                conf (Delay conf) "" st1 HR)
      as (evs & r & st' & Hr & Hall & Hres & _ & Habs).
    exists ([Sleep (Delay conf)] ++ evs)%list, r, st'. split_and!.
    + eapply runs_bind; [exact Hsl|exact Hr].
    + by constructor.
    + by apply pollResult_app.
    + intros _. by exists evs.
    + lia.
    + by apply absentEnds_sleep.
  - destruct (pollLoop_runs arn
                (Z.to_nat (Timeout conf / Z.max 1 pollInterval) + 1)
                conf (Delay conf) "" st HR)
      as (evs & r & st' & Hr & Hall & Hres & Hfirst & Habs).
    exists evs, r, st'. split_and!; [|done|done|lia|done|done].
    change evs with ([] ++ evs)%list.
    eapply runs_bind; [apply runs_ret|exact Hr].
Qed.

Lemma waitFirewallUpdated_runs timeout arn st :
  ∃ evs r st',
    runs (waitFirewallUpdated timeout arn) st evs r st'
    ∧ Forall (waitEvent arn) evs
    ∧ (∃ evs', evs = Sleep (30 * Second) :: evs')
    ∧ (r.2 = None →
       ∃ evs0 ev, evs = (evs0 ++ [ev])%list ∧ readyRead arn r.1 ev).
Proof.
  destruct (WaitForStateContext_runs arn (updatedConf timeout arn) st eq_refl)
    as (evs & r & st' & Hr & Hall & Hres & Hdelay & _ & _).
  unfold waitFirewallUpdated.
  exists evs,
    (match r.1 with
     | Some output => (StringValue (FoundFirewall_UpdateToken output), r.2)
     | None => ("", r.2)
     end), st'.
  split_and!.
  - rewrite <- (app_nil_r evs). eapply runs_bind; [exact Hr|].
    destruct r as [[out|] err]; apply runs_ret.
  - done.
  - apply Hdelay. done.
  - destruct r as [[out|] [err|]]; simpl; try done.
    destruct Hres as (_ & Hst & evs0 & ->). intros _.
    exists evs0, (describeOf arn out). split; [done|].
    eexists _, _, _. split_and!; [done| |done].
    simpl in Hst. by apply list_elem_of_singleton in Hst.
Qed.

(** ** The update pass does what its runs say *)

Lemma length_pos_ne {A} (l : list A) : (0 < length l)%nat ↔ l ≠ [].
Proof. destruct l; simpl; split; (done || lia). Qed.

Lemma runStages_sound {B} d ss tok (k : string → M (Flow B)) st :
  ∃ evs r st1,
    scalarRun d ss tok evs r
    ∧ trace st1 = (trace st ++ evs)%list
    ∧ runStages d ss tok k st
      = match r with
        | Next tok' => k tok' st1
        | Return diags => (Return diags, st1)
        | Panic => (Panic, st1)
        end.
Proof.
  revert tok st. induction ss as [|s ss IH]; intros tok st.
  { exists [], (Next tok), st. split_and!; [constructor|by rewrite app_nil_r|done]. }
  cbn [runStages]. unfold andThen, block.
  destruct (changed s) eqn:Ec.
  - destruct (runs_call (input s tok) st) as (o & e & st' & Hc & Ht).
    unfold mbind, M_bind. rewrite Hc. unfold carryToken. cbn [fst snd].
    destruct e as [err|].
    { exists [Call (input s tok) o (Some err)], (Return (failure (format s) d err)), st'.
      split_and!; [by apply scalarRun_fail|done|done]. }
    destruct o as [[fw|out| |t]|];
      try (eexists [_], Panic, st';
           split_and!; [|exact Ht|done];
           apply scalarRun_panic; [done|by intros ?]).
    destruct (IH (StringValue t) st') as (evs & r & st1 & Hrun & Ht1 & Heq).
    exists (Call (input s tok) (Some (OutUpdate t)) None :: evs), r, st1.
    split_and!; [by apply scalarRun_ok| |done].
    rewrite Ht1, Ht, <- app_assoc. done.
  - destruct (IH tok st) as (evs & r & st1 & Hrun & Ht1 & Heq).
    exists evs, r, st1. split_and!; [by apply scalarRun_skip|done|done].
Qed.

Lemma updateMutations_stages d :
  updateMutations d
  = runStages d (scalarStages d) (Get update_token d) (updateSubnetMapping d).
Proof. reflexivity. Qed.

Lemma waitFirewallUpdated_waitRun d st :
  ∃ evs r st',
    runs (waitFirewallUpdated (TimeoutUpdate d) (Id d)) st evs r st'
    ∧ waitRun d evs r.
Proof.
  destruct (waitFirewallUpdated_runs (TimeoutUpdate d) (Id d) st)
    as (evs & r & st' & Hr & _).
  exists evs, r, st'. split; [done|]. by exists st, st'.
Qed.

Lemma associateSubnets_sound d add tok st :
  ∃ evs r st',
    runs (associateSubnets d add tok) st evs r st'
    ∧ associateRun d add tok evs r.
Proof.
  unfold associateSubnets. case_bool_decide as Hlen.
  2:{ exists [], (Next tok), st. split; [apply runs_ret|].
      constructor. destruct add; [done|]. simpl in Hlen. lia. }
  apply length_pos_ne in Hlen.
  destruct (runs_call (AssociateSubnetsInput (Id d) add tok) st)
    as (o & e & st1 & Hc).
  destruct e as [err|].
  { eexists [_], _, st1. split; [|by apply associateRun_fail].
    rewrite <- (app_nil_r [_]). eapply runs_bind; [exact Hc|]. apply runs_ret. }
  destruct (waitFirewallUpdated_waitRun d st1) as (wevs & [t werr] & st2 & Hw & Hwr).
  destruct werr as [err|].
  - eexists (_ :: wevs), _, st2.
    split; [|by eapply associateRun_wait_fail].
    change (?x :: wevs) with ([x] ++ wevs)%list.
    eapply runs_bind; [exact Hc|]. cbv beta iota.
    rewrite <- (app_nil_r wevs). eapply runs_bind; [exact Hw|]. apply runs_ret.
  - eexists (_ :: wevs), _, st2.
    split; [|by eapply associateRun_ok].
    change (?x :: wevs) with ([x] ++ wevs)%list.
    eapply runs_bind; [exact Hc|]. cbv beta iota.
    rewrite <- (app_nil_r wevs). eapply runs_bind; [exact Hw|]. apply runs_ret.
Qed.

Lemma disassociateSubnets_sound d rem tok st :
  ∃ evs r st',
    runs (disassociateSubnets d rem tok) st evs r st'
    ∧ disassociateRun d rem tok evs r.
Proof.
  unfold disassociateSubnets. case_bool_decide as Hlen.
  2:{ exists [], (Next tt), st. split; [apply runs_ret|].
      constructor. destruct rem; [done|]. simpl in Hlen. lia. }
  apply length_pos_ne in Hlen.
  destruct (runs_call (DisassociateSubnetsInput (Id d) rem tok) st)
    as (o & e & st1 & Hc).
  destruct e as [err|].
  { destruct (inaccessible err) eqn:Ei.
    - eexists [_], _, st1. split; [|by apply disassociateRun_inaccessible].
      rewrite <- (app_nil_r [_]). eapply runs_bind; [exact Hc|].
      cbv beta iota. fold (inaccessible err). rewrite Ei. apply runs_ret.
    - eexists [_], _, st1. split; [|by apply disassociateRun_fail].
      rewrite <- (app_nil_r [_]). eapply runs_bind; [exact Hc|].
      cbv beta iota. fold (inaccessible err). rewrite Ei. apply runs_ret. }
  destruct (waitFirewallUpdated_waitRun d st1) as (wevs & [t werr] & st2 & Hw & Hwr).
  destruct werr as [err|].
  - eexists (_ :: wevs), _, st2.
    split; [|by eapply disassociateRun_wait_fail].
    change (?x :: wevs) with ([x] ++ wevs)%list.
    eapply runs_bind; [exact Hc|]. cbv beta iota.
    rewrite <- (app_nil_r wevs). eapply runs_bind; [exact Hw|]. apply runs_ret.
  - eexists (_ :: wevs), _, st2.
    split; [|by eapply disassociateRun_ok].
    change (?x :: wevs) with ([x] ++ wevs)%list.
    eapply runs_bind; [exact Hc|]. cbv beta iota.
    rewrite <- (app_nil_r wevs). eapply runs_bind; [exact Hw|]. apply runs_ret.
Qed.

Lemma updateSubnetMapping_sound d tok st :
  ∃ evs r st',
    runs (updateSubnetMapping d tok) st evs r st'
    ∧ subnetRun d tok evs r.
Proof.
  unfold updateSubnetMapping.
  destruct (HasChangeSet subnet_mapping d) eqn:Ec.
  2:{ exists [], (Next tt), st. split; [apply runs_ret|by constructor]. }
  unfold GetChange.
  destruct (subnetMappingsDiff (subnet_mapping (state d)) (subnet_mapping (plan d)))
    as [[rem add]|] eqn:Ed.
  2:{ exists [], Panic, st. split; [apply runs_ret|by constructor]. }
  destruct (associateSubnets_sound d add tok st) as (evs1 & r1 & st1 & Ha & Har).
  unfold andThen.
  destruct r1 as [tok'|diags|].
  - destruct (disassociateSubnets_sound d rem tok' st1)
      as (evs2 & r2 & st2 & Hd & Hdr).
    exists (evs1 ++ evs2)%list, r2, st2. split.
    + eapply runs_bind; [exact Ha|exact Hd].
    + by eapply subnetRun_both.
  - exists evs1, (Return diags), st1. split.
    + rewrite <- (app_nil_r evs1). eapply runs_bind; [exact Ha|apply runs_ret].
    + by eapply subnetRun_stop.
  - exfalso. inversion Har.
Qed.

Lemma resourceFirewallRead_runs d st :
  ∃ o e r st',
    runs (resourceFirewallRead d) st [Call (DescribeFirewallInput (Id d)) o e] r st'.
Proof.
  destruct (FindFirewallByARN_runs (Id d) st) as (o & e & r & st' & Hf & _).
  exists o, e. unfold resourceFirewallRead.
  destruct (negb (IsNewResource d) && NotFound (errOf r)) eqn:En;
    [|destruct r];
    (eexists _, st'; rewrite <- (app_nil_r [_]);
     eapply runs_bind; [exact Hf|]; cbv beta iota; rewrite En; apply runs_ret).
Qed.

Lemma resourceFirewallUpdate_sound d st :
  ∃ evs r st',
    runs (resourceFirewallUpdate d) st evs r st' ∧ updateRun d evs r.
Proof.
  unfold resourceFirewallUpdate. rewrite updateMutations_stages.
  destruct (runStages_sound d (scalarStages d) (Get update_token d)
              (updateSubnetMapping d) st) as (evs1 & r1 & st1 & Hs & Ht1 & Heq).
  destruct r1 as [tok|diags|].
  - destruct (updateSubnetMapping_sound d tok st1)
      as (evs2 & r2 & st2 & [Hu Ht2] & Hsr).
    rewrite Hu in Heq.
    destruct r2 as [[]|diags|].
    + destruct (resourceFirewallRead_runs d st2) as (o & e & r & st3 & Hr).
      exists (evs1 ++ evs2 ++ [Call (DescribeFirewallInput (Id d)) o e])%list,
        (Some r), st3.
      split.
      * split.
        -- unfold mbind, M_bind. rewrite Heq. destruct Hr as [-> _]. done.
        -- destruct Hr as [_ ->]. rewrite Ht2, Ht1. by rewrite <- !app_assoc.
      * eapply updateRun_read; [done..|]. by exists st2, st3.
    + exists (evs1 ++ evs2)%list, (Some (diags, d)), st2. split.
      * split; [unfold mbind, M_bind; by rewrite Heq|].
        rewrite Ht2, Ht1. by rewrite <- app_assoc.
      * by eapply updateRun_subnet_stop.
    + exists (evs1 ++ evs2)%list, None, st2. split.
      * split; [unfold mbind, M_bind; by rewrite Heq|].
        rewrite Ht2, Ht1. by rewrite <- app_assoc.
      * by eapply updateRun_subnet_panic.
  - exists evs1, (Some (diags, d)), st1. split.
    + split; [unfold mbind, M_bind; by rewrite Heq|done].
    + by constructor.
  - exists evs1, None, st1. split.
    + split; [unfold mbind, M_bind; by rewrite Heq|done].
    + by constructor.
Qed.

(** ** The mutations of a trace *)

Lemma app_cons_split {A} (l1 l2 pre post : list A) x :
  (l1 ++ l2 = pre ++ x :: post)%list →
  (∃ post1, l1 = (pre ++ x :: post1)%list ∧ post = (post1 ++ l2)%list)
  ∨ (∃ pre2, l2 = (pre2 ++ x :: post)%list ∧ pre = (l1 ++ pre2)%list).
Proof.
  intros H. apply app_eq_app in H. destruct H as [l [[H1 H2]|[H1 H2]]].
  - subst l1. destruct l as [|y l].
    + right. exists []. simpl in H2. subst l2. by rewrite !app_nil_r.
    + left. injection H2 as <- ->. by exists l.
  - subst pre. right. by exists l.
Qed.

Lemma mutationsOf_app evs1 evs2 :
  mutationsOf (evs1 ++ evs2) = (mutationsOf evs1 ++ mutationsOf evs2)%list.
Proof. apply omap_app. Qed.

Lemma tokensOf_app evs1 evs2 :
  tokensOf (evs1 ++ evs2) = (tokensOf evs1 ++ tokensOf evs2)%list.
Proof. unfold tokensOf. rewrite mutationsOf_app. apply omap_app. Qed.

Lemma waitEvent_mutationOf arn ev : waitEvent arn ev → mutationOf ev = None.
Proof. by destruct ev as [[] ? ?|]. Qed.

Lemma mutationsOf_wait arn evs :
  Forall (waitEvent arn) evs → mutationsOf evs = [].
Proof.
  induction 1 as [|ev evs Hev _ IH]; [done|].
  unfold mutationsOf in *. simpl.
  by rewrite (waitEvent_mutationOf arn ev Hev).
Qed.

Lemma waitRun_inv d wevs r :
  waitRun d wevs r →
  Forall (waitEvent (Id d)) wevs
  ∧ (∃ evs', wevs = Sleep (30 * Second) :: evs')
  ∧ (r.2 = None →
     ∃ evs0 ev, wevs = (evs0 ++ [ev])%list ∧ readyRead (Id d) r.1 ev).
Proof.
  intros (st & st' & Hr).
  destruct (waitFirewallUpdated_runs (TimeoutUpdate d) (Id d) st)
    as (evs & r' & st'' & Hr' & H).
  by destruct (runs_det _ _ _ _ _ _ _ _ Hr Hr') as (-> & -> & ->).
Qed.

Lemma readRun_inv d evs r :
  readRun d evs r → ∃ o e, evs = [Call (DescribeFirewallInput (Id d)) o e].
Proof.
  intros (st & st' & Hr).
  destruct (resourceFirewallRead_runs d st) as (o & e & r' & st'' & Hr').
  destruct (runs_det _ _ _ _ _ _ _ _ Hr Hr') as (-> & _).
  by exists o, e.
Qed.

Lemma scalarStages_ranked d : rankedFrom 0 (scalarStages d).
Proof. simpl. repeat split; lia. Qed.

Lemma rankedFrom_elem n ss s :
  rankedFrom n ss → s ∈ ss →
  ∀ tok, (n < rank (input s tok) < 7)%nat ∧ tokenOf (input s tok) = Some tok.
Proof.
  revert n. induction ss as [|s0 ss IH]; intros n Hr Hs tok; [by inv Hs|].
  destruct Hr as (H0 & Hlt & Hr).
  apply elem_of_cons in Hs as [->|Hs].
  - destruct (H0 tok) as [-> ->]. split; [lia|done].
  - destruct (IH (S n) Hr Hs tok) as [? ?]. split; [lia|done].
Qed.

Lemma mutationsOf_cons_mutation req o e evs :
  isMutation req = true →
  mutationsOf (Call req o e :: evs) = req :: mutationsOf evs.
Proof. intros H. unfold mutationsOf. simpl. by rewrite H. Qed.

Lemma rank_isMutation req n : rank req = S n → isMutation req = true.
Proof. intros H. unfold isMutation. apply bool_decide_eq_true_2. lia. Qed.

Lemma scalarRun_mutations d ss tok evs r n :
  rankedFrom n ss → scalarRun d ss tok evs r →
  StronglySorted rankLt (mutationsOf evs)
  ∧ Forall (λ q, n < rank q < 7)%nat (mutationsOf evs).
Proof.
  intros Hr Hrun. revert n Hr.
  induction Hrun as [tok|s ss tok evs r Hc Hrun IH|s ss tok t evs r Hc Hrun IH
                     |s ss tok o err Hc|s ss tok o Hc Ho];
    intros n Hr.
  - split; constructor.
  - destruct Hr as (_ & _ & Hr). destruct (IH (S n) Hr) as [Hs Hall].
    split; [done|]. eapply Forall_impl; [exact Hall|]. simpl. lia.
  - destruct Hr as (H0 & Hlt & Hr). destruct (IH (S n) Hr) as [Hs Hall].
    destruct (H0 tok) as [Hrk _].
    rewrite mutationsOf_cons_mutation by by eapply rank_isMutation.
    split.
    + constructor; [done|]. eapply Forall_impl; [exact Hall|].
      unfold rankLt. simpl. lia.
    + constructor; [lia|]. eapply Forall_impl; [exact Hall|]. simpl. lia.
  - destruct Hr as (H0 & Hlt & Hr). destruct (H0 tok) as [Hrk _].
    rewrite mutationsOf_cons_mutation by by eapply rank_isMutation.
    change (mutationsOf []) with (@nil Request).
    split; [by repeat constructor|].
    constructor; [lia|constructor].
  - destruct Hr as (H0 & Hlt & Hr). destruct (H0 tok) as [Hrk _].
    rewrite mutationsOf_cons_mutation by by eapply rank_isMutation.
    change (mutationsOf []) with (@nil Request).
    split; [by repeat constructor|].
    constructor; [lia|constructor].
Qed.

Lemma associateRun_mutations d add tok evs r :
  associateRun d add tok evs r →
  mutationsOf evs = [] ∧ add = []
  ∨ mutationsOf evs = [AssociateSubnetsInput (Id d) add tok] ∧ add ≠ [].
Proof.
  destruct 1 as [Ha|o err Ha|o wevs t err Ha Hw|o wevs t Ha Hw].
  - by left.
  - by right.
  - right. apply waitRun_inv in Hw as (Hall & _).
    rewrite mutationsOf_cons_mutation by done.
    by rewrite (mutationsOf_wait _ _ Hall).
  - right. apply waitRun_inv in Hw as (Hall & _).
    rewrite mutationsOf_cons_mutation by done.
    by rewrite (mutationsOf_wait _ _ Hall).
Qed.

Lemma disassociateRun_mutations d rem tok evs r :
  disassociateRun d rem tok evs r →
  mutationsOf evs = [] ∧ rem = []
  ∨ mutationsOf evs = [DisassociateSubnetsInput (Id d) rem tok] ∧ rem ≠ [].
Proof.
  destruct 1 as [Ha|o err Ha|o err Ha|o wevs t err Ha Hw|o wevs t Ha Hw].
  - by left.
  - by right.
  - by right.
  - right. apply waitRun_inv in Hw as (Hall & _).
    rewrite mutationsOf_cons_mutation by done.
    by rewrite (mutationsOf_wait _ _ Hall).
  - right. apply waitRun_inv in Hw as (Hall & _).
    rewrite mutationsOf_cons_mutation by done.
    by rewrite (mutationsOf_wait _ _ Hall).
Qed.

(** The mutations of the subnet block: the association when there is
    something to add, then the disassociation when it is reached and there
    is something to remove. *)
Lemma subnetRun_mutations d tok evs r :
  subnetRun d tok evs r →
  mutationsOf evs = []
  ∨ ∃ rem add, subnetChanges d = Some (rem, add) ∧
      ((add ≠ [] ∧ mutationsOf evs = [AssociateSubnetsInput (Id d) add tok])
       ∨ (add = [] ∧ rem ≠ [] ∧
          mutationsOf evs = [DisassociateSubnetsInput (Id d) rem tok])
       ∨ (add ≠ [] ∧ rem ≠ [] ∧ ∃ tok',
          mutationsOf evs = [AssociateSubnetsInput (Id d) add tok;
                             DisassociateSubnetsInput (Id d) rem tok'])).
Proof.
  destruct 1 as [Hc|Hc Hd|rem add evs diags Hc Hd Ha
                 |rem add evs1 tok' evs2 r Hc Hd Ha Hdis].
  - by left.
  - by left.
  - apply associateRun_mutations in Ha as [[-> _]|[-> Hadd]]; [by left|].
    right. exists rem, add. split; [done|]. by left.
  - rewrite mutationsOf_app.
    pose proof Ha as Ha'.
    apply associateRun_mutations in Ha as [[-> Hadd]|[-> Hadd]];
      apply disassociateRun_mutations in Hdis as [[-> Hrem]|[-> Hrem]];
      simpl; try by left.
    + right. exists rem, add. split; [done|]. right. left.
      split_and!; [done..|].
      inversion Ha'; subst; try done.
    + right. exists rem, add. split; [done|]. by left.
    + right. exists rem, add. split; [done|]. right. right.
      split_and!; [done..|]. by exists tok'.
Qed.

(** ** The order of the mutations *)

Lemma scalarRun_issued d ss tok evs r n s :
  rankedFrom n ss → scalarRun d ss tok evs r → s ∈ ss → changed s = true →
  ((∃ tok', r = Next tok')
   ∨ ∃ q, q ∈ mutationsOf evs ∧ (rank (input s "") < rank q)%nat) →
  ∃ tok', input s tok' ∈ mutationsOf evs.
Proof.
  intros Hr Hrun. revert n Hr.
  induction Hrun as [tok|s0 ss tok evs r Hc Hrun IH|s0 ss tok t evs r Hc Hrun IH
                     |s0 ss tok o err Hc|s0 ss tok o Hc Ho];
    intros n Hr Hs Hch Hlater.
  - by inv Hs.
  - destruct Hr as (_ & _ & Hr).
    apply elem_of_cons in Hs as [->|Hs]; [congruence|]. by eapply IH.
  - destruct Hr as (H0 & Hlt & Hr). destruct (H0 tok) as [Hrk _].
    rewrite mutationsOf_cons_mutation in * by by eapply rank_isMutation.
    apply elem_of_cons in Hs as [->|Hs]; [exists tok; by left|].
    destruct (IH (S n) Hr Hs Hch) as [tok' Hin].
    + destruct Hlater as [Hn|(q & Hq & Hlt')]; [by left|right].
      apply elem_of_cons in Hq as [->|Hq]; [|by exists q].
      destruct (rankedFrom_elem _ _ _ Hr Hs "") as [? _]. lia.
    + exists tok'. by right.
  - destruct Hr as (H0 & Hlt & Hr). destruct (H0 tok) as [Hrk _].
    rewrite mutationsOf_cons_mutation in * by by eapply rank_isMutation.
    apply elem_of_cons in Hs as [->|Hs]; [exists tok; by left|].
    destruct Hlater as [[? [=]]|(q & Hq & Hlt')].
    apply list_elem_of_singleton in Hq as ->.
    destruct (rankedFrom_elem _ _ _ Hr Hs "") as [? _]. lia.
  - destruct Hr as (H0 & Hlt & Hr). destruct (H0 tok) as [Hrk _].
    rewrite mutationsOf_cons_mutation in * by by eapply rank_isMutation.
    apply elem_of_cons in Hs as [->|Hs]; [exists tok; by left|].
    destruct Hlater as [[? [=]]|(q & Hq & Hlt')].
    apply list_elem_of_singleton in Hq as ->.
    destruct (rankedFrom_elem _ _ _ Hr Hs "") as [? _]. lia.
Qed.

Lemma sorted_before pre q post q' :
  StronglySorted rankLt (pre ++ q :: post) →
  q' ∈ (pre ++ q :: post)%list → (rank q' < rank q)%nat → q' ∈ pre.
Proof.
  intros Hs Hin Hlt.
  apply elem_of_app in Hin as [Hin|Hin]; [done|].
  apply StronglySorted_app_1_r, StronglySorted_cons in Hs as [Hall _].
  apply elem_of_cons in Hin as [->|Hin]; [lia|].
  rewrite Forall_forall in Hall. specialize (Hall q' Hin).
  unfold rankLt in Hall. lia.
Qed.

(** The mutations of an update pass, by its parts: those of the scalar
    blocks, then those of the subnet block. *)
Lemma updateRun_mutations d evs r :
  updateRun d evs r →
  ∃ evs1 r1 ms,
    scalarRun d (scalarStages d) (Get update_token d) evs1 r1
    ∧ mutationsOf evs = (mutationsOf evs1 ++ ms)%list
    ∧ (ms = []
       ∨ ∃ tok evs2 r2, r1 = Next tok ∧ subnetRun d tok evs2 r2
                        ∧ ms = mutationsOf evs2).
Proof.
  destruct 1 as [evs diags Hs|evs Hs|evs1 tok evs2 diags Hs Hn
                 |evs1 tok evs2 Hs Hn|evs1 tok evs2 evs3 r Hs Hn Hr].
  - exists evs, (Return diags), []. rewrite app_nil_r. auto.
  - exists evs, Panic, []. rewrite app_nil_r. auto.
  - exists evs1, (Next tok), (mutationsOf evs2). rewrite mutationsOf_app.
    split_and!; [done..|]. right. by exists tok, evs2, (Return diags).
  - exists evs1, (Next tok), (mutationsOf evs2). rewrite mutationsOf_app.
    split_and!; [done..|]. right. by exists tok, evs2, Panic.
  - exists evs1, (Next tok), (mutationsOf evs2). rewrite !mutationsOf_app.
    apply readRun_inv in Hr as (o & e & ->).
    change (mutationsOf [Call (DescribeFirewallInput (Id d)) o e]) with (@nil Request).
    rewrite app_nil_r.
    split_and!; [done..|]. right. by exists tok, evs2, (Next tt).
Qed.

Lemma subnetRun_ranks d tok evs r :
  subnetRun d tok evs r →
  StronglySorted rankLt (mutationsOf evs)
  ∧ Forall (λ q, 7 ≤ rank q)%nat (mutationsOf evs).
Proof.
  intros H. apply subnetRun_mutations in H
    as [->|(rem & add & _ & [[_ ->]|[(_ & _ & ->)|(_ & _ & tok' & ->)]])];
    (split; [repeat constructor|]); repeat constructor.
Qed.

Lemma updateRun_sorted d evs r :
  updateRun d evs r → StronglySorted rankLt (mutationsOf evs).
Proof.
  intros (evs1 & r1 & ms & Hs & -> & Hms)%updateRun_mutations.
  destruct (scalarRun_mutations _ _ _ _ _ 0 (scalarStages_ranked d) Hs)
    as [Hsorted Hall].
  destruct Hms as [->|(tok & evs2 & r2 & -> & Hn & ->)];
    [by rewrite app_nil_r|].
  destruct (subnetRun_ranks _ _ _ _ Hn) as [Hsorted2 Hall2].
  apply StronglySorted_app_2; [|done..].
  rewrite Forall_forall in Hall, Hall2. intros x1 x2 H1 H2.
  specialize (Hall x1 H1). specialize (Hall2 x2 H2). unfold rankLt. lia.
Qed.

(** The events of a pass from the start are its trace. *)
Lemma runs_start {A} (c : M A) w evs a st' :
  runs c (start w) evs a st' → (c (start w)).1 = a ∧ trace (c (start w)).2 = evs.
Proof. intros [-> Ht]. done. Qed.

(** C2: in every update pass the mutations are issued in the fixed order
    of the source: their places in that order increase strictly along the
    trace. In particular, when the firewall-policy change protection
    changed, its mutation comes before the association of the firewall
    policy; when the subnet change protection changed, its mutation comes
    before the association and before the disassociation of subnets; and
    when there are subnets to add, their association comes before the
    disassociation. *)
Theorem update_order (d : ResourceData) (w : W) :
  let evs := trace (resourceFirewallUpdate d (start w)).2 in
  StronglySorted rankLt (mutationsOf evs)
  ∧ (∀ pre post arn p tok,
       mutationsOf evs = (pre ++ AssociateFirewallPolicyInput arn p tok :: post)%list →
       HasChange firewall_policy_change_protection d = true →
       ∃ tok', UpdateFirewallPolicyChangeProtectionInput
                 (Id d) (Get firewall_policy_change_protection d) tok' ∈ pre)
  ∧ (∀ pre post q,
       mutationsOf evs = (pre ++ q :: post)%list →
       (7 ≤ rank q)%nat →
       HasChange subnet_change_protection d = true →
       ∃ tok', UpdateSubnetChangeProtectionInput
                 (Id d) (Get subnet_change_protection d) tok' ∈ pre)
  ∧ (∀ pre post arn ids tok rem add,
       mutationsOf evs = (pre ++ DisassociateSubnetsInput arn ids tok :: post)%list →
       subnetChanges d = Some (rem, add) → add ≠ [] →
       ∃ tok', AssociateSubnetsInput (Id d) add tok' ∈ pre).
Proof.
  destruct (resourceFirewallUpdate_sound d (start w)) as (evs & r & st' & Hr & Hrun).
  apply runs_start in Hr as [_ ->]. cbv zeta.
  pose proof (updateRun_sorted _ _ _ Hrun) as Hsorted.
  apply updateRun_mutations in Hrun as (evs1 & r1 & ms & Hs & Hm & Hms).
  pose proof (scalarRun_mutations _ _ _ _ _ 0 (scalarStages_ranked d) Hs)
    as [_ Hall1].
  rewrite Forall_forall in Hall1.
  assert (∀ q, q ∈ ms → (7 ≤ rank q)%nat) as Hall2.
  { destruct Hms as [->|(tok & evs2 & r2 & -> & Hn & ->)]; [by intros ? ?%elem_of_nil|].
    apply subnetRun_ranks in Hn as [_ Hall]. by rewrite Forall_forall in Hall. }
  split_and!; [done| | |].
  - intros pre post arn p tok Heq Hch.
    set (s := {| changed := HasChange firewall_policy_change_protection d;
                 input := UpdateFirewallPolicyChangeProtectionInput
                            (Id d) (Get firewall_policy_change_protection d);
                 format := "updating NetworkFirewall Firewall (%s) firewall policy change protection: %s" |}).
    destruct (scalarRun_issued d (scalarStages d) _ evs1 r1 0 s
                (scalarStages_ranked d) Hs) as [tok' Hin].
    + unfold scalarStages, s. do 3 right. left.
    + done.
    + right. exists (AssociateFirewallPolicyInput arn p tok). split; [|simpl; lia].
      assert (AssociateFirewallPolicyInput arn p tok ∈ (mutationsOf evs1 ++ ms)%list)
        as [Hin|Hin]%elem_of_app; [rewrite <- Hm, Heq; apply elem_of_app; right; left|done|].
      apply Hall2 in Hin. simpl in Hin. lia.
    + exists tok'. rewrite Heq in Hsorted.
      eapply sorted_before; [exact Hsorted| |simpl; lia].
      rewrite <- Heq, Hm. apply elem_of_app. by left.
  - intros pre post q Heq Hq Hch.
    set (s := {| changed := HasChange subnet_change_protection d;
                 input := UpdateSubnetChangeProtectionInput
                            (Id d) (Get subnet_change_protection d);
                 format := "updating NetworkFirewall Firewall (%s) subnet change protection: %s" |}).
    destruct (scalarRun_issued d (scalarStages d) _ evs1 r1 0 s
                (scalarStages_ranked d) Hs) as [tok' Hin].
    + unfold scalarStages, s. do 5 right. left.
    + done.
    + left. destruct Hms as [->|(tok & evs2 & r2 & -> & _)]; [|by eexists].
      rewrite app_nil_r in Hm.
      assert (q ∈ mutationsOf evs1) as Hin by (rewrite <- Hm, Heq; apply elem_of_app; right; left).
      apply Hall1 in Hin. lia.
    + exists tok'. rewrite Heq in Hsorted.
      eapply sorted_before; [exact Hsorted| |simpl; lia].
      rewrite <- Heq, Hm. apply elem_of_app. by left.
  - intros pre post arn ids tok rem add Heq Hdiff Hadd.
    assert (DisassociateSubnetsInput arn ids tok ∈ ms) as Hin.
    { assert (DisassociateSubnetsInput arn ids tok ∈ (mutationsOf evs1 ++ ms)%list)
        as [Hin|Hin]%elem_of_app; [rewrite <- Hm, Heq; apply elem_of_app; right; left| |done].
      apply Hall1 in Hin. simpl in Hin. lia. }
    destruct Hms as [->|(tok0 & evs2 & r2 & -> & Hn & ->)]; [by inv Hin|].
    apply subnetRun_mutations in Hn
      as [Hn|(rem' & add' & Hd' & [[_ Hn]|[(Ha & _ & Hn)|(_ & _ & tok' & Hn)]])];
      rewrite Hn in Hin, Hm.
    + by inv Hin.
    + apply list_elem_of_singleton in Hin. done.
    + rewrite Hd' in Hdiff. injection Hdiff as -> ->. done.
    + rewrite Hd' in Hdiff. injection Hdiff as -> ->.
      exists tok0. rewrite Heq in Hsorted.
      eapply sorted_before; [exact Hsorted| |simpl; lia].
      rewrite <- Heq, Hm. apply elem_of_app. right. left.
Qed.

(** ** Failed mutations *)

Lemma scalarRun_failed d ss tok evs r pre req o err post :
  scalarRun d ss tok evs r →
  evs = (pre ++ Call req o (Some err) :: post)%list →
  post = [] ∧ ∃ fmt, r = Return (failure fmt d err).
Proof.
  intros Hrun. revert pre.
  induction Hrun as [tok|s0 ss tok evs r Hc Hrun IH|s0 ss tok t evs r Hc Hrun IH
                     |s0 ss tok o' err' Hc|s0 ss tok o' Hc Ho];
    intros pre Heq.
  - by destruct pre.
  - by eapply IH.
  - destruct pre as [|ev pre]; [done|].
    injection Heq as _ Heq. by eapply IH.
  - destruct pre as [|ev pre]; [|by destruct pre].
    injection Heq as _ _ -> <-. split; [done|]. by eexists.
  - destruct pre as [|ev pre]; [done|by destruct pre].
Qed.

Lemma wait_not_failed d wevs r pre req o err post :
  waitRun d wevs r →
  wevs = (pre ++ Call req o err :: post)%list →
  isMutation req = false.
Proof.
  intros (Hall & _)%waitRun_inv ->.
  apply Forall_app in Hall as [_ Hall]. apply Forall_cons in Hall as [Hev _].
  by destruct req.
Qed.

Lemma associateRun_failed d add tok evs r pre req o err post :
  associateRun d add tok evs r →
  evs = (pre ++ Call req o (Some err) :: post)%list →
  isMutation req = true →
  post = [] ∧ ∃ fmt, r = Return (failure fmt d err).
Proof.
  destruct 1 as [Ha|o' err' Ha|o' wevs t err' Ha Hw|o' wevs t Ha Hw];
    intros Heq Hm.
  - by destruct pre.
  - destruct pre as [|ev pre]; [|by destruct pre].
    injection Heq as _ _ -> <-. split; [done|]. by eexists.
  - destruct pre as [|ev pre]; [done|]. injection Heq as _ Heq.
    rewrite (wait_not_failed _ _ _ _ _ _ _ _ Hw Heq) in Hm. done.
  - destruct pre as [|ev pre]; [done|]. injection Heq as _ Heq.
    rewrite (wait_not_failed _ _ _ _ _ _ _ _ Hw Heq) in Hm. done.
Qed.

Lemma disassociateRun_failed d rem tok evs r pre req o err post :
  disassociateRun d rem tok evs r →
  evs = (pre ++ Call req o (Some err) :: post)%list →
  isMutation req = true →
  post = [] ∧ rem ≠ [] ∧ req = DisassociateSubnetsInput (Id d) rem tok
  ∧ (inaccessible err = false
     ∧ r = Return (failure "disassociating NetworkFirewall Firewall (%s) subnets: %s" d err)
     ∨ inaccessible err = true ∧ r = Next tt).
Proof.
  destruct 1 as [Ha|o' err' Ha Hi|o' err' Ha Hi|o' wevs t err' Ha Hw|o' wevs t Ha Hw];
    intros Heq Hm.
  - by destruct pre.
  - destruct pre as [|ev pre]; [|by destruct pre].
    injection Heq as <- _ -> <-. split_and!; [done..|]. by left.
  - destruct pre as [|ev pre]; [|by destruct pre].
    injection Heq as <- _ -> <-. split_and!; [done..|]. by right.
  - destruct pre as [|ev pre]; [done|]. injection Heq as _ Heq.
    rewrite (wait_not_failed _ _ _ _ _ _ _ _ Hw Heq) in Hm. done.
  - destruct pre as [|ev pre]; [done|]. injection Heq as _ Heq.
    rewrite (wait_not_failed _ _ _ _ _ _ _ _ Hw Heq) in Hm. done.
Qed.

Lemma subnetRun_failed d tok evs r pre req o err post :
  subnetRun d tok evs r →
  evs = (pre ++ Call req o (Some err) :: post)%list →
  isMutation req = true →
  post = []
  ∧ ((∃ fmt, r = Return (failure fmt d err))
       ∧ (∀ arn ids tok', req = DisassociateSubnetsInput arn ids tok' →
          ids ≠ [] ∧ inaccessible err = false
          ∧ r = Return (failure "disassociating NetworkFirewall Firewall (%s) subnets: %s" d err))
     ∨ (∃ ids tok', req = DisassociateSubnetsInput (Id d) ids tok' ∧ ids ≠ [])
       ∧ inaccessible err = true ∧ r = Next tt).
Proof.
  destruct 1 as [Hc|Hc Hd|rem add evs diags Hc Hd Ha
                 |rem add evs1 tok' evs2 r Hc Hd Ha Hdis];
    intros Heq Hm.
  - by destruct pre.
  - by destruct pre.
  - destruct (associateRun_failed _ _ _ _ _ _ _ _ _ _ Ha Heq Hm) as [-> [fmt Hr]].
    injection Hr as ->.
    split; [done|]. left. split; [by exists fmt|].
    intros arn ids tok' ->.
    assert (DisassociateSubnetsInput arn ids tok' ∈ mutationsOf evs) as Hin.
    { rewrite Heq, mutationsOf_app, mutationsOf_cons_mutation by done.
      apply elem_of_app. right. left. }
    apply associateRun_mutations in Ha as [[Ha _]|[Ha _]]; rewrite Ha in Hin.
    + by inv Hin.
    + by apply list_elem_of_singleton in Hin.
  - apply app_cons_split in Heq as [(post1 & Heq & ->)|(pre2 & Heq & ->)].
    + destruct (associateRun_failed _ _ _ _ _ _ _ _ _ _ Ha Heq Hm) as [_ [fmt Hr]].
      done.
    + destruct (disassociateRun_failed _ _ _ _ _ _ _ _ _ _ Hdis Heq Hm)
        as (-> & Hrem & -> & [[Hi ->]|[Hi ->]]).
      * split; [done|]. left. split; [by eexists|].
        intros arn ids tok'' [= <- <- <-]. done.
      * split; [done|]. right. split_and!; [|done..]. by exists rem, tok'.
Qed.

(** A mutation of an update pass that fails ends the pass with its error,
    but for the disassociation that fails as inaccessible, after which the
    read follows. *)
Lemma updateRun_failed d evs r pre req o err post :
  updateRun d evs r →
  evs = (pre ++ Call req o (Some err) :: post)%list →
  isMutation req = true →
  post = []
  ∧ (∃ fmt, r = Some (failure fmt d err, d))
  ∧ (∀ arn ids tok, req = DisassociateSubnetsInput arn ids tok →
     ids ≠ [] ∧ inaccessible err = false
     ∧ r = Some (failure "disassociating NetworkFirewall Firewall (%s) subnets: %s" d err, d))
  ∨ (∃ ids tok, req = DisassociateSubnetsInput (Id d) ids tok ∧ ids ≠ [])
    ∧ inaccessible err = true
    ∧ ∃ rr, readRun d post rr ∧ r = Some rr.
Proof.
  destruct 1 as [evs diags Hs|evs Hs|evs1 tok evs2 diags Hs Hn
                 |evs1 tok evs2 Hs Hn|evs1 tok evs2 evs3 r Hs Hn Hr];
    intros Heq Hm.
  - destruct (scalarRun_failed _ _ _ _ _ _ _ _ _ _ Hs Heq) as [-> [fmt [= ->]]].
    left. split_and!; [done|by eexists|].
    intros arn ids tok ->.
    destruct (scalarRun_mutations _ _ _ _ _ 0 (scalarStages_ranked d) Hs)
      as [_ Hall].
    rewrite Heq, mutationsOf_app, mutationsOf_cons_mutation in Hall by done.
    apply Forall_app in Hall as [_ Hall]. apply Forall_cons in Hall as [Hall _].
    simpl in Hall. lia.
  - by destruct (scalarRun_failed _ _ _ _ _ _ _ _ _ _ Hs Heq) as [_ [fmt [=]]].
  - apply app_cons_split in Heq as [(post1 & Heq & ->)|(pre2 & Heq & ->)].
    { by destruct (scalarRun_failed _ _ _ _ _ _ _ _ _ _ Hs Heq) as [_ [fmt [=]]]. }
    destruct (subnetRun_failed _ _ _ _ _ _ _ _ _ Hn Heq Hm)
      as [-> [[[fmt [= ->]] Hdis]|(_ & _ & [=])]].
    left. split_and!; [done|by eexists|].
    intros arn ids tok' Hreq. destruct (Hdis _ _ _ Hreq) as (? & ? & [= ->]). done.
  - apply app_cons_split in Heq as [(post1 & Heq & ->)|(pre2 & Heq & ->)].
    { by destruct (scalarRun_failed _ _ _ _ _ _ _ _ _ _ Hs Heq) as [_ [fmt [=]]]. }
    by destruct (subnetRun_failed _ _ _ _ _ _ _ _ _ Hn Heq Hm)
      as [_ [[[fmt [=]] _]|(_ & _ & [=])]].
  - apply app_cons_split in Heq as [(post1 & Heq & ->)|(pre2 & Heq & ->)].
    { by destruct (scalarRun_failed _ _ _ _ _ _ _ _ _ _ Hs Heq) as [_ [fmt [=]]]. }
    apply app_cons_split in Heq as [(post1 & Heq & ->)|(pre3 & Heq & ->)].
    + destruct (subnetRun_failed _ _ _ _ _ _ _ _ _ Hn Heq Hm)
        as [-> [[[fmt [=]] _]|(Hreq & Hi & _)]].
      right. split_and!; [done..|]. by exists r.
    + apply readRun_inv in Hr as (o' & e' & ->).
      destruct pre3 as [|ev pre3]; [|by destruct pre3].
      injection Heq as <- _ _ _. done.
Qed.

Lemma readRun_diags d evs rr :
  readRun d evs rr →
  rr.1 = [] ∨ ∃ e, rr.1 = failure "reading NetworkFirewall Firewall (%s): %s" d e.
Proof.
  intros (st & st' & [Hr _]). unfold resourceFirewallRead in Hr.
  unfold mbind, M_bind in Hr.
  destruct (FindFirewallByARN (Id d) st) as [r st1].
  destruct (negb (IsNewResource d) && NotFound (errOf r)).
  { injection Hr as <- _. by left. }
  destruct r as [e|out]; injection Hr as <- _; [right; by exists e|by left].
Qed.

(** C9: a mutation call of an update pass that fails, other than the
    disassociation of subnets failing as inaccessible, ends the pass at
    once: no event follows it, so no later mutation is issued and nothing
    applied before is undone, and the pass returns the diagnostic of that
    error with the resource data as it was. *)
Theorem update_abort (d : ResourceData) (w : W) pre req o err post :
  trace (resourceFirewallUpdate d (start w)).2
    = (pre ++ Call req o (Some err) :: post)%list →
  isMutation req = true →
  (∀ arn ids tok, req = DisassociateSubnetsInput arn ids tok →
                  inaccessible err = false) →
  post = []
  ∧ ∃ fmt, (resourceFirewallUpdate d (start w)).1 = Some (failure fmt d err, d).
Proof.
  intros Heq Hm Hnot.
  destruct (resourceFirewallUpdate_sound d (start w)) as (evs & r & st' & Hr & Hrun).
  apply runs_start in Hr as [-> Ht]. rewrite Ht in Heq.
  destruct (updateRun_failed _ _ _ _ _ _ _ _ Hrun Heq Hm)
    as [(-> & Hfmt & _)|([ids [tok Hreq]] & Hi & _)]; [done|].
  destruct Hreq as [-> _]. rewrite (Hnot _ _ _ eq_refl) in Hi. done.
Qed.

(** C4: when the disassociation of subnets fails in an update pass, the
    set of subnets to remove was not empty; a failure as inaccessible is
    let pass: the pass goes on to the final read, whose result it returns,
    without a diagnostic of the disassociation; any other failure is
    returned as the diagnostic of the disassociation and ends the pass. *)
Theorem update_disassociate_failure (d : ResourceData) (w : W)
    pre arn ids tok o err post :
  trace (resourceFirewallUpdate d (start w)).2
    = (pre ++ Call (DisassociateSubnetsInput arn ids tok) o (Some err) :: post)%list →
  ids ≠ []
  ∧ (inaccessible err = true →
     ∃ o' e' rr,
       post = [Call (DescribeFirewallInput (Id d)) o' e']
       ∧ readRun d post rr
       ∧ (resourceFirewallUpdate d (start w)).1 = Some rr
       ∧ (rr.1 = []
          ∨ ∃ e, rr.1 = failure "reading NetworkFirewall Firewall (%s): %s" d e))
  ∧ (inaccessible err = false →
     post = []
     ∧ (resourceFirewallUpdate d (start w)).1
       = Some (failure "disassociating NetworkFirewall Firewall (%s) subnets: %s" d err, d)).
Proof.
  intros Heq.
  destruct (resourceFirewallUpdate_sound d (start w)) as (evs & r & st' & Hr & Hrun).
  apply runs_start in Hr as [-> Ht]. rewrite Ht in Heq.
  destruct (updateRun_failed _ _ _ _ _ _ _ _ Hrun Heq eq_refl)
    as [(-> & _ & Hdis)|([ids' [tok' [[= -> -> ->] Hids]]] & Hi & rr & Hread & ->)].
  - destruct (Hdis _ _ _ eq_refl) as (Hids & Hi & ->).
    split_and!; [done|congruence|done].
  - split_and!; [done| |congruence].
    intros _. destruct (readRun_inv _ _ _ Hread) as (o' & e' & ->).
    exists o', e', rr. split_and!; [done..|]. by eapply readRun_diags.
Qed.

Lemma noChange_same d : state d = plan d → noChange d.
Proof.
  intros H. unfold noChange, HasChange, HasChangeSet, Equal. rewrite H.
  by rewrite !bool_decide_eq_true_2.
Qed.

(** C8: when no field of the resource reports a change, as when the
    state read last equals the planned values, the update pass is the
    final read and nothing else: its one event is the describe call of the
    read; it issues no mutation and no wait sleeps. *)
Theorem update_idempotent (d : ResourceData) (w : W) :
  noChange d →
  resourceFirewallUpdate d (start w)
    = (r ← resourceFirewallRead d; mret (Some r)) (start w)
  ∧ (∃ o e, trace (resourceFirewallUpdate d (start w)).2
            = [Call (DescribeFirewallInput (Id d)) o e])
  ∧ mutationsOf (trace (resourceFirewallUpdate d (start w)).2) = [].
Proof.
  intros (H1 & H2 & H3 & H4 & H5 & H6 & H7).
  assert (resourceFirewallUpdate d (start w)
          = (r ← resourceFirewallRead d; mret (Some r)) (start w)) as Heq.
  { unfold resourceFirewallUpdate, updateMutations, updateDeleteProtection,
      updateDescription, updateEncryptionConfiguration,
      updateFirewallPolicyChangeProtection, updateFirewallPolicyArn,
      updateSubnetChangeProtection, updateSubnetMapping.
    rewrite H1, H2, H3, H4, H5, H6, H7. reflexivity. }
  split; [done|]. rewrite Heq.
  destruct (resourceFirewallRead_runs d (start w)) as (o & e & r & st' & [Hr Ht]).
  unfold mbind, M_bind. rewrite Hr. simpl. rewrite Ht.
  split; [by exists o, e|done].
Qed.

(** ** The update token along a pass *)

Lemma heldAfter_app tok evs1 evs2 :
  heldAfter tok (evs1 ++ evs2) = heldAfter (heldAfter tok evs1) evs2.
Proof. revert tok. induction evs1 as [|ev evs1 IH]; intros tok; simpl; auto. Qed.

Lemma freshFrom_app seen evs1 evs2 :
  freshFrom seen (evs1 ++ evs2)
  = freshFrom seen evs1 && freshFrom (seen ++ tokensOf evs1) evs2.
Proof.
  revert seen. induction evs1 as [|ev evs1 IH]; intros seen.
  - simpl. change (tokensOf []) with (@nil string). by rewrite app_nil_r.
  - cbn [app freshFrom]. rewrite IH.
    change (ev :: evs1) with ([ev] ++ evs1)%list.
    rewrite (tokensOf_app [ev] evs1), andb_assoc, app_assoc. done.
Qed.

Lemma carriesHeld_nil tok : carriesHeld tok [].
Proof. intros pre ev post req Heq. by destruct pre. Qed.

Lemma carriesHeld_app tok evs1 evs2 :
  carriesHeld tok evs1 → carriesHeld (heldAfter tok evs1) evs2 →
  carriesHeld tok (evs1 ++ evs2).
Proof.
  intros H1 H2 pre ev post req Heq Hm.
  apply app_cons_split in Heq as [(post1 & Heq & ->)|(pre2 & Heq & ->)].
  - by eapply H1.
  - rewrite heldAfter_app. by eapply H2.
Qed.

Lemma carriesHeld_cons tok ev evs :
  (∀ req, mutationOf ev = Some req → tokenOf req = Some tok) →
  carriesHeld (default tok (returnedToken ev)) evs →
  carriesHeld tok (ev :: evs).
Proof.
  intros H1 H2 pre ev' post req Heq Hm.
  destruct pre as [|ev0 pre]; injection Heq as -> Heq.
  - by apply H1.
  - simpl. by eapply H2.
Qed.

Lemma carriesHeld_wait arn tok evs :
  Forall (waitEvent arn) evs → carriesHeld tok evs.
Proof.
  intros Hall pre ev post req -> Hm.
  apply Forall_app in Hall as [_ Hall]. apply Forall_cons in Hall as [Hev _].
  by rewrite (waitEvent_mutationOf _ _ Hev) in Hm.
Qed.

Lemma tokensOf_wait arn evs : Forall (waitEvent arn) evs → tokensOf evs = [].
Proof. intros H. unfold tokensOf. by rewrite (mutationsOf_wait _ _ H). Qed.

Lemma returnedToken_stage s tok t n :
  rank (input s tok) = S n → (S n < 7)%nat →
  returnedToken (Call (input s tok) (Some (OutUpdate t)) None)
  = Some (StringValue t).
Proof.
  intros Hrk Hlt. unfold returnedToken.
  assert (isScalar (input s tok) = true) as ->; [|by destruct (input s tok)].
  unfold isScalar. apply bool_decide_eq_true_2. lia.
Qed.

Lemma returnedToken_failed req o err : returnedToken (Call req o (Some err)) = None.
Proof. by destruct req, o as [[]|]. Qed.

Lemma returnedToken_readyRead arn tok ev :
  readyRead arn tok ev → returnedToken ev = Some tok.
Proof. by intros (fw & fs & t & -> & _ & <-). Qed.

Lemma scalarRun_chain d ss tok evs r n :
  rankedFrom n ss → scalarRun d ss tok evs r →
  carriesHeld tok evs ∧ (∀ tok', r = Next tok' → heldAfter tok evs = tok').
Proof.
  intros Hr Hrun. revert n Hr.
  induction Hrun as [tok|s ss tok evs r Hc Hrun IH|s ss tok t evs r Hc Hrun IH
                     |s ss tok o err Hc|s ss tok o Hc Ho];
    intros n Hr.
  - split; [apply carriesHeld_nil|]. by intros ? [= <-].
  - destruct Hr as (_ & _ & Hr). by eapply IH.
  - destruct Hr as (H0 & Hlt & Hr). destruct (H0 tok) as [Hrk Htok].
    destruct (IH (S n) Hr) as [Hch Hnext].
    pose proof (returnedToken_stage s tok t n Hrk Hlt) as Hret.
    split.
    + apply carriesHeld_cons.
      * intros req. simpl. rewrite (rank_isMutation _ _ Hrk). by intros [= <-].
      * by rewrite Hret.
    + intros tok' Hn. cbn [heldAfter]. rewrite Hret. by apply Hnext.
  - destruct Hr as (H0 & Hlt & Hr). destruct (H0 tok) as [Hrk Htok].
    split; [|done]. apply carriesHeld_cons; [|apply carriesHeld_nil].
    intros req. simpl. rewrite (rank_isMutation _ _ Hrk). by intros [= <-].
  - destruct Hr as (H0 & Hlt & Hr). destruct (H0 tok) as [Hrk Htok].
    split; [|done]. apply carriesHeld_cons; [|apply carriesHeld_nil].
    intros req. simpl. rewrite (rank_isMutation _ _ Hrk). by intros [= <-].
Qed.

Lemma returnedToken_associate arn add tok o e :
  returnedToken (Call (AssociateSubnetsInput arn add tok) o e) = None.
Proof. by destruct o as [[]|], e. Qed.

Lemma returnedToken_disassociate arn rem tok o e :
  returnedToken (Call (DisassociateSubnetsInput arn rem tok) o e) = None.
Proof. by destruct o as [[]|], e. Qed.

Lemma associateRun_chain d add tok evs r :
  associateRun d add tok evs r →
  carriesHeld tok evs ∧ (∀ tok', r = Next tok' → heldAfter tok evs = tok').
Proof.
  destruct 1 as [Ha|o err Ha|o wevs t err Ha Hw|o wevs t Ha Hw].
  - split; [apply carriesHeld_nil|]. by intros ? [= <-].
  - split; [|done]. apply carriesHeld_cons; [|apply carriesHeld_nil].
    intros req. simpl. by intros [= <-].
  - apply waitRun_inv in Hw as (Hall & _).
    split; [|done]. apply carriesHeld_cons; [by intros req [= <-]|].
    by eapply carriesHeld_wait.
  - apply waitRun_inv in Hw as (Hall & _ & Hready).
    destruct (Hready eq_refl) as (evs0 & ev & -> & Hev).
    split.
    + apply carriesHeld_cons; [by intros req [= <-]|].
      by eapply carriesHeld_wait.
    + intros tok' [= <-]. cbn [heldAfter].
      rewrite returnedToken_associate, heldAfter_app. simpl.
      by rewrite (returnedToken_readyRead _ _ _ Hev).
Qed.

Lemma disassociateRun_chain d rem tok evs r :
  disassociateRun d rem tok evs r → carriesHeld tok evs.
Proof.
  destruct 1 as [Ha|o err Ha Hi|o err Ha Hi|o wevs t err Ha Hw|o wevs t Ha Hw].
  - apply carriesHeld_nil.
  - apply carriesHeld_cons; [by intros req [= <-]|apply carriesHeld_nil].
  - apply carriesHeld_cons; [by intros req [= <-]|apply carriesHeld_nil].
  - apply waitRun_inv in Hw as (Hall & _).
    apply carriesHeld_cons; [by intros req [= <-]|]. by eapply carriesHeld_wait.
  - apply waitRun_inv in Hw as (Hall & _).
    apply carriesHeld_cons; [by intros req [= <-]|]. by eapply carriesHeld_wait.
Qed.

Lemma subnetRun_chain d tok evs r : subnetRun d tok evs r → carriesHeld tok evs.
Proof.
  destruct 1 as [Hc|Hc Hd|rem add evs diags Hc Hd Ha
                 |rem add evs1 tok' evs2 r Hc Hd Ha Hdis].
  - apply carriesHeld_nil.
  - apply carriesHeld_nil.
  - by apply associateRun_chain in Ha as [? _].
  - apply associateRun_chain in Ha as [Hch Hnext].
    apply carriesHeld_app; [done|]. rewrite (Hnext tok' eq_refl).
    by eapply disassociateRun_chain.
Qed.

Lemma updateRun_chain d evs r :
  updateRun d evs r → carriesHeld (Get update_token d) evs.
Proof.
  destruct 1 as [evs diags Hs|evs Hs|evs1 tok evs2 diags Hs Hn
                 |evs1 tok evs2 Hs Hn|evs1 tok evs2 evs3 r Hs Hn Hr];
    destruct (scalarRun_chain _ _ _ _ _ 0 (scalarStages_ranked d) Hs)
      as [Hch Hnext]; try done.
  - apply carriesHeld_app; [done|]. rewrite (Hnext tok eq_refl).
    by eapply subnetRun_chain.
  - apply carriesHeld_app; [done|]. rewrite (Hnext tok eq_refl).
    by eapply subnetRun_chain.
  - apply carriesHeld_app; [done|]. rewrite (Hnext tok eq_refl).
    apply carriesHeld_app; [by eapply subnetRun_chain|].
    apply readRun_inv in Hr as (o & e & ->).
    apply carriesHeld_cons; [done|apply carriesHeld_nil].
Qed.

(** ** Fresh tokens are never carried twice *)

Lemma tokensOf_cons req o e evs tok :
  isMutation req = true → tokenOf req = Some tok →
  tokensOf (Call req o e :: evs) = tok :: tokensOf evs.
Proof.
  intros Hm Htok. unfold tokensOf.
  rewrite mutationsOf_cons_mutation by done. simpl. by rewrite Htok.
Qed.

Lemma NoDup_snoc (seen : list string) tok :
  NoDup seen → tok ∉ seen → NoDup (seen ++ [tok]).
Proof.
  intros Hnd Hnin. apply NoDup_app. split_and!; [done| |apply NoDup_singleton].
  intros x Hx ->%list_elem_of_singleton. done.
Qed.

Lemma keepsFresh_nil tok : keepsFresh tok [] (Some tok).
Proof.
  intros seen Hnd Hnin _. change (tokensOf []) with (@nil string).
  rewrite app_nil_r. split; [done|]. by intros ? [= <-].
Qed.

Lemma keepsFresh_weaken tok evs held : keepsFresh tok evs held → keepsFresh tok evs None.
Proof.
  intros H seen Hnd Hnin Hf. destruct (H seen Hnd Hnin Hf) as [? _]. done.
Qed.

Lemma keepsFresh_app tok evs1 tok' evs2 held :
  keepsFresh tok evs1 (Some tok') → keepsFresh tok' evs2 held →
  keepsFresh tok (evs1 ++ evs2) held.
Proof.
  intros H1 H2 seen Hnd Hnin Hf.
  rewrite freshFrom_app in Hf. apply andb_true_iff in Hf as [Hf1 Hf2].
  destruct (H1 seen Hnd Hnin Hf1) as [Hnd1 Hnin1].
  rewrite tokensOf_app, app_assoc.
  apply H2; [done|by apply Hnin1|done].
Qed.

(** A mutation that carries the held token, and what it leaves held. *)
Lemma keepsFresh_call tok req o e :
  isMutation req = true → tokenOf req = Some tok →
  keepsFresh tok [Call req o e] (returnedToken (Call req o e)).
Proof.
  intros Hm Htok seen Hnd Hnin Hf.
  rewrite (tokensOf_cons _ _ _ _ _ Hm Htok). change (tokensOf []) with (@nil string).
  split; [by apply NoDup_snoc|].
  intros tok' Hret. cbn [freshFrom] in Hf.
  rewrite (tokensOf_cons _ _ _ _ _ Hm Htok) in Hf.
  change (tokensOf []) with (@nil string) in Hf.
  rewrite Hret in Hf. apply andb_true_iff in Hf as [Hf _].
  by apply bool_decide_eq_true_1 in Hf.
Qed.

(** A wait that ends reading the token [t]: no mutation carried it. *)
Lemma freshFrom_wait arn seen evs0 ev t :
  Forall (waitEvent arn) (evs0 ++ [ev]) → returnedToken ev = Some t →
  freshFrom seen (evs0 ++ [ev]) = true → t ∉ seen.
Proof.
  intros Hall Hret Hf.
  rewrite freshFrom_app in Hf. apply andb_true_iff in Hf as [_ Hf].
  apply Forall_app in Hall as [Hall0 Hall1].
  rewrite (tokensOf_wait _ _ Hall0), app_nil_r in Hf.
  cbn [freshFrom] in Hf. rewrite (tokensOf_wait _ _ Hall1), app_nil_r, Hret in Hf.
  apply andb_true_iff in Hf as [Hf _]. by apply bool_decide_eq_true_1 in Hf.
Qed.

Lemma scalarRun_fresh d ss tok evs r n :
  rankedFrom n ss → scalarRun d ss tok evs r →
  keepsFresh tok evs (match r with Next tok' => Some tok' | _ => None end).
Proof.
  intros Hr Hrun. revert n Hr.
  induction Hrun as [tok|s ss tok evs r Hc Hrun IH|s ss tok t evs r Hc Hrun IH
                     |s ss tok o err Hc|s ss tok o Hc Ho];
    intros n Hr.
  - apply keepsFresh_nil.
  - destruct Hr as (_ & _ & Hr). by eapply IH.
  - destruct Hr as (H0 & Hlt & Hr). destruct (H0 tok) as [Hrk Htok].
    change (?ev :: evs) with ([ev] ++ evs)%list.
    eapply keepsFresh_app; [|by eapply IH].
    rewrite <- (returnedToken_stage s tok t n Hrk Hlt).
    apply keepsFresh_call; [by eapply rank_isMutation|done].
  - destruct Hr as (H0 & Hlt & Hr). destruct (H0 tok) as [Hrk Htok].
    eapply keepsFresh_weaken, keepsFresh_call; [by eapply rank_isMutation|done].
  - destruct Hr as (H0 & Hlt & Hr). destruct (H0 tok) as [Hrk Htok].
    eapply keepsFresh_weaken, keepsFresh_call; [by eapply rank_isMutation|done].
Qed.

(** A mutation whose response the pass does not read, followed by a wait. *)
Lemma keepsFresh_call_wait arn tok req o e wevs held :
  isMutation req = true → tokenOf req = Some tok →
  returnedToken (Call req o e) = None →
  Forall (waitEvent arn) wevs →
  (∀ t, held = Some t → ∃ evs0 ev, wevs = (evs0 ++ [ev])%list
                                   ∧ returnedToken ev = Some t) →
  keepsFresh tok (Call req o e :: wevs) held.
Proof.
  intros Hm Htok Hret Hall Hheld seen Hnd Hnin Hf.
  rewrite (tokensOf_cons _ _ _ _ _ Hm Htok), (tokensOf_wait _ _ Hall).
  split; [by apply NoDup_snoc|].
  intros t Ht. destruct (Hheld t Ht) as (evs0 & ev & -> & Hev).
  cbn [freshFrom] in Hf. rewrite Hret in Hf.
  rewrite (tokensOf_cons _ _ _ _ _ Hm Htok) in Hf.
  change (tokensOf []) with (@nil string) in Hf. simpl in Hf.
  by eapply freshFrom_wait.
Qed.

Lemma associateRun_fresh d add tok evs r :
  associateRun d add tok evs r →
  keepsFresh tok evs (match r with Next tok' => Some tok' | _ => None end).
Proof.
  destruct 1 as [Ha|o err Ha|o wevs t err Ha Hw|o wevs t Ha Hw].
  - apply keepsFresh_nil.
  - eapply keepsFresh_weaken, keepsFresh_call; done.
  - apply waitRun_inv in Hw as (Hall & _).
    eapply keepsFresh_call_wait; [done|done|apply returnedToken_associate|done|done].
  - apply waitRun_inv in Hw as (Hall & _ & Hready).
    destruct (Hready eq_refl) as (evs0 & ev & -> & Hev).
    eapply keepsFresh_call_wait; [done|done|apply returnedToken_associate|done|].
    intros t' [= <-]. exists evs0, ev. split; [done|].
    by eapply returnedToken_readyRead.
Qed.

Lemma disassociateRun_fresh d rem tok evs r :
  disassociateRun d rem tok evs r → keepsFresh tok evs None.
Proof.
  destruct 1 as [Ha|o err Ha Hi|o err Ha Hi|o wevs t err Ha Hw|o wevs t Ha Hw].
  - eapply keepsFresh_weaken, keepsFresh_nil.
  - eapply keepsFresh_weaken, keepsFresh_call; done.
  - eapply keepsFresh_weaken, keepsFresh_call; done.
  - apply waitRun_inv in Hw as (Hall & _).
    eapply keepsFresh_call_wait;
      [done|done|apply returnedToken_disassociate|done|done].
  - apply waitRun_inv in Hw as (Hall & _).
    eapply keepsFresh_call_wait;
      [done|done|apply returnedToken_disassociate|done|done].
Qed.

Lemma subnetRun_fresh d tok evs r : subnetRun d tok evs r → keepsFresh tok evs None.
Proof.
  destruct 1 as [Hc|Hc Hd|rem add evs diags Hc Hd Ha
                 |rem add evs1 tok' evs2 r Hc Hd Ha Hdis].
  - eapply keepsFresh_weaken, keepsFresh_nil.
  - eapply keepsFresh_weaken, keepsFresh_nil.
  - by apply associateRun_fresh in Ha.
  - eapply keepsFresh_app; [by apply associateRun_fresh in Ha|].
    by eapply disassociateRun_fresh.
Qed.

Lemma keepsFresh_app_read tok evs held o e arn :
  keepsFresh tok evs held →
  keepsFresh tok (evs ++ [Call (DescribeFirewallInput arn) o e]) None.
Proof.
  intros H seen Hnd Hnin Hf.
  rewrite freshFrom_app in Hf. apply andb_true_iff in Hf as [Hf _].
  rewrite tokensOf_app. change (tokensOf [Call _ o e]) with (@nil string).
  rewrite app_nil_r. by destruct (H seen Hnd Hnin Hf).
Qed.

Lemma updateRun_fresh d evs r :
  updateRun d evs r → keepsFresh (Get update_token d) evs None.
Proof.
  destruct 1 as [evs diags Hs|evs Hs|evs1 tok evs2 diags Hs Hn
                 |evs1 tok evs2 Hs Hn|evs1 tok evs2 evs3 r Hs Hn Hr];
    pose proof (scalarRun_fresh _ _ _ _ _ 0 (scalarStages_ranked d) Hs) as H1;
    try done.
  - eapply keepsFresh_app; [exact H1|by eapply subnetRun_fresh].
  - eapply keepsFresh_app; [exact H1|by eapply subnetRun_fresh].
  - apply readRun_inv in Hr as (o & e & ->). rewrite app_assoc.
    eapply keepsFresh_app_read, keepsFresh_app; [exact H1|by eapply subnetRun_fresh].
Qed.

Lemma scalarRun_success d ss tok evs r pre req o e post :
  scalarRun d ss tok evs r →
  evs = (pre ++ Call req o e :: post)%list →
  (post ≠ [] ∨ ∃ tok', r = Next tok') →
  ∃ t, o = Some (OutUpdate t) ∧ e = None.
Proof.
  intros Hrun. revert pre.
  induction Hrun as [tok|s0 ss tok evs r Hc Hrun IH|s0 ss tok t evs r Hc Hrun IH
                     |s0 ss tok o' err' Hc|s0 ss tok o' Hc Ho];
    intros pre Heq Hmore.
  - by destruct pre.
  - by eapply IH.
  - destruct pre as [|ev pre].
    + injection Heq as _ <- <- _. by exists t.
    + injection Heq as _ Heq. by eapply IH.
  - destruct pre as [|ev pre]; [|by destruct pre].
    injection Heq as _ _ _ <-. by destruct Hmore as [?|[? ?]].
  - destruct pre as [|ev pre]; [|by destruct pre].
    injection Heq as _ _ _ <-. by destruct Hmore as [?|[? ?]].
Qed.

(** An update pass by its parts: the events of the scalar blocks, then
    the rest, whose mutations are those of the subnets. *)
Lemma updateRun_parts d evs r :
  updateRun d evs r →
  ∃ evs1 r1 rest,
    evs = (evs1 ++ rest)%list
    ∧ scalarRun d (scalarStages d) (Get update_token d) evs1 r1
    ∧ Forall (λ q, 7 ≤ rank q)%nat (mutationsOf rest)
    ∧ (rest = [] ∨ ∃ tok, r1 = Next tok).
Proof.
  destruct 1 as [evs diags Hs|evs Hs|evs1 tok evs2 diags Hs Hn
                 |evs1 tok evs2 Hs Hn|evs1 tok evs2 evs3 r Hs Hn Hr].
  - exists evs, (Return diags), []. rewrite app_nil_r.
    split_and!; [done|done|constructor|by left].
  - exists evs, Panic, []. rewrite app_nil_r.
    split_and!; [done|done|constructor|by left].
  - exists evs1, (Next tok), evs2.
    split_and!; [done|done|by apply subnetRun_ranks in Hn as [_ ?]|right; by eexists].
  - exists evs1, (Next tok), evs2.
    split_and!; [done|done|by apply subnetRun_ranks in Hn as [_ ?]|right; by eexists].
  - exists evs1, (Next tok), (evs2 ++ evs3)%list.
    split_and!; [done|done| |right; by eexists].
    apply readRun_inv in Hr as (o & e & ->). rewrite mutationsOf_app.
    change (mutationsOf [Call _ o e]) with (@nil Request). rewrite app_nil_r.
    by apply subnetRun_ranks in Hn as [_ ?].
Qed.

(** C1: within an update pass every mutation carries the update token
    held when it is issued: the [update_token] of the resource at first,
    replaced by the token in the response of each successful scalar
    mutation and by the token the wait after an association reads. A
    scalar mutation that is followed by another mutation succeeded, and
    that next mutation carries the token of its response. So when the
    service hands out fresh tokens, no two mutations of the pass carry the
    same token. *)
Theorem update_tokens (d : ResourceData) (w : W) :
  let evs := trace (resourceFirewallUpdate d (start w)).2 in
  carriesHeld (Get update_token d) evs
  ∧ (∀ pre req o e ev post req',
       evs = (pre ++ Call req o e :: ev :: post)%list →
       isScalar req = true → mutationOf ev = Some req' →
       ∃ t, o = Some (OutUpdate t) ∧ e = None
            ∧ tokenOf req' = Some (StringValue t))
  ∧ (freshFrom [] evs = true → NoDup (tokensOf evs)).
Proof.
  destruct (resourceFirewallUpdate_sound d (start w)) as (evs & r & st' & Hr & Hrun).
  apply runs_start in Hr as [_ ->]. cbv zeta.
  pose proof (updateRun_chain _ _ _ Hrun) as Hchain.
  split_and!; [done| |].
  - intros pre req o e ev post req' Heq Hsc Hm.
    assert (∃ t, o = Some (OutUpdate t) ∧ e = None) as (t & -> & ->).
    { apply updateRun_parts in Hrun as (evs1 & r1 & rest & -> & Hs & Hall & Hrest).
      apply app_cons_split in Heq as [(post1 & Heq & Hpost)|(pre2 & Heq & _)].
      - eapply scalarRun_success; [exact Hs|exact Heq|].
        destruct post1 as [|? ?]; [|by left]. right.
        destruct Hrest as [->|?]; [done|done].
      - rewrite Heq, mutationsOf_app in Hall.
        apply Forall_app in Hall as [_ Hall].
        apply bool_decide_eq_true_1 in Hsc.
        rewrite mutationsOf_cons_mutation in Hall
          by (apply bool_decide_eq_true_2; lia).
        apply Forall_cons in Hall as [Hall _]. lia. }
    exists t. split_and!; [done..|].
    assert (evs = ((pre ++ [Call req (Some (OutUpdate t)) None]) ++ ev :: post)%list)
      as Heq' by by rewrite <- app_assoc.
    rewrite (Hchain _ _ _ _ Heq' Hm), heldAfter_app. simpl.
    by destruct req; rewrite ?Hsc.
  - intros Hf.
    destruct (updateRun_fresh _ _ _ Hrun [] (NoDup_nil_2) (not_elem_of_nil _) Hf)
      as [Hnd _].
    done.
Qed.

(** ** The wait after an association *)

Lemma mutationOf_call req o e :
  isMutation req = true → mutationOf (Call req o e) = Some req.
Proof. intros H. simpl. by rewrite H. Qed.

Lemma mutationsOf_cons_Some ev evs req :
  mutationOf ev = Some req → mutationsOf (ev :: evs) = req :: mutationsOf evs.
Proof. intros H. unfold mutationsOf. simpl. by rewrite H. Qed.

Lemma mutationsOf_split_nil evs pre ev post req :
  evs = (pre ++ ev :: post)%list → mutationOf ev = Some req →
  mutationsOf evs ≠ [].
Proof.
  intros -> Hm. rewrite mutationsOf_app, (mutationsOf_cons_Some _ _ _ Hm).
  by destruct (mutationsOf pre).
Qed.

Lemma mutationsOf_singleton_split evs q pre ev post req :
  mutationsOf evs = [q] →
  evs = (pre ++ ev :: post)%list → mutationOf ev = Some req →
  req = q ∧ mutationsOf pre = [] ∧ mutationsOf post = [].
Proof.
  intros Hq -> Hm.
  rewrite mutationsOf_app, (mutationsOf_cons_Some _ _ _ Hm) in Hq.
  destruct (mutationsOf pre) as [|q' [|q'' l]]; simpl in Hq.
  - injection Hq as -> ->. done.
  - injection Hq as _ Hq. done.
  - injection Hq as _ Hq. done.
Qed.

Lemma associateRun_associated d add tok evs r pre arn add' tok' o post :
  associateRun d add tok evs r →
  evs = (pre ++ Call (AssociateSubnetsInput arn add' tok') o None :: post)%list →
  pre = [] ∧ ∃ t werr, waitRun d post (t, werr)
                       ∧ match werr with
                         | None => r = Next t
                         | Some _ => ∃ diags, r = Return diags
                         end.
Proof.
  destruct 1 as [Ha|o' err Ha|o' wevs t err Ha Hw|o' wevs t Ha Hw]; intros Heq.
  - by destruct pre.
  - destruct pre as [|? pre]; [done|by destruct pre].
  - destruct pre as [|? pre].
    + injection Heq as _ _ _ _ <-. split; [done|]. exists t, (Some err).
      split; [done|]. by eexists.
    + injection Heq as _ Heq.
      by pose proof (wait_not_failed _ _ _ _ _ _ _ _ Hw Heq).
  - destruct pre as [|? pre].
    + injection Heq as _ _ _ _ <-. split; [done|]. by exists t, None.
    + injection Heq as _ Heq.
      by pose proof (wait_not_failed _ _ _ _ _ _ _ _ Hw Heq).
Qed.

Lemma disassociateRun_head d rem tok evs r :
  disassociateRun d rem tok evs r →
  evs = []
  ∨ ∃ o e tail, evs = Call (DisassociateSubnetsInput (Id d) rem tok) o e :: tail
                ∧ mutationsOf tail = [].
Proof.
  destruct 1 as [Ha|o err Ha Hi|o err Ha Hi|o wevs t err Ha Hw|o wevs t Ha Hw].
  - by left.
  - right. by eexists _, _, [].
  - right. by eexists _, _, [].
  - right. apply waitRun_inv in Hw as (Hall & _).
    eexists _, _, wevs. split; [done|]. by eapply mutationsOf_wait.
  - right. apply waitRun_inv in Hw as (Hall & _).
    eexists _, _, wevs. split; [done|]. by eapply mutationsOf_wait.
Qed.

(** After a successful association comes its wait, and the
    disassociation, when one follows, comes right after that wait and
    carries the token the wait returned. *)
Lemma updateRun_associated d evs r pre arn add tok o post :
  updateRun d evs r →
  evs = (pre ++ Call (AssociateSubnetsInput arn add tok) o None :: post)%list →
  ∃ wevs t werr rest,
    post = (wevs ++ rest)%list
    ∧ waitRun d wevs (t, werr)
    ∧ (∀ pre2 req o' e' post',
         rest = (pre2 ++ Call req o' e' :: post')%list → isMutation req = true →
         werr = None ∧ pre2 = []
         ∧ ∃ rem, req = DisassociateSubnetsInput (Id d) rem t).
Proof.
  intros Hrun Heq.
  assert (∀ evs1 r1 evs2 r2 tok1 evs3,
            scalarRun d (scalarStages d) (Get update_token d) evs1 r1 →
            subnetRun d tok1 evs2 r2 →
            mutationsOf evs3 = [] →
            evs = (evs1 ++ evs2 ++ evs3)%list →
            ∃ wevs t werr rest,
              post = (wevs ++ rest)%list
              ∧ waitRun d wevs (t, werr)
              ∧ (∀ pre2 req o' e' post',
                   rest = (pre2 ++ Call req o' e' :: post')%list →
                   isMutation req = true →
                   werr = None ∧ pre2 = []
                   ∧ ∃ rem, req = DisassociateSubnetsInput (Id d) rem t)) as Hgo.
  { intros evs1 r1 evs2 r2 tok1 evs3 Hs Hn H3 Hevs. rewrite Hevs in Heq.
    apply app_cons_split in Heq as [(post1 & Heq & _)|(pre2 & Heq & _)].
    { destruct (scalarRun_mutations _ _ _ _ _ 0 (scalarStages_ranked d) Hs)
        as [_ Hall].
      rewrite Heq, mutationsOf_app, mutationsOf_cons_mutation in Hall by done.
      apply Forall_app in Hall as [_ Hall]. apply Forall_cons in Hall as [Hall _].
      simpl in Hall. lia. }
    apply app_cons_split in Heq as [(post1 & Heq & ->)|(pre3 & Heq & _)].
    2:{ by destruct (mutationsOf_split_nil _ _ _ _ _ Heq eq_refl). }
    destruct Hn as [Hc|Hc Hd|rem add0 evs2 diags Hc Hd Ha
                    |rem add0 evs2a tok' evs2b r2 Hc Hd Ha Hdis].
    - by destruct pre2.
    - by destruct pre2.
    - destruct (associateRun_associated _ _ _ _ _ _ _ _ _ _ _ Ha Heq)
        as (-> & t & werr & Hw & Hres).
      exists post1, t, werr, evs3. split_and!; [done..|].
      intros pre4 req o' e' post' -> Hm.
      by destruct (mutationsOf_split_nil _ _ _ _ req eq_refl
                     (mutationOf_call _ _ _ Hm) H3).
    - apply app_cons_split in Heq as [(post2 & Heq & ->)|(pre4 & Heq & _)].
      2:{ apply disassociateRun_mutations in Hdis as [[Hdis _]|[Hdis _]].
          - by destruct (mutationsOf_split_nil _ _ _ _ _ Heq eq_refl).
          - by destruct (mutationsOf_singleton_split _ _ _ _ _ _ Hdis Heq eq_refl). }
      destruct (associateRun_associated _ _ _ _ _ _ _ _ _ _ _ Ha Heq)
        as (-> & t & werr & Hw & Hres).
      exists post2, t, werr, (evs2b ++ evs3)%list.
      split_and!; [by rewrite app_assoc|done|].
      destruct werr as [err|]; [by destruct Hres|].
      injection Hres as ->.
      intros pre5 req o' e' post' Hrest Hm.
      apply app_cons_split in Hrest as [(post3 & Hrest & _)|(pre6 & Hrest & _)].
      2:{ by destruct (mutationsOf_split_nil _ _ _ _ req Hrest
                         (mutationOf_call _ _ _ Hm) H3). }
      apply disassociateRun_head in Hdis as [->|(o2 & e2 & tail & -> & Htail)];
        [by destruct pre5|].
      destruct pre5 as [|ev pre5].
      + injection Hrest as <- _ _ _. split_and!; [done..|]. by exists rem.
      + injection Hrest as _ Hrest.
        by destruct (mutationsOf_split_nil _ _ _ _ req Hrest
                       (mutationOf_call _ _ _ Hm) Htail). }
  destruct Hrun as [evs diags Hs|evs Hs|evs1 tok1 evs2 diags Hs Hn
                    |evs1 tok1 evs2 Hs Hn|evs1 tok1 evs2 evs3 r Hs Hn Hr].
  - exfalso.
    destruct (scalarRun_mutations _ _ _ _ _ 0 (scalarStages_ranked d) Hs)
      as [_ Hall].
    rewrite Heq, mutationsOf_app, mutationsOf_cons_mutation in Hall by done.
    apply Forall_app in Hall as [_ Hall]. apply Forall_cons in Hall as [Hall _].
    simpl in Hall. lia.
  - exfalso.
    destruct (scalarRun_mutations _ _ _ _ _ 0 (scalarStages_ranked d) Hs)
      as [_ Hall].
    rewrite Heq, mutationsOf_app, mutationsOf_cons_mutation in Hall by done.
    apply Forall_app in Hall as [_ Hall]. apply Forall_cons in Hall as [Hall _].
    simpl in Hall. lia.
  - eapply (Hgo evs1 _ evs2 _ tok1 []); [done|done|done|by rewrite app_nil_r].
  - eapply (Hgo evs1 _ evs2 _ tok1 []); [done|done|done|by rewrite app_nil_r].
  - apply readRun_inv in Hr as (o' & e' & ->).
    eapply (Hgo evs1 _ evs2 _ tok1 [Call (DescribeFirewallInput (Id d)) o' e']);
      [done|done|done|done].
Qed.

Lemma waitFirewallCreated_runs timeout arn st :
  ∃ evs r st',
    runs (waitFirewallCreated timeout arn) st evs r st'
    ∧ Forall (waitEvent arn) evs ∧ startsWithPoll evs.
Proof.
  destruct (WaitForStateContext_runs arn (createdConf timeout arn) st eq_refl)
    as (evs & r & st' & Hr & Hall & _ & _ & Hfirst & _).
  unfold waitFirewallCreated.
  exists evs,
    (match r.1 with
     | Some output => (Some (FoundFirewall_Firewall output), r.2)
     | None => (None, r.2)
     end), st'.
  split_and!; [|done|by apply Hfirst].
  rewrite <- (app_nil_r evs). eapply runs_bind; [exact Hr|].
  destruct r as [[out|] err]; apply runs_ret.
Qed.

Lemma waitFirewallDeleted_runs timeout arn st :
  ∃ evs r st',
    runs (waitFirewallDeleted timeout arn) st evs r st'
    ∧ Forall (waitEvent arn) evs ∧ startsWithPoll evs
    ∧ (∀ pre o e post,
         evs = (pre ++ Call (DescribeFirewallInput arn) o e :: post)%list →
         ErrCodeEquals e ErrCodeResourceNotFoundException = true →
         post = [] ∧ r = (None, None)).
Proof.
  destruct (WaitForStateContext_runs arn (deletedConf timeout arn) st eq_refl)
    as (evs & r & st' & Hr & Hall & _ & _ & Hfirst & Habs).
  unfold waitFirewallDeleted.
  exists evs,
    (match r.1 with
     | Some output => (Some (FoundFirewall_Firewall output), r.2)
     | None => (None, r.2)
     end), st'.
  split_and!; [|done|by apply Hfirst|].
  { rewrite <- (app_nil_r evs). eapply runs_bind; [exact Hr|].
    destruct r as [[out|] err]; apply runs_ret. }
  intros pre o e post Heq Hnf.
  destruct (Habs eq_refl pre o e post Heq Hnf) as [-> ->]. done.
Qed.

(** C3: after a successful association of subnets the pass waits: the
    events that follow begin with the sleep of 30 seconds that precedes
    the first poll of this wait; when a disassociation follows, only
    events of the wait lie between, the last of them a describe that
    found the firewall in the status READY, and the disassociation
    carries the update token which that describe read, whatever token
    the response of the association held. The wait for an update has
    PROVISIONING as its pending and READY as its target status and a
    delay of 30 seconds; the waits of create and delete have no delay,
    and their first event is a poll. *)
Theorem update_associate_wait (d : ResourceData) (w : W) pre arn add tok o post :
  trace (resourceFirewallUpdate d (start w)).2
    = (pre ++ Call (AssociateSubnetsInput arn add tok) o None :: post)%list →
  (∃ post', post = Sleep (30 * Second) :: post')
  ∧ (∀ mid arn' ids tok' o' e' post',
       post = (mid ++ Call (DisassociateSubnetsInput arn' ids tok') o' e' :: post')%list →
       Forall (waitEvent (Id d)) mid
       ∧ ∃ mid0 ev, mid = (mid0 ++ [ev])%list ∧ readyRead (Id d) tok' ev)
  ∧ (∀ timeout a w',
       Delay (updatedConf timeout a) = 30 * Second
       ∧ Pending (updatedConf timeout a) = [FirewallStatusValueProvisioning]
       ∧ Target (updatedConf timeout a) = [FirewallStatusValueReady]
       ∧ Delay (createdConf timeout a) = 0
       ∧ Delay (deletedConf timeout a) = 0
       ∧ startsWithPoll (trace (waitFirewallCreated timeout a (start w')).2)
       ∧ startsWithPoll (trace (waitFirewallDeleted timeout a (start w')).2)).
Proof.
  intros Heq.
  destruct (resourceFirewallUpdate_sound d (start w)) as (evs & r & st' & Hr & Hrun).
  apply runs_start in Hr as [_ Ht]. rewrite Ht in Heq.
  destruct (updateRun_associated _ _ _ _ _ _ _ _ _ Hrun Heq)
    as (wevs & t & werr & rest & -> & Hw & Hrest).
  pose proof (waitRun_inv _ _ _ Hw) as (Hall & [wevs' ->] & Hready).
  split_and!.
  - by eexists.
  - intros mid arn' ids tok' o' e' post' Hpost.
    apply app_cons_split in Hpost as [(post1 & Hpost & _)|(pre2 & Hpost & ->)].
    { by pose proof (wait_not_failed _ _ _ _ _ _ _ _ Hw Hpost). }
    destruct (Hrest _ _ _ _ _ Hpost eq_refl) as (-> & -> & rem & [= -> -> ->]).
    rewrite app_nil_r. split; [done|]. by apply Hready.
  - intros timeout a w'. split_and!; try done.
    + destruct (waitFirewallCreated_runs timeout a (start w'))
        as (evs' & r' & st'' & Hr' & _ & Hfirst).
      by apply runs_start in Hr' as [_ ->].
    + destruct (waitFirewallDeleted_runs timeout a (start w'))
        as (evs' & r' & st'' & Hr' & _ & Hfirst & _).
      by apply runs_start in Hr' as [_ ->].
Qed.

(** ** Delete and read *)


Lemma FindFirewallByARN_NotFound arn st :
  ErrCodeEquals (invoke (DescribeFirewallInput arn) (remote st)).1.2
    ErrCodeResourceNotFoundException = true →
  NotFound (errOf (FindFirewallByARN arn st).1) = true.
Proof.
  intros H. unfold FindFirewallByARN, mbind, M_bind, call.
  destruct (invoke (DescribeFirewallInput arn) (remote st)) as [[o e] w1].
  simpl in *. by rewrite H.
Qed.


(** The read that follows a creation is the read of a new resource. *)
Lemma resourceFirewallCreate_read d st mappings fw st1 x st2 :
  expandSubnetMappings (List (Get subnet_mapping d)) = Some mappings →
  call (createFirewallInput d mappings) st
    = ((Some (OutCreateFirewall (Some fw)), None), st1) →
  waitFirewallCreated (TimeoutCreate d) (StringValue (FirewallArn fw)) st1
    = ((x, None), st2) →
  let d' := SetId (StringValue (FirewallArn fw)) d in
  resourceFirewallCreate d st
  = (Some (resourceFirewallRead d' st2).1, (resourceFirewallRead d' st2).2).
Proof.
  intros He Hc Hw d'.
  unfold resourceFirewallCreate. rewrite He. unfold mbind, M_bind.
  rewrite Hc. simpl. rewrite Hw. fold d'.
  by destruct (resourceFirewallRead d' st2).
Qed.

(** C10: when [FindFirewallByARN] reports the firewall as not found, the
    read of a resource that is not new clears the identifier and returns
    no diagnostic; the read of a new resource returns the diagnostic of
    the error and leaves the identifier, and so does a creation whose
    final read it is. *)
Theorem read_not_found (d : ResourceData) (st : St) :
  NotFound (errOf (FindFirewallByARN (Id d) st).1) = true →
  (IsNewResource d = false →
   (resourceFirewallRead d st).1 = ([], SetId "" d)
   ∧ Id (resourceFirewallRead d st).1.2 = "")
  ∧ (IsNewResource d = true →
     ∃ err, (FindFirewallByARN (Id d) st).1 = inl err
            ∧ (resourceFirewallRead d st).1
              = (failure "reading NetworkFirewall Firewall (%s): %s" d err, d))
  ∧ (∀ d0 st0 mappings fw st1 x,
       IsNewResource d0 = true →
       d = SetId (StringValue (FirewallArn fw)) d0 →
       expandSubnetMappings (List (Get subnet_mapping d0)) = Some mappings →
       call (createFirewallInput d0 mappings) st0
         = ((Some (OutCreateFirewall (Some fw)), None), st1) →
       waitFirewallCreated (TimeoutCreate d0) (StringValue (FirewallArn fw)) st1
         = ((x, None), st) →
       ∃ err, (resourceFirewallCreate d0 st0).1
              = Some (failure "reading NetworkFirewall Firewall (%s): %s" d err, d)).
Proof.
  intros Hnf.
  assert (IsNewResource d = true →
          ∃ err, (FindFirewallByARN (Id d) st).1 = inl err
                 ∧ (resourceFirewallRead d st).1
                   = (failure "reading NetworkFirewall Firewall (%s): %s" d err, d))
    as Hnew.
  { unfold resourceFirewallRead, mbind, M_bind.
    destruct (FindFirewallByARN (Id d) st) as [r st1]. simpl in *.
    rewrite Hnf. intros ->. simpl. destruct r as [err|out]; [|done]. by exists err. }
  split_and!; [|done|].
  - unfold resourceFirewallRead, mbind, M_bind.
    destruct (FindFirewallByARN (Id d) st) as [r st1]. simpl in *.
    rewrite Hnf. intros ->. done.
  - intros d0 st0 mappings fw st1 x Hd0 -> He Hc Hw.
    destruct (Hnew Hd0) as (err & _ & Hread). exists err.
    rewrite (resourceFirewallCreate_read _ _ _ _ _ _ _ He Hc Hw). simpl.
    by rewrite Hread.
Qed.


(** ** More on the expanders and the differ *)

Lemma flattenSubnetMappings_mapping sm :
  flattenSubnetMappings sm
  = mapping <$> ((fun s : SubnetMapping =>
                    (StringValue (SubnetId s), StringValue (IPAddressType s)))
                 <$> sm).
Proof. unfold flattenSubnetMappings. by rewrite <- list_fmap_compose. Qed.

Lemma expandOne_flat (sm : list SubnetMapping) :
  Forall (fun s => is_Some (SubnetId s) ∧ IPAddressType s ≠ Some "") sm →
  expandOne <$> ((fun s : SubnetMapping =>
                    (StringValue (SubnetId s), StringValue (IPAddressType s)))
                 <$> sm)
  = sm.
Proof.
  induction 1 as [|s sm [[id Hid] Ht] _ IH]; [done|].
  rewrite !fmap_cons, IH. f_equal.
  destruct s as [i [t|]]; simpl in Hid, Ht; subst i.
  + change (expandOne _)
      with {| SubnetId := Some id;
              IPAddressType := if bool_decide (t ≠ "") then Some t else None |}.
    rewrite bool_decide_eq_true_2; [done|]. by intros ->.
  + change (expandOne _)
      with {| SubnetId := Some id;
              IPAddressType := if bool_decide ("" ≠ "") then Some "" else None |}.
    by rewrite bool_decide_eq_false_2 by (intros H; by apply H).
Qed.

(** X1: what [flattenSubnetMappings] writes, [expandSubnetMappings] reads
    back without a panic, one mapping for each; the subnet IDs that
    [expandSubnetMappingIDs] reads back are those that are not empty. When
    every mapping has a subnet ID and none has an empty IP address type,
    the expansion of the flattened list is the list itself. *)
Theorem expandSubnetMappings_flatten (sm : list SubnetMapping) :
  (∃ ms, expandSubnetMappings (flattenSubnetMappings sm) = Some ms
         ∧ length ms = length sm)
  ∧ expandSubnetMappingIDs (flattenSubnetMappings sm)
    = filter (fun id => id ≠ "") ((fun s => StringValue (SubnetId s)) <$> sm)
  ∧ (Forall (fun s => is_Some (SubnetId s) ∧ IPAddressType s ≠ Some "") sm →
     expandSubnetMappings (flattenSubnetMappings sm) = Some sm).
Proof.
  rewrite flattenSubnetMappings_mapping, expandSubnetMappings_mapping.
  split_and!.
  - eexists. split; [done|]. by rewrite !length_fmap.
  - induction sm as [|s sm IH]; [done|].
    rewrite !fmap_cons, filter_cons. cbn [expandSubnetMappingIDs].
    pose proof (mapping_subnet_id (StringValue (SubnetId s),
                                   StringValue (IPAddressType s))) as Hid.
    destruct (mapping _) as [tfMap|?]; [|done]. rewrite Hid. simpl.
    destruct (decide (StringValue (SubnetId s) ≠ "")) as [Hne|He].
    + rewrite bool_decide_eq_true_2 by done. by rewrite IH.
    + by rewrite bool_decide_eq_false_2.
  - intros Hwf. f_equal. by apply expandOne_flat.
Qed.

(** X2: [expandSubnetMappings] panics exactly when some element of the
    list is a map whose [subnet_id] is missing or is no string; elements
    that are no maps are skipped, so the mappings it returns are as many
    as the maps of the list. *)
Theorem expandSubnetMappings_panic (l : list tfItem) :
  (expandSubnetMappings l = None
   ↔ ∃ tfMap, TfMap tfMap ∈ l ∧ asString (tfMap !! AttrSubnetID) = None)
  ∧ (∀ ms, expandSubnetMappings l = Some ms →
           length ms
           = length (omap (fun x => match x with
                                    | TfMap tfMap => Some tfMap
                                    | _ => None
                                    end) l)).
Proof.
  induction l as [|x l [IHp IHl]].
  - split; [|by intros ms [= <-]].
    split; [done|]. by intros (? & ?%elem_of_nil & _).
  - destruct x as [tfMap|v].
    + cbn [expandSubnetMappings].
      destruct (asString (tfMap !! AttrSubnetID)) as [id|] eqn:Hid.
      * destruct (expandSubnetMappings l) as [ms'|] eqn:He; simpl.
        -- split.
           ++ split; [done|]. intros (tfMap' & [[= <-]|Hin]%elem_of_cons & Hn).
              ** congruence.
              ** assert (Some ms' = None) as H; [|done].
                 apply IHp. by exists tfMap'.
           ++ intros ms [= <-]. simpl. f_equal. by apply IHl.
        -- split; [|done]. split; [|done]. intros _.
           destruct (proj1 IHp eq_refl) as (tfMap' & Hin & Hn).
           exists tfMap'. split; [by apply elem_of_cons; right|done].
      * split; [|done]. split; [|done]. intros _. exists tfMap.
        split; [by apply elem_of_cons; left|done].
    + cbn [expandSubnetMappings]. split.
      * rewrite IHp. split.
        -- intros (tfMap & Hin & Hn). exists tfMap.
           split; [by apply elem_of_cons; right|done].
        -- intros (tfMap & [[=]|Hin]%elem_of_cons & Hn). by exists tfMap.
      * intros ms He. simpl. by apply IHl.
Qed.

(** X3: on a list that [expandSubnetMappings] expands, the subnet IDs of
    [expandSubnetMappingIDs] are the subnet IDs of the expanded mappings
    that are not empty, in the same order; no ID it returns is empty. *)
Theorem expandSubnetMappingIDs_expand (l : list tfItem) (ms : list SubnetMapping) :
  expandSubnetMappings l = Some ms →
  expandSubnetMappingIDs l
  = filter (fun id => id ≠ "") ((fun s => StringValue (SubnetId s)) <$> ms)
  ∧ Forall (fun id => id ≠ "") (expandSubnetMappingIDs l).
Proof.
  intros He.
  assert (expandSubnetMappingIDs l
          = filter (fun id => id ≠ "") ((fun s => StringValue (SubnetId s)) <$> ms))
    as ->.
  2:{ split; [done|]. apply Forall_forall. by intros id [? _]%list_elem_of_filter. }
  revert ms He. induction l as [|x l IH]; intros ms He.
  - by injection He as <-.
  - destruct x as [tfMap|v]; cbn [expandSubnetMappings expandSubnetMappingIDs] in *;
      [|by apply IH].
    destruct (asString (tfMap !! AttrSubnetID)) as [id|]; [|done].
    destruct (expandSubnetMappings l) as [ms'|]; [|done]. simpl in He.
    injection He as <-. rewrite fmap_cons, filter_cons.
    assert (∀ m0 : SubnetMapping, SubnetId m0 = Some id →
              StringValue (SubnetId m0) = id) as Hsv by (by intros ? ->).
    rewrite Hsv by (by destruct (asString (tfMap !! "ip_address_type")) as [v|];
                      [destruct (bool_decide (v ≠ ""))|]).
    destruct (decide (id ≠ "")) as [Hne|Hn].
    + rewrite bool_decide_eq_true_2 by done. by rewrite (IH ms').
    + rewrite bool_decide_eq_false_2 by done. by apply IH.
Qed.

Lemma List_m s s' : m s = m s' → List s = List s'.
Proof. intros H. unfold List, listCode. by rewrite H. Qed.

Lemma Difference_same s s' : m s = m s' → m (Difference s s') = ∅.
Proof.
  intros H. unfold Difference. simpl. rewrite H.
  apply map_empty_filter. apply map_Forall_lookup. intros k v Hk. simpl.
  by rewrite Hk.
Qed.

Lemma List_m_empty s : m s = ∅ → List s = [].
Proof.
  intros H. apply List_empty. unfold Len. rewrite H. apply map_size_empty.
Qed.

(** X4: on two sets that are equal as sets the differ finds nothing to
    remove and nothing to add, whatever their elements are. *)
Theorem subnetMappingsDiff_equal (old new : Set_) :
  Equal old new = true → subnetMappingsDiff old new = Some ([], []).
Proof.
  intros Heq%bool_decide_eq_true. unfold subnetMappingsDiff.
  destruct (decide (Len old = 0%nat)) as [H0|H0].
  - rewrite bool_decide_eq_true_2 by done.
    assert (Len new = 0%nat) as H0' by (unfold Len in *; by rewrite <- Heq).
    by rewrite (List_empty _ H0').
  - rewrite bool_decide_eq_false_2 by done.
    assert (Len new ≠ 0%nat) as H0' by (unfold Len in *; by rewrite <- Heq).
    rewrite bool_decide_eq_false_2 by done.
    rewrite (List_m new old) by done.
    rewrite (List_m_empty (Difference (NewSet subnetMappingsHash (List old)) _))
      by (by apply Difference_same).
    rewrite (List_m_empty (Difference new old)) by (by apply Difference_same).
    done.
Qed.


Lemma lookup_NewSet_iff f l k v :
  collision_free f l →
  m (NewSet f l) !! k = Some v ↔ v ∈ l ∧ codeOf f v = k.
Proof.
  intros Hcf. split; [apply lookup_NewSet|]. intros [Hv <-].
  destruct (lookup_NewSet_elem f l v Hv) as [v' Hv']. rewrite Hv'. f_equal.
  destruct (lookup_NewSet _ _ _ _ Hv') as [Hin Hc].
  by apply (collision_free_inj f l).
Qed.

Lemma m_Difference_NewSet f (A B : list tfItem) :
  collision_free f (A ++ B)%list →
  m (Difference (NewSet f A) (NewSet f B))
  = m (NewSet f (filter (fun x => x ∉ B) A)).
Proof.
  intros Hcf. apply map_eq. intros k. apply option_eq. intros v.
  unfold Difference. cbn [m]. rewrite map_lookup_filter_Some. cbn [fst].
  rewrite !lookup_NewSet_iff; cycle 1.
  { apply (collision_free_subseteq f (A ++ B)%list); [|done].
    intros x [_ Hx]%list_elem_of_filter. apply elem_of_app. by left. }
  { apply (collision_free_subseteq f (A ++ B)%list); [|done].
    intros x Hx. apply elem_of_app. by left. }
  rewrite list_elem_of_filter. split.
  - intros [[Hv Hk] Hnone]. split_and!; [|done..]. intros HvB.
    destruct (lookup_NewSet_elem f B v HvB) as [y Hy]. congruence.
  - intros [[HvB Hv] Hk]. split_and!; [done..|].
    destruct (m (NewSet f B) !! k) as [y|] eqn:Hy; [|done].
    destruct (lookup_NewSet _ _ _ _ Hy) as [Hin Hc]. destruct HvB.
    assert (y = v) as <-; [|done].
    apply (collision_free_inj f (A ++ B)%list); [done| | |congruence];
      apply elem_of_app; auto.
Qed.

Lemma filter_mapping_notin (A B : list (string * string)) :
  filter (fun x => x ∉ mapping <$> B) (mapping <$> A)
  = mapping <$> filter (fun p => p ∉ B) A.
Proof.
  induction A as [|a A IH]; [done|].
  rewrite fmap_cons, !filter_cons, IH.
  destruct (decide (a ∉ B)) as [Ha|Ha].
  - rewrite decide_True; [done|].
    intros (p & Hp%mapping_inj & Hin)%list_elem_of_fmap. by subst.
  - rewrite decide_False; [done|]. intros Hn. apply Ha. intros Hin.
    by apply Hn, list_elem_of_fmap_2.
Qed.

Lemma filter_all {A} (P : A → Prop) `{∀ x, Decision (P x)} (l : list A) :
  Forall P l → filter P l = l.
Proof.
  induction 1 as [|x l Hx _ IH]; [done|].
  by rewrite filter_cons_True, IH.
Qed.

Lemma Len_List s : Len s = length (List s).
Proof.
  unfold Len. rewrite (Permutation_length (List_Permutation s)).
  by rewrite length_fmap, length_map_to_list.
Qed.

(** X5: the differ on two sets of subnet mappings, whatever they share:
    the additions are the new elements that are not among the old ones,
    and the removals are the subnet IDs of the old elements that are not
    among the new ones, an element being its subnet ID together with its
    IP address type. An element that is in both sets is neither removed
    nor added. Subnet IDs of old elements are non-empty and neither hash
    collides on the elements at hand. *)
Theorem subnetMappingsDiff_changes
    (HashResource : tfItem → Z) (olds news : list (string * string)) :
  NoDup olds → NoDup news →
  Forall (fun p => p.1 ≠ "") olds →
  collision_free HashResource (mapping <$> (olds ++ news)%list) →
  collision_free subnetMappingsHash (mapping <$> (olds ++ news)%list) →
  ∃ toRemove toAdd,
    subnetMappingsDiff (NewSet HashResource (mapping <$> olds))
                       (NewSet HashResource (mapping <$> news))
    = Some (toRemove, toAdd)
    ∧ toAdd ≡ₚ expandOne <$> filter (fun p => p ∉ olds) news
    ∧ toRemove ≡ₚ (filter (fun p => p ∉ news) olds).*1.
Proof.
  intros Hndo Hndn Hids HcfF Hcfh.
  destruct (List_NewSet_mapping HashResource (olds ++ news) olds)
    as (po & HLo & Hpo); [done|set_solver|done|].
  destruct (List_NewSet_mapping HashResource (olds ++ news) news)
    as (pn & HLn & Hpn); [done|set_solver|done|].
  assert (∀ f, collision_free f (mapping <$> (olds ++ news)%list) →
               ∀ A B : list (string * string), A ⊆ (olds ++ news)%list → B ⊆ (olds ++ news)%list →
               collision_free f ((mapping <$> A) ++ (mapping <$> B))%list) as Hsubcf.
  { intros f Hcf A B HA HB. apply (collision_free_subseteq f _ _ ) with (2 := Hcf).
    intros x [(p & -> & Hp)%list_elem_of_fmap|(p & -> & Hp)%list_elem_of_fmap]%elem_of_app;
      apply list_elem_of_fmap_2; auto. }
  assert (Forall (fun p : string * string => p.1 ≠ "") po) as Hidspo by (by rewrite Hpo).
  remember (subnetMappingsDiff (NewSet HashResource (mapping <$> olds))
                               (NewSet HashResource (mapping <$> news)))
    as r eqn:Hr.
  unfold subnetMappingsDiff in Hr.
  rewrite !Len_List, HLo, HLn, !length_fmap in Hr.
  destruct po as [|p0 po'].
  { apply Permutation_nil_l in Hpo as <-. simpl in Hr.
    rewrite expandSubnetMappings_mapping in Hr. simpl in Hr.
    eexists _, _. split; [done|]. split; [|done].
    rewrite filter_all by (apply Forall_forall; intros ? _ ?%elem_of_nil; done).
    by rewrite Hpn. }
  rewrite bool_decide_eq_false_2 in Hr by done.
  destruct pn as [|p1 pn'].
  { apply Permutation_nil_l in Hpn as <-.
    rewrite bool_decide_eq_true_2 in Hr by done.
    eexists _, _. split; [done|]. split; [done|].
    rewrite filter_all by (apply Forall_forall; intros ? _ ?%elem_of_nil; done).
    rewrite (expandSubnetMappingIDs_mapping (p0 :: po')) by done. by rewrite Hpo. }
  rewrite bool_decide_eq_false_2 in Hr by done.
  (* the additions *)
  assert (List (Difference (NewSet HashResource (mapping <$> news))
                           (NewSet HashResource (mapping <$> olds)))
          = List (NewSet HashResource (mapping <$> filter (fun p => p ∉ olds) news)))
    as HLadd.
  { apply List_m. rewrite m_Difference_NewSet, filter_mapping_notin; [done|].
    apply Hsubcf; [done|set_solver..]. }
  destruct (List_NewSet_mapping HashResource (olds ++ news)
              (filter (fun p => p ∉ olds) news))
    as (pa & HLa & Hpa); [by apply NoDup_filter| |done|].
  { intros x [_ Hx]%list_elem_of_filter. set_solver. }
  (* the removals *)
  assert (List (Difference (NewSet subnetMappingsHash (mapping <$> p0 :: po'))
                           (NewSet subnetMappingsHash (mapping <$> p1 :: pn')))
          = List (NewSet subnetMappingsHash
                    (mapping <$> filter (fun p => p ∉ p1 :: pn') (p0 :: po'))))
    as HLrem.
  { apply List_m. rewrite m_Difference_NewSet, filter_mapping_notin; [done|].
    apply Hsubcf; [done|rewrite Hpo; set_solver|rewrite Hpn; set_solver]. }
  destruct (List_NewSet_mapping subnetMappingsHash (olds ++ news)
              (filter (fun p => p ∉ p1 :: pn') (p0 :: po')))
    as (pr & HLr & Hpr); [apply NoDup_filter; by rewrite Hpo| |done|].
  { intros x [_ Hx]%list_elem_of_filter. rewrite Hpo in Hx. set_solver. }
  rewrite HLadd, HLa, HLrem, HLr, expandSubnetMappings_mapping in Hr.
  simpl in Hr.
  eexists _, _. split; [done|]. split; [by rewrite Hpa|].
  rewrite expandSubnetMappingIDs_mapping.
  - rewrite Hpr, Hpo. f_equiv.
    rewrite (list_filter_iff _ (fun p => p ∉ news)); [done|].
    intros x. by rewrite Hpn.
  - rewrite Hpr. apply Forall_forall. intros x [_ Hx]%list_elem_of_filter.
    by apply (proj1 (Forall_forall _ _) Hidspo).
Qed.


(** ** More on the flatteners, the finder and the read *)

(** X6: [flattenSyncStates] lists a map of sync states without loss: one
    entry for each availability zone of the map, no zone twice, each with
    the flattened attachment of its sync state, which holds one element
    at most; a nil map gives the empty list. *)
Theorem flattenSyncStates_entries (s : gmap string SyncState) :
  NoDup (availability_zone <$> flattenSyncStates (Some s))
  ∧ length (flattenSyncStates (Some s)) = size s
  ∧ (∀ x, x ∈ flattenSyncStates (Some s)
          ↔ ∃ v, s !! availability_zone x = Some v
                 ∧ attachment x = flattenSyncStateAttachment (SyncStateAttachment v))
  ∧ Forall (fun x => (length (attachment x) ≤ 1)%nat) (flattenSyncStates (Some s))
  ∧ flattenSyncStates None = [].
Proof.
  unfold flattenSyncStates. split_and!; [| | | |done].
  - rewrite <- list_fmap_compose.
    apply (NoDup_fmap_2_strong _ (map_to_list s)); [|apply NoDup_map_to_list].
    intros [k1 v1] [k2 v2] H1%elem_of_map_to_list H2%elem_of_map_to_list Hk.
    simpl in Hk. subst k2. congruence.
  - by rewrite length_fmap, length_map_to_list.
  - intros [az att]. rewrite list_elem_of_fmap. simpl. split.
    + intros ([k v] & [= -> ->] & Hkv%elem_of_map_to_list). by exists v.
    + intros (v & Hv & ->). exists (az, v). split; [done|].
      by apply elem_of_map_to_list.
  - apply Forall_fmap, Forall_forall. intros [k v] _. simpl.
    unfold flattenSyncStateAttachment. destruct (SyncStateAttachment v); simpl; lia.
Qed.

(** X7: a describe that is answered without error, but without the
    firewall or without its status, counts as a firewall that is not
    found: [FindFirewallByARN] returns the empty-result error, the status
    probe reports the firewall as absent without error, and the read
    drops a resource that is not new from the state without a diagnostic,
    while for a new resource it returns the error. *)
Theorem FindFirewallByARN_empty_result (arn : string) (st : St)
    (o : option Output) (w' : W) :
  invoke (DescribeFirewallInput arn) (remote st) = ((o, None), w') →
  (∀ fw fs tok,
     o ≠ Some (OutDescribeFirewall
                 {| OutputFirewall := Some fw; OutputFirewallStatus := Some fs;
                    OutputUpdateToken := tok |})) →
  (FindFirewallByARN arn st).1 = inl EmptyResultError
  ∧ (statusFirewall arn st).1 = (None, "", None)
  ∧ ∀ d, Id d = arn →
         (resourceFirewallRead d st).1
         = if IsNewResource d
           then (failure "reading NetworkFirewall Firewall (%s): %s" d
                   EmptyResultError, d)
           else ([], SetId "" d).
Proof.
  intros Hinv Ho.
  assert (FindFirewallByARN arn st
          = (inl EmptyResultError,
             {| remote := w';
                trace := (trace st ++ [Call (DescribeFirewallInput arn) o None])%list |}))
    as Hfind.
  { unfold FindFirewallByARN, mbind, M_bind, call. rewrite Hinv. simpl.
    destruct o as [[?|[[fw|] [fs|] tok]| |?]|]; try done. by destruct (Ho fw fs tok). }
  split_and!.
  - by rewrite Hfind.
  - unfold statusFirewall, mbind, M_bind. by rewrite Hfind.
  - intros d <-. unfold resourceFirewallRead, mbind, M_bind. rewrite Hfind.
    simpl. by destruct (IsNewResource d).
Qed.

(** X8: the status probe makes one describe call. It returns an error
    exactly when the call failed with an error that is neither a
    ResourceNotFoundException nor a not-found error, and then it returns
    that error as it is, with no result and an empty status; a result
    comes with the status of the firewall and without error. *)
Theorem statusFirewall_error (arn : string) (st : St) :
  let answer := (invoke (DescribeFirewallInput arn) (remote st)).1 in
  let r := (statusFirewall arn st).1 in
  trace (statusFirewall arn st).2
    = (trace st ++ [Call (DescribeFirewallInput arn) answer.1 answer.2])%list
  ∧ (∀ err, r.2 = Some err
            ↔ answer.2 = Some err
              ∧ ErrCodeEquals answer.2 ErrCodeResourceNotFoundException = false
              ∧ NotFound (Some err) = false)
  ∧ (∀ err, r.2 = Some err → r.1 = (None, ""))
  ∧ (∀ out, r.1.1 = Some out →
            r.2 = None
            ∧ r.1.2 = StringValue (Status (FoundFirewall_FirewallStatus out))).
Proof.
  cbv zeta. unfold statusFirewall, FindFirewallByARN, mbind, M_bind, call.
  destruct (invoke (DescribeFirewallInput arn) (remote st)) as [[o e] w1]. simpl.
  destruct (ErrCodeEquals e ErrCodeResourceNotFoundException) eqn:Hc; simpl.
  { split_and!; [done| |done|done]. intros err. split; [done|]. by intros (_ & ? & _). }
  destruct e as [e|]; simpl.
  { destruct e as [c msg|le| | | |];
      (split_and!; [done| |done|done]); intros err;
      (split; [try done; by intros [= <-]|by intros ([= <-] & _ & ?)]). }
  destruct o as [[?|[[fw|] [fs|] tok]| |?]|]; simpl;
    (split_and!; [done| |done|]; [by intros err; split; [|intros (? & _)]|]);
    try done.
  by intros out [= <-].
Qed.


(** X9: a read that finds the firewall returns no diagnostic and keeps
    the identifier, the prior state and the new-resource mark; the update
    token it stores is the one of the describe output, and the subnet
    mappings it stores expand again to the subnet mappings of the
    describe output, up to their order, when these are distinct, have a
    subnet ID each and no empty IP address type, and the hash of the set
    does not collide on them. *)
Theorem resourceFirewallRead_found (d : ResourceData) (st : St)
    (out : FoundFirewall) :
  (FindFirewallByARN (Id d) st).1 = inr out →
  let r := (resourceFirewallRead d st).1 in
  let sm := SubnetMappings (FoundFirewall_Firewall out) in
  r.1 = []
  ∧ Id r.2 = Id d ∧ IsNewResource r.2 = IsNewResource d ∧ state r.2 = state d
  ∧ Get update_token r.2 = StringValue (FoundFirewall_UpdateToken out)
  ∧ (NoDup sm →
     Forall (fun s => is_Some (SubnetId s) ∧ IPAddressType s ≠ Some "") sm →
     collision_free (F (Get subnet_mapping d)) (flattenSubnetMappings sm) →
     ∃ ms, expandSubnetMappings (List (Get subnet_mapping r.2)) = Some ms
           ∧ ms ≡ₚ sm).
Proof.
  intros Hfind. cbv zeta. unfold resourceFirewallRead, mbind, M_bind.
  destruct (FindFirewallByARN (Id d) st) as [r st1]. simpl in Hfind. subst r.
  rewrite andb_false_r. simpl. split_and!; [done..|].
  intros Hnd Hwf Hcf. unfold Get. simpl.
  rewrite flattenSubnetMappings_mapping in *.
  set (ps := (fun s : SubnetMapping =>
                (StringValue (SubnetId s), StringValue (IPAddressType s)))
             <$> SubnetMappings (FoundFirewall_Firewall out)) in *.
  pose proof (expandOne_flat _ Hwf) as Hflat. fold ps in Hflat.
  assert (NoDup ps) as Hndps.
  { apply (NoDup_fmap_1 expandOne). by rewrite Hflat. }
  destruct (List_NewSet_mapping (F (subnet_mapping (plan d))) ps ps)
    as (ps' & HL & Hps'); [done|done|done|].
  rewrite HL, expandSubnetMappings_mapping. eexists. split; [done|].
  by rewrite Hps', Hflat.
Qed.

(** ** More on the creation *)

Lemma resourceFirewallRead_new d st :
  IsNewResource d = true →
  Id (resourceFirewallRead d st).1.2 = Id d
  ∧ state (resourceFirewallRead d st).1.2 = state d.
Proof.
  intros Hnew. unfold resourceFirewallRead, mbind, M_bind.
  destruct (FindFirewallByARN (Id d) st) as [r st1]. rewrite Hnew. simpl.
  by destruct r.
Qed.

(** X10: a creation whose subnet mappings do not expand panics before
    any call. Otherwise its first event is the CreateFirewall call. When
    that call fails, nothing follows, the diagnostic names the firewall by
    its name, and the resource data is returned as it was, with no
    identifier set; when it is answered without error and without a
    firewall, the creation panics and nothing follows. *)
Theorem resourceFirewallCreate_first_call (d : ResourceData) (w : W) :
  let r := resourceFirewallCreate d (start w) in
  match expandSubnetMappings (List (Get subnet_mapping d)) with
  | None => r.1 = None ∧ trace r.2 = []
  | Some mappings =>
    ∃ o e rest,
      trace r.2 = Call (createFirewallInput d mappings) o e :: rest
      ∧ (∀ err, e = Some err →
           rest = []
           ∧ r.1 = Some (AppendErrorf [] "creating NetworkFirewall Firewall (%s): %s"
                           [ArgString (Get name d); ArgError err], d))
      ∧ (e = None → (∀ fw, o ≠ Some (OutCreateFirewall (Some fw))) →
         rest = [] ∧ r.1 = None)
  end.
Proof.
  cbv zeta. unfold resourceFirewallCreate.
  destruct (expandSubnetMappings (List (Get subnet_mapping d))) as [mappings|];
    [|done].
  unfold mbind, M_bind, call, start. cbn [remote trace].
  destruct (invoke (createFirewallInput d mappings) w) as [[o e] w1].
  cbn [fst snd app].
  destruct e as [err|].
  { exists o, (Some err), []. split_and!; [done| |done]. by intros ? [= <-]. }
  destruct o as [[[fw|]| | |]|];
    try (exists (@None Output), (@None error), []; by split_and!);
    try (eexists (Some _), None, []; split_and!; [done|done|];
         by intros _ Hn; try done).
  set (st1 := {| remote := w1; trace := _ |}).
  destruct (waitFirewallCreated_runs (TimeoutCreate d) (StringValue (FirewallArn fw)) st1)
    as (evs & [x werr] & st2 & [Hw Ht2] & _).
  assert (TimeoutCreate (SetId (StringValue (FirewallArn fw)) d) = TimeoutCreate d)
    as -> by done.
  assert (Id (SetId (StringValue (FirewallArn fw)) d) = StringValue (FirewallArn fw))
    as -> by done.
  rewrite Hw. cbn [fst snd].
  destruct werr as [werr|].
  { unfold mret, M_ret. cbn [fst snd].
    eexists _, _, evs. split_and!; [by rewrite Ht2|done|].
    intros _ Hn. by destruct (Hn fw). }
  destruct (resourceFirewallRead_runs (SetId (StringValue (FirewallArn fw)) d) st2)
    as (o' & e' & rr & st3 & [Hr Ht3]).
  rewrite Hr. unfold mret, M_ret. cbn [fst snd]. eexists _, _, _. split_and!.
  - rewrite Ht3, Ht2. done.
  - done.
  - intros _ Hn. by destruct (Hn fw).
Qed.

(** X11: a creation of a new resource whose CreateFirewall call is
    answered with a firewall sets the identifier to the ARN of that
    firewall and returns the resource data under it, whatever follows:
    the wait for the creation, which starts with a poll, and the final
    read. All events after the call are sleeps and describes of that ARN,
    so no mutation of an update is issued, and the diagnostics are none,
    or those of the wait, or those of the read. *)
Theorem resourceFirewallCreate_sets_id (d : ResourceData) (w w1 : W)
    (mappings : list SubnetMapping) (fw : Firewall) :
  IsNewResource d = true →
  expandSubnetMappings (List (Get subnet_mapping d)) = Some mappings →
  invoke (createFirewallInput d mappings) w
    = ((Some (OutCreateFirewall (Some fw)), None), w1) →
  let arn := StringValue (FirewallArn fw) in
  ∃ diags d' rest,
    (resourceFirewallCreate d (start w)).1 = Some (diags, d')
    ∧ Id d' = arn ∧ state d' = state d
    ∧ trace (resourceFirewallCreate d (start w)).2
      = Call (createFirewallInput d mappings)
             (Some (OutCreateFirewall (Some fw))) None :: rest
    ∧ Forall (waitEvent arn) rest
    ∧ startsWithPoll rest
    ∧ mutationsOf rest = []
    ∧ (diags = []
       ∨ (∃ err, diags = AppendErrorf []
                           "waiting for NetworkFirewall Firewall (%s) create: %s"
                           [ArgString arn; ArgError err])
       ∨ ∃ err, diags = AppendErrorf []
                          "reading NetworkFirewall Firewall (%s): %s"
                          [ArgString arn; ArgError err]).
Proof.
  intros Hnew He Hinv arn. unfold resourceFirewallCreate. rewrite He.
  unfold mbind, M_bind, call, start. cbn [remote trace]. rewrite Hinv.
  cbn [fst snd app].
  set (st1 := {| remote := w1; trace := _ |}).
  set (d1 := SetId (StringValue (FirewallArn fw)) d).
  destruct (waitFirewallCreated_runs (TimeoutCreate d) arn st1)
    as (evs & [x werr] & st2 & [Hw Ht2] & Hall & Hfirst).
  change (TimeoutCreate d1) with (TimeoutCreate d).
  change (Id d1) with arn. rewrite Hw. cbn [fst snd].
  destruct werr as [werr|].
  { unfold mret, M_ret. cbn [fst snd].
    exists (AppendErrorf [] "waiting for NetworkFirewall Firewall (%s) create: %s"
                         [ArgString arn; ArgError werr]), d1, evs.
    split_and!; [done|done|done|by rewrite Ht2|done|done| |].
    - by eapply mutationsOf_wait.
    - right; left. by exists werr. }
  destruct (resourceFirewallRead_runs d1 st2) as (o' & e' & rr & st3 & [Hr Ht3]).
  pose proof (resourceFirewallRead_new d1 st2 Hnew) as [HId Hstate].
  assert (readRun d1 [Call (DescribeFirewallInput (Id d1)) o' e'] rr) as Hread.
  { by exists st2, st3. }
  apply readRun_diags in Hread.
  rewrite Hr in HId, Hstate |- *. unfold mret, M_ret. cbn [fst snd] in *.
  destruct rr as [diags d']. cbn [fst snd] in *.
  exists diags, d', (evs ++ [Call (DescribeFirewallInput arn) o' e'])%list.
  assert (Forall (waitEvent arn) (evs ++ [Call (DescribeFirewallInput arn) o' e'])%list)
    as Hall'.
  { apply Forall_app. split; [done|]. by repeat constructor. }
  split_and!; [done|done|done|by rewrite Ht3, Ht2| | | |].
  - done.
  - destruct evs as [|[]]; done.
  - by eapply mutationsOf_wait.
  - destruct Hread as [->|[e ->]]; [by left|right; right; by exists e].
Qed.


(** ** More on the update pass *)

Lemma scalarStages_justified d s tok :
  s ∈ scalarStages d → changed s = true → justified d (input s tok).
Proof.
  unfold scalarStages. intros Hs Hc.
  repeat (apply elem_of_cons in Hs as [->|Hs]); try by apply elem_of_nil in Hs.
  all: by simpl in *.
Qed.

Lemma scalarRun_own d ss tok evs r :
  (∀ s tok', s ∈ ss → changed s = true → justified d (input s tok')) →
  scalarRun d ss tok evs r → Forall (ownEvent d) evs.
Proof.
  intros Hj Hrun. induction Hrun as
    [tok|s ss tok evs r Hc _ IH|s ss tok t evs r Hc _ IH|s ss tok o err Hc
    |s ss tok o Hc Ho].
  - constructor.
  - apply IH. intros s' tok' Hs'. apply Hj. by apply elem_of_cons; right.
  - constructor.
    + right. apply Hj; [by apply elem_of_cons; left|done].
    + apply IH. intros s' tok' Hs'. apply Hj. by apply elem_of_cons; right.
  - constructor; [|constructor]. right. apply Hj; [by apply elem_of_cons; left|done].
  - constructor; [|constructor]. right. apply Hj; [by apply elem_of_cons; left|done].
Qed.

Lemma waitEvent_own d ev : waitEvent (Id d) ev → ownEvent d ev.
Proof. destruct ev as [[] ? ?|?]; simpl; try done. intros ->. by left. Qed.

Lemma waitRun_own d wevs r : waitRun d wevs r → Forall (ownEvent d) wevs.
Proof.
  intros [Hall _]%waitRun_inv. eapply Forall_impl; [exact Hall|].
  intros ev. apply waitEvent_own.
Qed.

Lemma subnetRun_own d tok evs r : subnetRun d tok evs r → Forall (ownEvent d) evs.
Proof.
  assert (∀ rem add tok evs r,
            HasChangeSet subnet_mapping d = true →
            subnetChanges d = Some (rem, add) →
            associateRun d add tok evs r → Forall (ownEvent d) evs) as Hassoc.
  { intros rem add tok0 evs0 r0 Hch Hdiff Hrun.
    assert (justified d (AssociateSubnetsInput (Id d) add tok0)
            ∨ add = []) as Hj.
    { destruct add; [by right|left]. simpl. split_and!; [done..|by exists rem]. }
    inversion Hrun; subst; [constructor|..];
      (destruct Hj as [Hj|?]; [|done]);
      (constructor; [by right|]); [constructor|by eapply waitRun_own..]. }
  assert (∀ rem add tok evs r,
            HasChangeSet subnet_mapping d = true →
            subnetChanges d = Some (rem, add) →
            disassociateRun d rem tok evs r → Forall (ownEvent d) evs) as Hdis.
  { intros rem add tok0 evs0 r0 Hch Hdiff Hrun.
    assert (justified d (DisassociateSubnetsInput (Id d) rem tok0)
            ∨ rem = []) as Hj.
    { destruct rem; [by right|left]. simpl. split_and!; [done..|by exists add]. }
    inversion Hrun; subst; [constructor|..];
      (destruct Hj as [Hj|?]; [|done]);
      (constructor; [by right|]); [constructor|constructor|by eapply waitRun_own..]. }
  intros Hrun. inversion Hrun; subst; try constructor.
  - by eapply Hassoc.
  - apply Forall_app. split; [by eapply Hassoc|by eapply Hdis].
Qed.

Lemma updateRun_own d evs r : updateRun d evs r → Forall (ownEvent d) evs.
Proof.
  assert (∀ tok evs r, scalarRun d (scalarStages d) tok evs r →
                       Forall (ownEvent d) evs) as Hs.
  { intros tok evs0 r0. apply scalarRun_own. intros s tok'.
    apply scalarStages_justified. }
  intros Hrun. inversion Hrun; subst; rewrite ?Forall_app;
    split_and?; try (by eapply Hs); try (by eapply subnetRun_own).
  match goal with H : readRun _ _ _ |- _ =>
    apply readRun_inv in H as (o & e & ->) end.
  constructor; [by left|constructor].
Qed.

(** X12: every call of an update pass is a describe of the firewall of
    the resource or a mutation that a changed field asks for: the field
    reports a change, and the mutation carries the identifier of the
    resource and the planned value of the field, the subnet mutations
    what the differ makes of the change. The pass calls neither
    CreateFirewall nor DeleteFirewall, sends no value of an unchanged
    field and addresses no other firewall. *)
Theorem update_calls_justified (d : ResourceData) (w : W) :
  Forall (ownEvent d) (trace (resourceFirewallUpdate d (start w)).2).
Proof.
  destruct (resourceFirewallUpdate_sound d (start w)) as (evs & r & st' & Hr & Hrun).
  apply runs_start in Hr as [_ ->]. by eapply updateRun_own.
Qed.


Lemma failure_ne fmt d err : failure fmt d err ≠ [].
Proof. done. Qed.

Lemma scalarRun_Return d ss tok evs diags :
  scalarRun d ss tok evs (Return diags) → diags ≠ [].
Proof.
  intros Hrun. remember (Return diags) as r eqn:Hr.
  induction Hrun; try done; auto. by injection Hr as <-.
Qed.

Lemma subnetRun_Return d tok evs diags :
  subnetRun d tok evs (Return diags) → diags ≠ [].
Proof.
  intros Hrun. inversion Hrun as [| |? ? ? ? ? ? Ha|? ? ? ? ? ? ? ? Ha Hd]; subst.
  - by inversion Ha.
  - by inversion Hd.
Qed.

Lemma updateRun_success d evs d' :
  updateRun d evs (Some ([], d')) →
  ∃ evs1 tok evs2 evs3,
    evs = (evs1 ++ evs2 ++ evs3)%list
    ∧ scalarRun d (scalarStages d) (Get update_token d) evs1 (Next tok)
    ∧ subnetRun d tok evs2 (Next tt)
    ∧ readRun d evs3 ([], d').
Proof.
  intros Hrun. inversion Hrun as
    [? ? Hs|? Hs|? ? ? ? Hs Hn|? ? ? Hs Hn|? ? ? ? ? Hs Hn Hread]; subst.
  - by apply scalarRun_Return in Hs.
  - by apply subnetRun_Return in Hn.
  - by exists evs1, tok, evs2, evs3.
Qed.

(** X13: an update pass that returns no diagnostics ended with the final
    read, whose resource data it returns: the last event is the describe
    of that read. No mutation of the pass failed, but for a
    disassociation of subnets refused as inaccessible, right before the
    read. *)
Theorem update_success_reads (d : ResourceData) (w : W) (d' : ResourceData) :
  (resourceFirewallUpdate d (start w)).1 = Some ([], d') →
  ∃ pre o e,
    trace (resourceFirewallUpdate d (start w)).2
      = (pre ++ [Call (DescribeFirewallInput (Id d)) o e])%list
    ∧ readRun d [Call (DescribeFirewallInput (Id d)) o e] ([], d')
    ∧ ∀ p req o' err q,
        pre = (p ++ Call req o' (Some err) :: q)%list →
        isMutation req = true →
        q = [] ∧ inaccessible err = true
        ∧ ∃ ids tok, req = DisassociateSubnetsInput (Id d) ids tok.
Proof.
  intros Hres.
  destruct (resourceFirewallUpdate_sound d (start w)) as (evs & r & st' & Hr & Hrun).
  apply runs_start in Hr as [Hr1 ->]. rewrite Hr1 in Hres. subst r.
  destruct (updateRun_success _ _ _ Hrun) as (evs1 & tok & evs2 & evs3 & -> & _ & _ & Hread).
  destruct (readRun_inv _ _ _ Hread) as (o & e & ->).
  exists (evs1 ++ evs2)%list, o, e. split_and!; [by rewrite app_assoc|done|].
  intros p req o' err q Hpre Hm.
  rewrite app_assoc, Hpre, <- app_assoc in Hrun. cbn [app] in Hrun.
  destruct (updateRun_failed _ _ _ _ _ _ _ _ Hrun eq_refl Hm)
    as [(Hq & _)|((ids & tok' & -> & _) & Hi & rr & Hrr & _)].
  - by destruct q.
  - destruct (readRun_inv _ _ _ Hrr) as (o2 & e2 & Hq).
    destruct q as [|ev q]; [|by destruct q].
    split_and!; [done|done|by exists ids, tok'].
Qed.

Lemma elem_of_mutationsOf_app_l q evs1 evs2 :
  q ∈ mutationsOf evs1 → q ∈ mutationsOf (evs1 ++ evs2).
Proof. rewrite mutationsOf_app, elem_of_app. by left. Qed.

Lemma elem_of_mutationsOf_app_r q evs1 evs2 :
  q ∈ mutationsOf evs2 → q ∈ mutationsOf (evs1 ++ evs2).
Proof. rewrite mutationsOf_app, elem_of_app. by right. Qed.

Lemma subnetRun_applied d tok evs rem add :
  subnetRun d tok evs (Next tt) →
  HasChangeSet subnet_mapping d = true →
  subnetChanges d = Some (rem, add) →
  (add ≠ [] → ∃ tok', AssociateSubnetsInput (Id d) add tok' ∈ mutationsOf evs)
  ∧ (rem ≠ [] → ∃ tok', DisassociateSubnetsInput (Id d) rem tok' ∈ mutationsOf evs).
Proof.
  intros Hrun Hch Hdiff. unfold subnetChanges in Hdiff.
  inversion Hrun as [Hun| | |rem' add' evs1 tok' evs2 ? _ Hdiff' Ha Hd]; subst;
    [congruence|].
  rewrite Hdiff in Hdiff'. injection Hdiff' as <- <-. split.
  - intros Hadd. exists tok. apply elem_of_mutationsOf_app_l.
    destruct (associateRun_mutations _ _ _ _ _ Ha) as [[_ ?]|[-> _]]; [done|].
    by apply list_elem_of_singleton.
  - intros Hrem. exists tok'. apply elem_of_mutationsOf_app_r.
    destruct (disassociateRun_mutations _ _ _ _ _ Hd) as [[_ ?]|[-> _]]; [done|].
    by apply list_elem_of_singleton.
Qed.

(** X14: an update pass that returns no diagnostics has sent the
    mutation of every field that reports a change, with the planned
    value: the six scalar mutations and, for the subnet mappings, the
    association of the additions and the disassociation of the removals
    that the differ finds. *)
Theorem update_success_applies (d : ResourceData) (w : W) (d' : ResourceData) :
  (resourceFirewallUpdate d (start w)).1 = Some ([], d') →
  let ms := mutationsOf (trace (resourceFirewallUpdate d (start w)).2) in
  (HasChange delete_protection d = true →
   ∃ tok, UpdateFirewallDeleteProtectionInput
            (Get delete_protection d) (Id d) tok ∈ ms)
  ∧ (HasChange description d = true →
     ∃ tok, UpdateFirewallDescriptionInput (Get description d) (Id d) tok ∈ ms)
  ∧ (HasChange encryption_configuration d = true →
     ∃ tok, UpdateFirewallEncryptionConfigurationInput
              (expandEncryptionConfiguration (Get encryption_configuration d))
              (Id d) tok ∈ ms)
  ∧ (HasChange firewall_policy_change_protection d = true →
     ∃ tok, UpdateFirewallPolicyChangeProtectionInput
              (Id d) (Get firewall_policy_change_protection d) tok ∈ ms)
  ∧ (HasChange firewall_policy_arn d = true →
     ∃ tok, AssociateFirewallPolicyInput (Id d) (Get firewall_policy_arn d) tok ∈ ms)
  ∧ (HasChange subnet_change_protection d = true →
     ∃ tok, UpdateSubnetChangeProtectionInput
              (Id d) (Get subnet_change_protection d) tok ∈ ms)
  ∧ (∀ rem add,
       HasChangeSet subnet_mapping d = true →
       subnetChanges d = Some (rem, add) →
       (add ≠ [] → ∃ tok, AssociateSubnetsInput (Id d) add tok ∈ ms)
       ∧ (rem ≠ [] → ∃ tok, DisassociateSubnetsInput (Id d) rem tok ∈ ms)).
Proof.
  intros Hres.
  destruct (resourceFirewallUpdate_sound d (start w)) as (evs & r & st' & Hr & Hrun).
  apply runs_start in Hr as [Hr1 ->]. rewrite Hr1 in Hres. subst r. cbv zeta.
  destruct (updateRun_success _ _ _ Hrun)
    as (evs1 & tok & evs2 & evs3 & -> & Hs & Hn & _).
  assert (∀ s, s ∈ scalarStages d → changed s = true →
               ∃ tok', input s tok' ∈ mutationsOf (evs1 ++ evs2 ++ evs3)) as Hall.
  { intros s Hin Hc.
    destruct (scalarRun_issued _ _ _ _ _ _ s (scalarStages_ranked d) Hs Hin Hc)
      as [tok' Htok']; [left; by exists tok|].
    exists tok'. by apply elem_of_mutationsOf_app_l. }
  unfold scalarStages in Hall.
  split_and!.
  1-6: intros Hc; eapply (Hall (mkStage _ _ _)); [|exact Hc];
       rewrite !elem_of_cons; auto 10.
  intros rem add Hch Hdiff.
  destruct (subnetRun_applied _ _ _ _ _ Hn Hch Hdiff) as [Ha Hd]. split.
  - intros Hadd. destruct (Ha Hadd) as [tok' Htok']. exists tok'.
    by apply elem_of_mutationsOf_app_r, elem_of_mutationsOf_app_l.
  - intros Hrem. destruct (Hd Hrem) as [tok' Htok']. exists tok'.
    by apply elem_of_mutationsOf_app_r, elem_of_mutationsOf_app_l.
Qed.


Lemma associateRun_call d add tok evs r pre req o post :
  associateRun d add tok evs r →
  evs = (pre ++ Call req o None :: post)%list →
  isMutation req = true →
  pre = [] ∧ req = AssociateSubnetsInput (Id d) add tok
  ∧ ∃ t werr, waitRun d post (t, werr)
      ∧ match werr with
        | None => r = Next t
        | Some err =>
          r = Return (failure "waiting for NetworkFirewall Firewall (%s) update: %s" d err)
        end.
Proof.
  intros Hrun Heq Hm.
  destruct Hrun as [Ha|o0 err Ha|o0 wevs t err Ha Hw|o0 wevs t Ha Hw].
  - by destruct pre.
  - destruct pre as [|? pre]; [done|]. by destruct pre.
  - destruct pre as [|ev pre].
    + injection Heq as <- <- <-. split_and!; [done..|]. by exists t, (Some err).
    + injection Heq as _ Heq. by rewrite (wait_not_failed _ _ _ _ _ _ _ _ Hw Heq) in Hm.
  - destruct pre as [|ev pre].
    + injection Heq as <- <- <-. split_and!; [done..|]. by exists t, None.
    + injection Heq as _ Heq. by rewrite (wait_not_failed _ _ _ _ _ _ _ _ Hw Heq) in Hm.
Qed.

Lemma disassociateRun_call d rem tok evs r pre req o post :
  disassociateRun d rem tok evs r →
  evs = (pre ++ Call req o None :: post)%list →
  isMutation req = true →
  pre = [] ∧ req = DisassociateSubnetsInput (Id d) rem tok
  ∧ ∃ t werr, waitRun d post (t, werr)
      ∧ match werr with
        | None => r = Next tt
        | Some err =>
          r = Return (failure "waiting for NetworkFirewall Firewall (%s) update: %s" d err)
        end.
Proof.
  intros Hrun Heq Hm.
  destruct Hrun as [Ha|o0 err Ha Hi|o0 err Ha Hi|o0 wevs t err Ha Hw|o0 wevs t Ha Hw].
  - by destruct pre.
  - destruct pre as [|? pre]; [done|]. by destruct pre.
  - destruct pre as [|? pre]; [done|]. by destruct pre.
  - destruct pre as [|ev pre].
    + injection Heq as <- <- <-. split_and!; [done..|]. by exists t, (Some err).
    + injection Heq as _ Heq. by rewrite (wait_not_failed _ _ _ _ _ _ _ _ Hw Heq) in Hm.
  - destruct pre as [|ev pre].
    + injection Heq as <- <- <-. split_and!; [done..|]. by exists t, None.
    + injection Heq as _ Heq. by rewrite (wait_not_failed _ _ _ _ _ _ _ _ Hw Heq) in Hm.
Qed.

Lemma subnetRun_call d tok evs r pre req o post :
  subnetRun d tok evs r →
  evs = (pre ++ Call req o None :: post)%list →
  isMutation req = true →
  ∃ wevs t werr rest,
    post = (wevs ++ rest)%list
    ∧ waitRun d wevs (t, werr)
    ∧ (∀ err, werr = Some err →
         rest = []
         ∧ r = Return (failure "waiting for NetworkFirewall Firewall (%s) update: %s" d err))
    ∧ (werr = None → ∀ a ids tok', req = DisassociateSubnetsInput a ids tok' →
         rest = [] ∧ r = Next tt).
Proof.
  intros Hrun Heq Hm.
  destruct Hrun as [Hun|Hch Hp|rem add evs0 diags Hch Hdiff Ha
                    |rem add evs1 tok' evs2 r0 Hch Hdiff Ha Hd].
  - by destruct pre.
  - by destruct pre.
  - destruct (associateRun_call _ _ _ _ _ _ _ _ _ Ha Heq Hm)
      as (-> & -> & t & werr & Hw & Hr).
    exists post, t, werr, []. rewrite app_nil_r. split_and!; [done|done| |].
    + intros err ->. by injection Hr as ->.
    + intros -> ? ? ? [=].
  - apply app_cons_split in Heq as [(post1 & Heq & ->)|(pre2 & Heq & ->)].
    + destruct (associateRun_call _ _ _ _ _ _ _ _ _ Ha Heq Hm)
        as (-> & -> & t & werr & Hw & Hr).
      exists post1, t, werr, evs2. split_and!; [done|done| |].
      * intros err ->. done.
      * intros -> ? ? ? [=].
    + destruct (disassociateRun_call _ _ _ _ _ _ _ _ _ Hd Heq Hm)
        as (-> & -> & t & werr & Hw & Hr).
      exists post, t, werr, []. rewrite app_nil_r. split_and!; [done|done| |].
      * intros err ->. done.
      * intros -> ? ? ? _. done.
Qed.

Lemma scalarRun_no_subnet_call d evs r pre req o e post :
  scalarRun d (scalarStages d) (Get update_token d) evs r →
  evs = (pre ++ Call req o e :: post)%list →
  (7 ≤ rank req)%nat → False.
Proof.
  intros Hs -> Hrank.
  destruct (scalarRun_mutations _ _ _ _ _ 0 (scalarStages_ranked d) Hs) as [_ Hall].
  rewrite mutationsOf_app, Forall_app in Hall. destruct Hall as [_ Hall].
  rewrite mutationsOf_cons_mutation in Hall
    by (apply bool_decide_eq_true_2; lia).
  apply Forall_cons in Hall as [? _]. lia.
Qed.

(** X15: in an update pass a wait follows every successful association
    and every successful disassociation of subnets. When that wait ends
    with an error, the pass ends there: it returns the diagnostic of the
    wait with the resource data as it was, and neither a further mutation
    nor the final read follows. After the wait that follows a
    disassociation has succeeded, only the final read follows, and the
    pass returns its result. *)
Theorem update_subnet_wait (d : ResourceData) (w : W) pre req o post :
  trace (resourceFirewallUpdate d (start w)).2
    = (pre ++ Call req o None :: post)%list →
  (7 ≤ rank req)%nat →
  ∃ wevs t werr rest,
    post = (wevs ++ rest)%list
    ∧ waitRun d wevs (t, werr)
    ∧ (∀ err, werr = Some err →
         rest = []
         ∧ (resourceFirewallUpdate d (start w)).1
           = Some (failure "waiting for NetworkFirewall Firewall (%s) update: %s" d err, d))
    ∧ (werr = None → ∀ a ids tok, req = DisassociateSubnetsInput a ids tok →
         ∃ rr, readRun d rest rr
               ∧ (resourceFirewallUpdate d (start w)).1 = Some rr).
Proof.
  intros Heq Hrank.
  assert (isMutation req = true) as Hm by (apply bool_decide_eq_true_2; lia).
  destruct (resourceFirewallUpdate_sound d (start w)) as (evs & r & st' & Hr & Hrun).
  apply runs_start in Hr as [-> Ht]. rewrite Ht in Heq. clear Ht.
  destruct Hrun as
    [evs diags Hs|evs Hs|evs1 tok evs2 diags Hs Hn|evs1 tok evs2 Hs Hn
    |evs1 tok evs2 evs3 rr Hs Hn Hread].
  - destruct (scalarRun_no_subnet_call _ _ _ _ _ _ _ _ Hs Heq Hrank).
  - destruct (scalarRun_no_subnet_call _ _ _ _ _ _ _ _ Hs Heq Hrank).
  - apply app_cons_split in Heq as [(post1 & Heq & ->)|(pre2 & Heq & ->)].
    { destruct (scalarRun_no_subnet_call _ _ _ _ _ _ _ _ Hs Heq Hrank). }
    destruct (subnetRun_call _ _ _ _ _ _ _ _ Hn Heq Hm)
      as (wevs & t & werr & rest & -> & Hw & Herr & Hok).
    exists wevs, t, werr, rest. split_and!; [done|done| |].
    + intros err ->. destruct (Herr err eq_refl) as [-> [= <-]]. done.
    + intros -> a ids tok' ->. by destruct (Hok eq_refl _ _ _ eq_refl).
  - apply app_cons_split in Heq as [(post1 & Heq & ->)|(pre2 & Heq & ->)].
    { destruct (scalarRun_no_subnet_call _ _ _ _ _ _ _ _ Hs Heq Hrank). }
    destruct (subnetRun_call _ _ _ _ _ _ _ _ Hn Heq Hm)
      as (wevs & t & werr & rest & -> & Hw & Herr & Hok).
    exists wevs, t, werr, rest. split_and!; [done|done| |].
    + intros err ->. by destruct (Herr err eq_refl).
    + intros -> a ids tok' ->. by destruct (Hok eq_refl _ _ _ eq_refl).
  - apply app_cons_split in Heq as [(post1 & Heq & ->)|(pre2 & Heq & ->)].
    { destruct (scalarRun_no_subnet_call _ _ _ _ _ _ _ _ Hs Heq Hrank). }
    apply app_cons_split in Heq as [(post2 & Heq & ->)|(pre3 & Heq & ->)].
    2:{ destruct (readRun_inv _ _ _ Hread) as (o' & e' & ->).
        destruct pre3 as [|? pre3]; [|by destruct pre3].
        injection Heq as <- _ _. simpl in Hrank. lia. }
    destruct (subnetRun_call _ _ _ _ _ _ _ _ Hn Heq Hm)
      as (wevs & t & werr & rest & -> & Hw & Herr & Hok).
    exists wevs, t, werr, (rest ++ evs3)%list.
    split_and!; [by rewrite app_assoc|done| |].
    + intros err ->. by destruct (Herr err eq_refl).
    + intros -> a ids tok' ->. destruct (Hok eq_refl _ _ _ eq_refl) as [-> _].
      by exists rr.
Qed.


Lemma resourceFirewallRead_data d st :
  let r := (resourceFirewallRead d st).1 in
  state r.2 = state d
  ∧ IsNewResource r.2 = IsNewResource d
  ∧ TimeoutCreate r.2 = TimeoutCreate d
  ∧ TimeoutUpdate r.2 = TimeoutUpdate d
  ∧ TimeoutDelete r.2 = TimeoutDelete d
  ∧ (Id r.2 = Id d
     ∨ Id r.2 = "" ∧ IsNewResource d = false ∧ r.1 = [] ∧ plan r.2 = plan d)
  ∧ (r.1 ≠ [] → r.2 = d).
Proof.
  cbv zeta. unfold resourceFirewallRead, mbind, M_bind.
  destruct (FindFirewallByARN (Id d) st) as [r st1].
  destruct (IsNewResource d) eqn:Hnew; simpl.
  - destruct r as [err|out]; simpl; split_and!; auto; done.
  - destruct (NotFound (errOf r)); simpl.
    + split_and!; auto; done.
    + destruct r as [err|out]; simpl; split_and!; auto; done.
Qed.

(** X16: a read makes one call, the describe of the firewall of the
    resource, and no other. It keeps the prior state, the new-resource
    mark and the timeouts of the resource data; the identifier it keeps
    or, for a resource that is not new and without a diagnostic, clears,
    the planned values then staying as they were. When it returns a
    diagnostic, the resource data is returned untouched. *)
Theorem resourceFirewallRead_effects (d : ResourceData) (st : St) :
  let r := (resourceFirewallRead d st).1 in
  (∃ o e, trace (resourceFirewallRead d st).2
          = (trace st ++ [Call (DescribeFirewallInput (Id d)) o e])%list)
  ∧ state r.2 = state d
  ∧ IsNewResource r.2 = IsNewResource d
  ∧ TimeoutCreate r.2 = TimeoutCreate d
  ∧ TimeoutUpdate r.2 = TimeoutUpdate d
  ∧ TimeoutDelete r.2 = TimeoutDelete d
  ∧ (Id r.2 = Id d
     ∨ Id r.2 = "" ∧ IsNewResource d = false ∧ r.1 = [] ∧ plan r.2 = plan d)
  ∧ (r.1 ≠ [] → r.2 = d).
Proof.
  cbv zeta. split; [|apply resourceFirewallRead_data].
  destruct (resourceFirewallRead_runs d st) as (o & e & r & st' & [Hr Ht]).
  exists o, e. by rewrite Hr.
Qed.

(** X17: an update pass that returns diagnostics returns the resource
    data untouched, whichever call failed; and whatever it returns keeps
    the prior state of the resource data, and the identifier unless the
    final read cleared it. *)
Theorem update_data (d : ResourceData) (w : W)
    (diags : list Diagnostic) (d' : ResourceData) :
  (resourceFirewallUpdate d (start w)).1 = Some (diags, d') →
  (diags ≠ [] → d' = d)
  ∧ state d' = state d
  ∧ (Id d' = Id d ∨ Id d' = "" ∧ IsNewResource d = false ∧ diags = []).
Proof.
  intros Hres.
  destruct (resourceFirewallUpdate_sound d (start w)) as (evs & r & st' & Hr & Hrun).
  apply runs_start in Hr as [Hr1 _]. rewrite Hr1 in Hres. subst r.
  inversion Hrun as
    [? ? Hs|? Hs|? ? ? ? Hs Hn|? ? ? Hs Hn|? ? ? ? ? Hs Hn Hread]; subst;
    [by split_and!; auto..|].
  destruct Hread as (st1 & st2 & [Hread _]).
  pose proof (resourceFirewallRead_data d st1) as Hd. cbv zeta in Hd.
  rewrite Hread in Hd. cbn [fst snd] in Hd.
  destruct Hd as (Hst & _ & _ & _ & _ & HId & Hne).
  split_and!; [done|done|]. destruct HId as [?|(? & ? & ? & _)]; auto.
Qed.

End resource.

(** * The theorems on a scripted service *)

Local Abbreviation Answers := (list (option Output * option error)).

Local Abbreviation exampleUpdate d w :=
  (resourceFirewallUpdate exampleHashcode Answers scripted
     (fun _ => ClassFatal) (10 * Second) (fun _ => None) (fun _ => [])
     d (start Answers w)).

Local Abbreviation polled status tok :=
  (Call (DescribeFirewallInput "arn:fw") (described status tok).1 None).

Local Abbreviation exampleRead d st :=
  (resourceFirewallRead Answers scripted (fun _ => []) d st).




(** An update pass with nothing to change: the plan is the state. *)
Lemma update_idempotent_example :
  noChange (sampleData sampleState sampleState false)
  ∧ trace Answers
      (exampleUpdate (sampleData sampleState sampleState false)
         [described "READY" "t1"]).2
    = [Call (DescribeFirewallInput "arn:fw") (described "READY" "t1").1 None]
  ∧ mutationsOf
      (trace Answers
         (exampleUpdate (sampleData sampleState sampleState false)
            [described "READY" "t1"]).2)
    = [].
Proof.
  assert (noChange (sampleData sampleState sampleState false)) as H.
  { by apply noChange_same. }
  split; [exact H|].
  split; [vm_compute; reflexivity|].
  exact (proj2 (proj2 (update_idempotent exampleHashcode Answers scripted
                         (fun _ => ClassFatal) (10 * Second) (fun _ => None)
                         (fun _ => []) _ [described "READY" "t1"] H))).
Defined.

(** An update pass whose second mutation is refused: the pass ends with
    the diagnostic of that mutation. *)
Lemma update_abort_example :
  trace Answers
    (exampleUpdate (sampleData sampleState samplePlan false)
       [updated "t1"; failed "InvalidTokenException" "stale"]).2
  = [Call (UpdateFirewallDescriptionInput "new" "arn:fw" "t0")
       (Some (OutUpdate (Some "t1"))) None;
     Call (UpdateFirewallPolicyChangeProtectionInput "arn:fw" false "t1")
       None (Some (AwsError "InvalidTokenException" "stale"))]
  ∧ ∃ fmt,
      (exampleUpdate (sampleData sampleState samplePlan false)
         [updated "t1"; failed "InvalidTokenException" "stale"]).1
      = Some (failure fmt (sampleData sampleState samplePlan false)
                (AwsError "InvalidTokenException" "stale"),
              sampleData sampleState samplePlan false).
Proof.
  split; [vm_compute; reflexivity|].
  refine (proj2 (update_abort exampleHashcode Answers scripted
                   (fun _ => ClassFatal) (10 * Second) (fun _ => None)
                   (fun _ => []) _ _
                   [Call (UpdateFirewallDescriptionInput "new" "arn:fw" "t0")
                      (Some (OutUpdate (Some "t1"))) None]
                   (UpdateFirewallPolicyChangeProtectionInput "arn:fw" false "t1")
                   None (AwsError "InvalidTokenException" "stale") [] _ _ _)).
  - vm_compute. reflexivity.
  - reflexivity.
  - discriminate.
Defined.

(** An update pass that removes the subnet c. When the service refuses
    the disassociation as inaccessible, the pass goes on to the final
    read; when it refuses it otherwise, the pass ends with the diagnostic
    of the disassociation. *)
Lemma update_disassociate_failure_example :
  (trace Answers
     (exampleUpdate
        (sampleData sampleState
           (sampleAttrs "" "arn:policy" true [("subnet-a", "IPV4")]) false)
        [failed "InvalidRequestException" "The subnet is inaccessible";
         described "READY" "t1"]).2
   = [Call (DisassociateSubnetsInput "arn:fw" ["subnet-c"] "t0") None
        (Some (AwsError "InvalidRequestException" "The subnet is inaccessible"));
      polled "READY" "t1"]
   ∧ ∃ rr,
       (exampleUpdate
          (sampleData sampleState
             (sampleAttrs "" "arn:policy" true [("subnet-a", "IPV4")]) false)
          [failed "InvalidRequestException" "The subnet is inaccessible";
           described "READY" "t1"]).1
       = Some rr
       ∧ (rr.1 = []
          ∨ ∃ e, rr.1 = failure "reading NetworkFirewall Firewall (%s): %s"
                          (sampleData sampleState
                             (sampleAttrs "" "arn:policy" true
                                [("subnet-a", "IPV4")]) false) e))
  ∧ (exampleUpdate
       (sampleData sampleState
          (sampleAttrs "" "arn:policy" true [("subnet-a", "IPV4")]) false)
       [failed "InvalidRequestException" "bad subnet"]).1
    = Some (failure "disassociating NetworkFirewall Firewall (%s) subnets: %s"
              (sampleData sampleState
                 (sampleAttrs "" "arn:policy" true [("subnet-a", "IPV4")]) false)
              (AwsError "InvalidRequestException" "bad subnet"),
            sampleData sampleState
              (sampleAttrs "" "arn:policy" true [("subnet-a", "IPV4")]) false).
Proof.
  split; [split; [vm_compute; reflexivity|]|].
  - destruct (update_disassociate_failure exampleHashcode Answers scripted
                (fun _ => ClassFatal) (10 * Second) (fun _ => None)
                (fun _ => [])
                (sampleData sampleState
                   (sampleAttrs "" "arn:policy" true [("subnet-a", "IPV4")])
                   false)
                [failed "InvalidRequestException" "The subnet is inaccessible";
                 described "READY" "t1"]
                [] "arn:fw" ["subnet-c"] "t0" None
                (AwsError "InvalidRequestException" "The subnet is inaccessible")
                [polled "READY" "t1"])
      as (_ & Hpass & _); [vm_compute; reflexivity|].
    assert (inaccessible
              (AwsError "InvalidRequestException" "The subnet is inaccessible")
            = true) as Hi.
    { vm_compute. reflexivity. }
    destruct (Hpass Hi) as (_ & _ & rr & _ & _ & Hres & Hdiags).
    exists rr. split; [exact Hres|exact Hdiags].
  - refine (proj2 (proj2 (proj2
      (update_disassociate_failure exampleHashcode Answers scripted
         (fun _ => ClassFatal) (10 * Second) (fun _ => None) (fun _ => [])
         _ [failed "InvalidRequestException" "bad subnet"]
         [] "arn:fw" ["subnet-c"] "t0" None
         (AwsError "InvalidRequestException" "bad subnet") [] _)) _)).
    + vm_compute. reflexivity.
    + vm_compute. reflexivity.
Defined.

(** An update pass that adds the subnet b and removes the subnet c: the
    wait after the association sleeps 30 seconds, polls twice, and the
    disassociation carries the token t2 of the poll that found the
    firewall ready, not the token t1 of the association's response. *)
Lemma update_associate_wait_example :
  trace Answers
    (exampleUpdate
       (sampleData sampleState
          (sampleAttrs "" "arn:policy" true
             [("subnet-a", "IPV4"); ("subnet-b", "IPV4")]) false)
       [updated "t1"; described "PROVISIONING" "t1"; described "READY" "t2";
        updated "t3"; described "READY" "t4"; described "READY" "t4"]).2
  = ([] ++ Call (AssociateSubnetsInput "arn:fw"
                   [{| SubnetId := Some "subnet-b";
                       IPAddressType := Some "IPV4" |}] "t0")
             (Some (OutUpdate (Some "t1"))) None
        :: ([Sleep (30 * Second); polled "PROVISIONING" "t1";
             Sleep (10 * Second); polled "READY" "t2"]
            ++ Call (DisassociateSubnetsInput "arn:fw" ["subnet-c"] "t2")
                 (Some (OutUpdate (Some "t3"))) None
            :: [Sleep (30 * Second); polled "READY" "t4";
                polled "READY" "t4"]))%list
  ∧ ∃ mid0 ev,
      [Sleep (30 * Second); polled "PROVISIONING" "t1";
       Sleep (10 * Second); polled "READY" "t2"] = (mid0 ++ [ev])%list
      ∧ readyRead "arn:fw" "t2" ev.
Proof.
  assert (trace Answers
    (exampleUpdate
       (sampleData sampleState
          (sampleAttrs "" "arn:policy" true
             [("subnet-a", "IPV4"); ("subnet-b", "IPV4")]) false)
       [updated "t1"; described "PROVISIONING" "t1"; described "READY" "t2";
        updated "t3"; described "READY" "t4"; described "READY" "t4"]).2
  = ([] ++ Call (AssociateSubnetsInput "arn:fw"
                   [{| SubnetId := Some "subnet-b";
                       IPAddressType := Some "IPV4" |}] "t0")
             (Some (OutUpdate (Some "t1"))) None
        :: ([Sleep (30 * Second); polled "PROVISIONING" "t1";
             Sleep (10 * Second); polled "READY" "t2"]
            ++ Call (DisassociateSubnetsInput "arn:fw" ["subnet-c"] "t2")
                 (Some (OutUpdate (Some "t3"))) None
            :: [Sleep (30 * Second); polled "READY" "t4";
                polled "READY" "t4"]))%list) as Htrace.
  { vm_compute. reflexivity. }
  split; [exact Htrace|].
  destruct (update_associate_wait exampleHashcode Answers scripted
              (fun _ => ClassFatal) (10 * Second) (fun _ => None)
              (fun _ => []) _ _ _ _ _ _ _ _ Htrace) as (_ & Hmid & _).
  exact (proj2 (Hmid _ _ _ _ _ _ _ eq_refl)).
Defined.

(** A read that finds no firewall: for a resource that is not new it
    clears the identifier without a diagnostic; as the final read of a
    creation it is the diagnostic of the creation. *)
Lemma read_not_found_example :
  (exampleRead (sampleData sampleState sampleState false)
     (start Answers [failed "ResourceNotFoundException" "gone"])).1
  = ([], SetId "" (sampleData sampleState sampleState false))
  ∧ ∃ err,
      (resourceFirewallCreate Answers scripted (fun _ => ClassFatal)
         (10 * Second) (fun _ => None) (fun _ => [])
         (sampleData sampleState samplePlan true)
         (start Answers [created; described "READY" "t0";
                         failed "ResourceNotFoundException" "gone"])).1
      = Some (failure "reading NetworkFirewall Firewall (%s): %s"
                (sampleData sampleState samplePlan true) err,
              sampleData sampleState samplePlan true).
Proof.
  split.
  - refine (proj1 (proj1 (read_not_found Answers scripted (fun _ => ClassFatal)
                            (10 * Second) (fun _ => None) (fun _ => [])
                            (sampleData sampleState sampleState false)
                            (start Answers
                               [failed "ResourceNotFoundException" "gone"]) _)
                     _)).
    + vm_compute. reflexivity.
    + reflexivity.
  - refine (proj2 (proj2 (read_not_found Answers scripted (fun _ => ClassFatal)
                            (10 * Second) (fun _ => None) (fun _ => [])
                            (sampleData sampleState samplePlan true)
                            (waitFirewallCreated Answers scripted
                               (fun _ => ClassFatal) (10 * Second)
                               (30 * Minute) "arn:fw"
                               (call Answers scripted
                                  (createFirewallInput (fun _ => None)
                                     (sampleData sampleState samplePlan true)
                                     (expandOne <$> [("subnet-a", "IPV4");
                                                     ("subnet-b", "IPV4")]))
                                  (start Answers
                                     [created; described "READY" "t0";
                                      failed "ResourceNotFoundException" "gone"])).2).2
                            _))
                  (sampleData sampleState samplePlan true) _ _ sampleFirewall
                  _ (Some sampleFirewall) _ _ _ _ _).
    + vm_compute. reflexivity.
    + reflexivity.
    + reflexivity.
    + vm_compute. reflexivity.
    + vm_compute. reflexivity.
    + vm_compute. reflexivity.
Defined.

(** An update pass that changes the description, the two protections,
    the policy and the subnets, on a service that hands out a new token
    with each response: no token is sent twice, and the disassociation
    sends the token t6 of the wait, not the token t5 of the association's
    response. *)
Lemma update_tokens_example :
  tokensOf
    (trace Answers
       (exampleUpdate (sampleData sampleState samplePlan false)
          [updated "t1"; updated "t2"; updated "t3"; updated "t4";
           updated "t5"; described "PROVISIONING" "t5";
           described "READY" "t6"; updated "t7"; described "READY" "t8";
           described "READY" "t8"]).2)
  = ["t0"; "t1"; "t2"; "t3"; "t4"; "t6"]
  ∧ NoDup
      (tokensOf
         (trace Answers
            (exampleUpdate (sampleData sampleState samplePlan false)
               [updated "t1"; updated "t2"; updated "t3"; updated "t4";
                updated "t5"; described "PROVISIONING" "t5";
                described "READY" "t6"; updated "t7"; described "READY" "t8";
                described "READY" "t8"]).2)).
Proof.
  split; [vm_compute; reflexivity|].
  refine (proj2 (proj2 (update_tokens exampleHashcode Answers scripted
                          (fun _ => ClassFatal) (10 * Second) (fun _ => None)
                          (fun _ => []) _ _)) _).
  vm_compute. reflexivity.
Defined.

(** The mutations of the same pass, by their places in the order. *)
Lemma update_order_example :
  rank <$> mutationsOf
    (trace Answers
       (exampleUpdate (sampleData sampleState samplePlan false)
          [updated "t1"; updated "t2"; updated "t3"; updated "t4";
           updated "t5"; described "PROVISIONING" "t5";
           described "READY" "t6"; updated "t7"; described "READY" "t8";
           described "READY" "t8"]).2)
  = [2; 4; 5; 6; 7; 8]%nat
  ∧ StronglySorted rankLt
      (mutationsOf
         (trace Answers
            (exampleUpdate (sampleData sampleState samplePlan false)
               [updated "t1"; updated "t2"; updated "t3"; updated "t4";
                updated "t5"; described "PROVISIONING" "t5";
                described "READY" "t6"; updated "t7"; described "READY" "t8";
                described "READY" "t8"]).2)).
Proof.
  split; [vm_compute; reflexivity|].
  exact (proj1 (update_order exampleHashcode Answers scripted
                  (fun _ => ClassFatal) (10 * Second) (fun _ => None)
                  (fun _ => []) _ _)).
Defined.



(** ** More examples *)

(** The expanders on a list that holds a map without IP address type, a
    value that is no map, and a map with an empty subnet ID. *)
Lemma expandSubnetMappingIDs_expand_example :
  expandSubnetMappings
    [mapping ("subnet-a", ""); TfOther (TfInt 1); mapping ("", "IPV4")]
  = Some [ {| SubnetId := Some "subnet-a"; IPAddressType := None |};
           {| SubnetId := Some ""; IPAddressType := Some "IPV4" |} ]
  ∧ expandSubnetMappingIDs
      [mapping ("subnet-a", ""); TfOther (TfInt 1); mapping ("", "IPV4")]
    = ["subnet-a"].
Proof.
  assert (expandSubnetMappings
            [mapping ("subnet-a", ""); TfOther (TfInt 1); mapping ("", "IPV4")]
          = Some [ {| SubnetId := Some "subnet-a"; IPAddressType := None |};
                   {| SubnetId := Some ""; IPAddressType := Some "IPV4" |} ]) as H.
  { vm_compute. reflexivity. }
  split; [exact H|].
  exact (proj1 (expandSubnetMappingIDs_expand _ _ H)).
Defined.

(** The differ on a set and the same set built in another order. *)
Lemma subnetMappingsDiff_equal_example :
  subnetMappingsDiff exampleHashcode
    (NewSet exampleHashResource
       [mapping ("subnet-a", "IPV4"); mapping ("subnet-c", "IPV4")])
    (NewSet exampleHashResource
       [mapping ("subnet-c", "IPV4"); mapping ("subnet-a", "IPV4")])
  = Some ([], []).
Proof.
  apply (subnetMappingsDiff_equal exampleHashcode). vm_compute. reflexivity.
Defined.

(** The differ on sets that share the subnet a: the subnet c changes its
    IP address type, the subnet e goes and the subnet b comes. *)
Lemma subnetMappingsDiff_changes_example :
  ∃ toRemove toAdd,
    subnetMappingsDiff exampleHashcode
      (NewSet exampleHashResource
         (mapping <$> [("subnet-a", "IPV4"); ("subnet-c", "IPV4");
                       ("subnet-e", "IPV4")]))
      (NewSet exampleHashResource
         (mapping <$> [("subnet-a", "IPV4"); ("subnet-c", "DUALSTACK");
                       ("subnet-b", "IPV4")]))
    = Some (toRemove, toAdd)
    ∧ toAdd ≡ₚ [ {| SubnetId := Some "subnet-c"; IPAddressType := Some "DUALSTACK" |};
                 {| SubnetId := Some "subnet-b"; IPAddressType := Some "IPV4" |} ]
    ∧ toRemove ≡ₚ ["subnet-c"; "subnet-e"].
Proof.
  destruct (subnetMappingsDiff_changes exampleHashcode exampleHashResource
              [("subnet-a", "IPV4"); ("subnet-c", "IPV4"); ("subnet-e", "IPV4")]
              [("subnet-a", "IPV4"); ("subnet-c", "DUALSTACK"); ("subnet-b", "IPV4")])
    as (toRemove & toAdd & Hdiff & Hadd & Hrem).
  - apply (bool_decide_unpack _). vm_compute. exact I.
  - apply (bool_decide_unpack _). vm_compute. exact I.
  - apply (bool_decide_unpack _). vm_compute. exact I.
  - apply (bool_decide_unpack _). vm_compute. exact I.
  - apply (bool_decide_unpack _). vm_compute. exact I.
  - exists toRemove, toAdd. split_and!; [exact Hdiff|exact Hadd|exact Hrem].
Defined.

(** A describe answered without error and without a firewall: the read
    drops the resource from the state. *)
Lemma FindFirewallByARN_empty_result_example :
  (exampleRead (sampleData sampleState sampleState false)
     (start Answers
        [(Some (OutDescribeFirewall
                  {| OutputFirewall := None; OutputFirewallStatus := None;
                     OutputUpdateToken := None |}), None)])).1
  = ([], SetId "" (sampleData sampleState sampleState false)).
Proof.
  refine (proj2 (proj2 (FindFirewallByARN_empty_result Answers scripted
                          (fun _ => []) "arn:fw"
                          (start Answers
                             [(Some (OutDescribeFirewall
                                       {| OutputFirewall := None;
                                          OutputFirewallStatus := None;
                                          OutputUpdateToken := None |}), None)])
                          _ [] _ _))
                (sampleData sampleState sampleState false) _).
  - reflexivity.
  - intros fw fs tok. discriminate.
  - reflexivity.
Defined.

(** A read that finds the firewall with the subnets a and b: the subnet
    mappings it stores expand to those of the firewall. *)
Lemma resourceFirewallRead_found_example :
  ∃ ms,
    expandSubnetMappings
      (List (Get subnet_mapping
               (exampleRead (sampleData sampleState sampleState false)
                  (start Answers
                     [describedWith
                        [ {| SubnetId := Some "subnet-a";
                             IPAddressType := Some "IPV4" |};
                          {| SubnetId := Some "subnet-b";
                             IPAddressType := None |} ]
                        "READY" "t1"])).1.2))
    = Some ms
    ∧ ms ≡ₚ [ {| SubnetId := Some "subnet-a"; IPAddressType := Some "IPV4" |};
              {| SubnetId := Some "subnet-b"; IPAddressType := None |} ].
Proof.
  refine (proj2 (proj2 (proj2 (proj2 (proj2
            (resourceFirewallRead_found Answers scripted (fun _ => [])
               (sampleData sampleState sampleState false)
               (start Answers
                  [describedWith
                     [ {| SubnetId := Some "subnet-a";
                          IPAddressType := Some "IPV4" |};
                       {| SubnetId := Some "subnet-b";
                          IPAddressType := None |} ]
                     "READY" "t1"])
               {| FoundFirewall_Firewall :=
                    sampleFirewallWith
                      [ {| SubnetId := Some "subnet-a";
                           IPAddressType := Some "IPV4" |};
                        {| SubnetId := Some "subnet-b";
                           IPAddressType := None |} ];
                  FoundFirewall_FirewallStatus :=
                    {| Status := Some "READY"; SyncStates := None |};
                  FoundFirewall_UpdateToken := Some "t1" |}
               _)))))
            _ _ _).
  - vm_compute. reflexivity.
  - apply (bool_decide_unpack _). vm_compute. exact I.
  - repeat constructor; try by eexists. all: discriminate.
  - apply (bool_decide_unpack _). vm_compute. exact I.
Defined.

(** A creation answered with a firewall, whose wait finds it ready. *)
Lemma resourceFirewallCreate_sets_id_example :
  ∃ diags d',
    (resourceFirewallCreate Answers scripted (fun _ => ClassFatal)
       (10 * Second) (fun _ => None) (fun _ => [])
       (sampleData sampleState samplePlan true)
       (start Answers [created; described "READY" "t0"; described "READY" "t0"])).1
    = Some (diags, d')
    ∧ Id d' = "arn:fw".
Proof.
  destruct (resourceFirewallCreate_sets_id Answers scripted (fun _ => ClassFatal)
              (10 * Second) (fun _ => None) (fun _ => [])
              (sampleData sampleState samplePlan true)
              [created; described "READY" "t0"; described "READY" "t0"]
              [described "READY" "t0"; described "READY" "t0"]
              (expandOne <$> [("subnet-a", "IPV4"); ("subnet-b", "IPV4")])
              sampleFirewall)
    as (diags & d' & rest & Hres & HId & _).
  - reflexivity.
  - vm_compute. reflexivity.
  - reflexivity.
  - exists diags, d'. split; [exact Hres|exact HId].
Defined.

(** An update pass that changes the description alone and succeeds. *)
Lemma update_success_reads_example :
  ∃ pre o e,
    trace Answers
      (exampleUpdate
         (sampleData sampleState
            (sampleAttrs "new" "arn:policy" true
               [("subnet-a", "IPV4"); ("subnet-c", "IPV4")]) false)
         [updated "t1"; described "READY" "t1"]).2
    = (pre ++ [Call (DescribeFirewallInput "arn:fw") o e])%list.
Proof.
  assert (∃ d',
            (exampleUpdate
               (sampleData sampleState
                  (sampleAttrs "new" "arn:policy" true
                     [("subnet-a", "IPV4"); ("subnet-c", "IPV4")]) false)
               [updated "t1"; described "READY" "t1"]).1
            = Some ([], d')) as [d' Hd'].
  { assert (fst <$> (exampleUpdate
                       (sampleData sampleState
                          (sampleAttrs "new" "arn:policy" true
                             [("subnet-a", "IPV4"); ("subnet-c", "IPV4")]) false)
                       [updated "t1"; described "READY" "t1"]).1
            = Some []) as Hdiags.
    { vm_compute. reflexivity. }
    destruct ((exampleUpdate _ _).1) as [[diags d']|]; [|discriminate Hdiags].
    injection Hdiags as ->. by exists d'. }
  destruct (update_success_reads exampleHashcode Answers scripted
              (fun _ => ClassFatal) (10 * Second) (fun _ => None) (fun _ => [])
              _ _ d' Hd') as (pre & o & e & Ht & _).
  exists pre, o, e. exact Ht.
Defined.

Lemma update_success_applies_example :
  ∃ tok,
    UpdateFirewallDescriptionInput "new" "arn:fw" tok
    ∈ mutationsOf
        (trace Answers
           (exampleUpdate
              (sampleData sampleState
                 (sampleAttrs "new" "arn:policy" true
                    [("subnet-a", "IPV4"); ("subnet-c", "IPV4")]) false)
              [updated "t1"; described "READY" "t1"]).2).
Proof.
  assert (∃ d',
            (exampleUpdate
               (sampleData sampleState
                  (sampleAttrs "new" "arn:policy" true
                     [("subnet-a", "IPV4"); ("subnet-c", "IPV4")]) false)
               [updated "t1"; described "READY" "t1"]).1
            = Some ([], d')) as [d' Hd'].
  { assert (fst <$> (exampleUpdate
                       (sampleData sampleState
                          (sampleAttrs "new" "arn:policy" true
                             [("subnet-a", "IPV4"); ("subnet-c", "IPV4")]) false)
                       [updated "t1"; described "READY" "t1"]).1
            = Some []) as Hdiags.
    { vm_compute. reflexivity. }
    destruct ((exampleUpdate _ _).1) as [[diags d']|]; [|discriminate Hdiags].
    injection Hdiags as ->. by exists d'. }
  refine (proj1 (proj2 (update_success_applies exampleHashcode Answers scripted
                          (fun _ => ClassFatal) (10 * Second) (fun _ => None)
                          (fun _ => []) _ _ d' Hd')) _).
  vm_compute. reflexivity.
Defined.

(** An update pass that adds the subnet b, the wait for which fails. *)
Lemma update_subnet_wait_example :
  trace Answers
    (exampleUpdate
       (sampleData sampleState
          (sampleAttrs "" "arn:policy" true
             [("subnet-a", "IPV4"); ("subnet-c", "IPV4"); ("subnet-b", "IPV4")])
          false)
       [updated "t1"; failed "InternalServerError" "no answer"]).2
  = [Call (AssociateSubnetsInput "arn:fw"
             [{| SubnetId := Some "subnet-b"; IPAddressType := Some "IPV4" |}] "t0")
       (Some (OutUpdate (Some "t1"))) None;
     Sleep (30 * Second);
     Call (DescribeFirewallInput "arn:fw") None
       (Some (AwsError "InternalServerError" "no answer"))]
  ∧ ∃ wevs rest,
      [Sleep (30 * Second);
       Call (DescribeFirewallInput "arn:fw") None
         (Some (AwsError "InternalServerError" "no answer"))]
      = (wevs ++ rest)%list.
Proof.
  assert (trace Answers
    (exampleUpdate
       (sampleData sampleState
          (sampleAttrs "" "arn:policy" true
             [("subnet-a", "IPV4"); ("subnet-c", "IPV4"); ("subnet-b", "IPV4")])
          false)
       [updated "t1"; failed "InternalServerError" "no answer"]).2
  = ([] ++ Call (AssociateSubnetsInput "arn:fw"
             [{| SubnetId := Some "subnet-b"; IPAddressType := Some "IPV4" |}] "t0")
       (Some (OutUpdate (Some "t1"))) None
     :: [Sleep (30 * Second);
         Call (DescribeFirewallInput "arn:fw") None
           (Some (AwsError "InternalServerError" "no answer"))])%list) as Ht.
  { vm_compute. reflexivity. }
  split; [exact Ht|].
  destruct (update_subnet_wait exampleHashcode Answers scripted
              (fun _ => ClassFatal) (10 * Second) (fun _ => None) (fun _ => [])
              _ _ _ _ _ _ Ht) as (wevs & t & werr & rest & Hpost & _).
  - simpl. lia.
  - exists wevs, rest. exact Hpost.
Defined.

(** An update pass whose second mutation is refused returns the resource
    data as it was. *)
Lemma update_data_example :
  ∃ diags d',
    (exampleUpdate (sampleData sampleState samplePlan false)
       [updated "t1"; failed "InvalidTokenException" "stale"]).1
    = Some (diags, d')
    ∧ d' = sampleData sampleState samplePlan false.
Proof.
  assert (∃ diags d',
            (exampleUpdate (sampleData sampleState samplePlan false)
               [updated "t1"; failed "InvalidTokenException" "stale"]).1
            = Some (diags, d') ∧ diags ≠ []) as (diags & d' & Hres & Hne).
  { assert (length <$> (fst <$> (exampleUpdate
                                   (sampleData sampleState samplePlan false)
                                   [updated "t1";
                                    failed "InvalidTokenException" "stale"]).1)
            = Some 1%nat) as Hdiags.
    { vm_compute. reflexivity. }
    destruct ((exampleUpdate _ _).1) as [[diags d']|]; [|discriminate Hdiags].
    exists diags, d'. split; [reflexivity|]. intros ->. discriminate Hdiags. }
  exists diags, d'. split; [exact Hres|].
  exact (proj1 (update_data exampleHashcode Answers scripted
                  (fun _ => ClassFatal) (10 * Second) (fun _ => None)
                  (fun _ => []) _ _ diags d' Hres) Hne).
Defined.


(** The subnet mappings a and b, flattened and expanded again. *)
Lemma expandSubnetMappings_flatten_example :
  expandSubnetMappings
    (flattenSubnetMappings
       [ {| SubnetId := Some "subnet-a"; IPAddressType := Some "IPV4" |};
         {| SubnetId := Some "subnet-b"; IPAddressType := None |} ])
  = Some [ {| SubnetId := Some "subnet-a"; IPAddressType := Some "IPV4" |};
           {| SubnetId := Some "subnet-b"; IPAddressType := None |} ].
Proof.
  apply (proj2 (proj2 (expandSubnetMappings_flatten _))).
  repeat constructor; try by eexists. all: discriminate.
Defined.

(** A map without subnet ID makes [expandSubnetMappings] panic. *)
Lemma expandSubnetMappings_panic_example :
  expandSubnetMappings
    [mapping ("subnet-a", "IPV4");
     TfMap (<["ip_address_type" := TfString "IPV4"]> ∅)]
  = None.
Proof.
  apply (proj1 (expandSubnetMappings_panic _)).
  exists (<["ip_address_type" := TfString "IPV4"]> ∅). split.
  - apply elem_of_cons. right. apply elem_of_cons. by left.
  - vm_compute. reflexivity.
Defined.
